(** * tHTTP: the start-up, the web-root scan and the per-connection handler

    A shallow embedding of [src/main.c], [src/socket.c], [src/blob.c],
    [src/env.c], [src/security.c] and the exit codes of
    [src/diagnostics.h].

    C strings are lists of characters without their terminating NUL; the
    process-global hash table of hcreate(3) and the socket are passed
    explicitly; [diag_fatal] ends the process, which is the [Exit] outcome.

    Conventions on the C run time the code relies on:
    - sizes and lengths are far below the word bounds (paths are bounded
      by the system, the receive buffer by the longest route), so the
      conversions between [int], [size_t], [ssize_t] and [off_t] are exact
      and lengths are natural numbers or [Z];
    - [malloc], [strdup], [asprintf], [setsockopt], [fclose] and
      [fts_close] succeed; their failure branches exit with the codes
      [EXIT_MALLOC_FAILED], [EXIT_SETSOCKOPT_FAILED] and
      [EXIT_FTS_CLOSE_FAILED] before anything else happens;
    - [errno] is still 0 when [fts_read] has returned its last entry (the
      walk itself does not fail), so the check after the loop passes;
    - the hierarchy lies on one device, so [FTS_XDEV] leaves nothing out,
      and it has no directory cycle ([FTS_DC] is not produced). *)

From Stdlib Require Import ZArith Ascii String List Lia DecimalString.
From Stdlib Require DecimalNat DecimalFacts.
From stdpp Require Import base option list strings gmap.
From Equations Require Import Equations.

Open Scope Z_scope.

(** ** C strings *)

Abbreviation cstring := (list ascii).

(** A string literal of the source. *)
Definition lit (s : string) : cstring := list_ascii_of_string s.

Definition NUL : ascii := "000"%char.

Definition strlen (s : cstring) : nat := length s.

(** [s[0]]: the first character, the terminator when [s] is empty. *)
Definition char0 (s : cstring) : ascii := hd NUL s.

(** [strncmp(s1, s2, n) == 0].  Comparison stops after [n] characters or
    at a terminator, whichever comes first. *)
Fixpoint strncmp_eq (s1 s2 : cstring) (n : nat) {struct n} : bool :=
  match n with
  | O => true
  | S n' =>
      match s1, s2 with
      | [], [] => true
      | c1 :: t1, c2 :: t2 =>
          if decide (c1 = c2) then
            if decide (c1 = NUL) then true else strncmp_eq t1 t2 n'
          else false
      | [], c2 :: _ => bool_decide (c2 = NUL)
      | c1 :: _, [] => bool_decide (c1 = NUL)
      end
  end.

(** ** Exit codes ([enum tHTTPError], diagnostics.h) *)

Inductive tHTTPError :=
| EXIT_OK
| EXIT_SOCKET_FAILED
| EXIT_BIND_FAILED
| EXIT_LISTEN_FAILED
| EXIT_SANDBOX_FAILED
| EXIT_FORK_FAILED
| EXIT_INVALID_NUMERIC_ENV_VAR
| EXIT_DONT_USE_ROOT
| EXIT_FTS_OPEN_FAILED
| EXIT_FTS_CLOSE_FAILED
| EXIT_FTS_READ_FAILED
| EXIT_SYMLINK_IN_WEB_ROOT
| EXIT_FTS_READ_FAILED_ERR_DNR
| EXIT_FTS_UNUSUAL_FILE
| EXIT_CYCLE_IN_WEB_ROOT
| EXIT_HCREATE_FAILED
| EXIT_FOPEN_FAILED
| EXIT_MALLOC_FAILED
| EXIT_FREAD_FAILED
| EXIT_HSEARCH_TABLE_FULL
| EXIT_SETSOCKOPT_FAILED
| EXIT_SOCKET_READ_FAILED
| EXIT_NON_GET_REQUEST
| EXIT_SOCKET_WEIRD_RX_LENGTH
| EXIT_WEIRD_REQUEST_PATH
| EXIT_NOTFOUND_NOT_FOUND
| EXIT_SOCKET_SEND_FAILED
| EXIT_SOCKET_WEIRD_TX_LENGTH.

(** The numeric value of each enumerator. *)
Definition exit_code (e : tHTTPError) : Z :=
  match e with
  | EXIT_OK => 0
  | EXIT_SOCKET_FAILED => 1
  | EXIT_BIND_FAILED => 2
  | EXIT_LISTEN_FAILED => 3
  | EXIT_SANDBOX_FAILED => 4
  | EXIT_FORK_FAILED => 5
  | EXIT_INVALID_NUMERIC_ENV_VAR => 6
  | EXIT_DONT_USE_ROOT => 7
  | EXIT_FTS_OPEN_FAILED => 8
  | EXIT_FTS_CLOSE_FAILED => 9
  | EXIT_FTS_READ_FAILED => 10
  | EXIT_SYMLINK_IN_WEB_ROOT => 11
  | EXIT_FTS_READ_FAILED_ERR_DNR => 12
  | EXIT_FTS_UNUSUAL_FILE => 13
  | EXIT_CYCLE_IN_WEB_ROOT => 14
  | EXIT_HCREATE_FAILED => 15
  | EXIT_FOPEN_FAILED => 16
  | EXIT_MALLOC_FAILED => 17
  | EXIT_FREAD_FAILED => 18
  | EXIT_HSEARCH_TABLE_FULL => 19
  | EXIT_SETSOCKOPT_FAILED => 20
  | EXIT_SOCKET_READ_FAILED => 21
  | EXIT_NON_GET_REQUEST => 22
  | EXIT_SOCKET_WEIRD_RX_LENGTH => 23
  | EXIT_WEIRD_REQUEST_PATH => 24
  | EXIT_NOTFOUND_NOT_FOUND => 25
  | EXIT_SOCKET_SEND_FAILED => 26
  | EXIT_SOCKET_WEIRD_TX_LENGTH => 27
  end.

(** ** Process outcomes

    A computation either returns a value, or the process has called
    [exit(error)] (always through [diag_fatal]), or the process has been
    terminated by a signal and leaves no exit status.  The program
    installs no signal handler, ignores no signal and gives [send] no
    [MSG_NOSIGNAL]; the one signal its own calls raise is SIGPIPE, from
    [send] on a connection that is broken. *)

Inductive outcome (A : Type) :=
| Ret (a : A)
| Exit (e : tHTTPError)
| Killed.
Arguments Ret {A} a.
Arguments Exit {A} e.
Arguments Killed {A}.

Global Instance outcome_ret : MRet outcome := fun A a => Ret a.
Global Instance outcome_bind : MBind outcome := fun A B k m =>
  match m with
  | Ret a => k a
  | Exit e => Exit e
  | Killed => Killed
  end.

(** [diag_fatal] logs the formatted message and exits with [error]; the
    message is kept as an argument so that call sites read as in the
    source. *)
Definition diag_fatal {A} (error : tHTTPError) (format : string) : outcome A :=
  Exit error.

Definition diag_fatal_perror {A} (error : tHTTPError) (context : string) : outcome A :=
  diag_fatal error "%s: %s".

(** ** Blob (blob.c) *)

Record Blob := mkBlob {
  b_length : nat;          (* [size_t length] *)
  b_data : list ascii      (* [uint8_t data[]] *)
}.

Global Instance Blob_eq_dec : EqDecision Blob.
Proof. solve_decision. Defined.

(** [blob_new]: the data is zeroed out. *)
Definition blob_new (size : nat) : option Blob :=
  Some {| b_length := size; b_data := replicate size NUL |}.

(** A [Blob*] may be NULL. *)
Definition blob_get_size (blob : option Blob) : nat :=
  match blob with
  | Some b => b_length b
  | None => 0%nat
  end.

Definition blob_get_data (blob : option Blob) : list ascii :=
  match blob with
  | Some b => b_data b
  | None => []
  end.

(** ** The hash table of hcreate(3) / hsearch(3)

    One process-wide table from keys to data pointers.  [h_cap] is the
    number of entries the table can hold: [None] where the implementation
    grows the table on demand (as the comment in [scan_web_root] observes
    for macOS).  POSIX semantics of [hsearch]: [FIND] returns the entry or
    NULL; [ENTER] returns the entry already stored under the key when
    there is one, leaving it as it is, and otherwise stores the item,
    returning NULL only when the table is full. *)

Inductive ACTION := FIND | ENTER.

Record ENTRY := mkENTRY {
  key : cstring;
  data : option Blob       (* [void *data] *)
}.

Record htab := mkHtab {
  h_entries : gmap cstring (option Blob);
  h_cap : option nat
}.

(** [hcreate(nel)] on a platform whose table holds [cap] entries. *)
Definition hcreate (cap : option nat) (nel : nat) : option htab :=
  Some {| h_entries := ∅; h_cap := cap |}.

Definition h_full (t : htab) : bool :=
  match h_cap t with
  | Some n => bool_decide (n <= size (h_entries t))%nat
  | None => false
  end.

Definition hsearch (item : ENTRY) (action : ACTION) (t : htab) : option ENTRY * htab :=
  match h_entries t !! key item with
  | Some d => (Some (mkENTRY (key item) d), t)
  | None =>
      match action with
      | FIND => (None, t)
      | ENTER =>
          if h_full t then (None, t)
          else (Some item,
                {| h_entries := <[key item := data item]> (h_entries t);
                   h_cap := h_cap t |})
      end
  end.

(** ** The file hierarchy and fts(3)

    fts(3) is the C library's; it is modelled after the BSD
    implementation (fts.c), which the target platform ships: how an entry
    is classified ([fts_stat]), how the root entry is named ([fts_load]),
    how the path of an entry is built ([NAPPEND]), the order of the walk
    and the effect of [fts_set(FTS_SKIP)] ([fts_read]).

    What the scan can meet on disk.  A regular file carries the size
    [lstat] reports ([st_size]), whether [fopen] succeeds, the bytes a
    read of the file delivers before end of file or an error, and whether
    the stream's error indicator is then set. *)

Record file := mkFile {
  st_size : nat;
  f_openable : bool;
  f_bytes : list ascii;
  f_error : bool
}.

#[warnings="-register-all"]
Inductive node :=
| NReg (f : file)                               (* regular file *)
| NDir (readable : bool) (entries : list (cstring * node))
                                                (* directory: the names other than . and .. with
                                                   their objects, in directory order *)
| NLnk (target : option node)                   (* symbolic link; [None]: the target is missing *)
| NSpecial                                      (* FIFO, socket, device *)
| NNoStat.                                      (* [lstat] fails on it *)

(** [fts_open] options (fts.h). *)
Definition FTS_COMFOLLOW : Z := 0x001.
Definition FTS_LOGICAL : Z := 0x002.
Definition FTS_NOCHDIR : Z := 0x004.
Definition FTS_NOSTAT : Z := 0x008.
Definition FTS_PHYSICAL : Z := 0x010.
Definition FTS_SEEDOT : Z := 0x020.
Definition FTS_XDEV : Z := 0x040.

Definition ISSET (options opt : Z) : bool := negb (Z.land options opt =? 0).

(** [fts_info] values. *)
Inductive fts_info_t :=
| FTS_D | FTS_DC | FTS_DEFAULT | FTS_DNR | FTS_DOT | FTS_DP | FTS_ERR
| FTS_F | FTS_INIT | FTS_NS | FTS_NSOK | FTS_SL | FTS_SLNONE | FTS_W.

(** [fts_set] instructions. *)
Inductive fts_instr_t := FTS_NOINSTR | FTS_SKIP.

(** [struct stat], as far as the scan looks at it. *)
Record stat_t := mkStat {
  S_ISREG : bool;
  stat_size : nat
}.

Record FTSENT := mkFTSENT {
  fts_info : fts_info_t;
  fts_path : cstring;
  fts_name : cstring;
  fts_statp : stat_t;
  fts_accpath : node        (* the object the access path names *)
}.

Definition stat_of (n : node) : stat_t :=
  match n with
  | NReg f => {| S_ISREG := true; stat_size := st_size f |}
  | _ => {| S_ISREG := false; stat_size := 0 |}
  end.

Definition slash : ascii := "/"%char.

(** The name fts gives the root entry ([fts_load]): the text after the
    last slash of the path given to [fts_open], the path itself when it
    has no slash or is just a slash. *)
Fixpoint after_last_slash (s : cstring) : option cstring :=
  match s with
  | [] => None
  | c :: s' =>
      match after_last_slash s' with
      | Some t => Some t
      | None => if decide (c = slash) then Some s' else None
      end
  end.

Definition fts_root_name (path : cstring) : cstring :=
  match after_last_slash path with
  | Some t => if decide (path = [slash]) then path else t
  | None => path
  end.

(** The path of an entry of a directory: the directory's path, a slash,
    the entry's name.  As the comment in [scan_web_root] has it, the
    paths are simply appended, also after a root path that ends in a
    slash ([www/] gives [www//index.html]); only below a root path that
    is just [/] no second slash is written (the [NAPPEND] macro of fts.c
    special-cases a root of [/] so that paths are not written as
    [//foo]).  The macro tests for the root level too; no other entry has
    the path [/]. *)
Definition NAPPEND (dir_path : cstring) : cstring :=
  if decide (dir_path = [slash]) then [] else dir_path.

Definition fts_child_path (dir_path name : cstring) : cstring :=
  NAPPEND dir_path ++ slash :: name.

Section fts_read.
(** The loop [while ((p = fts_read(fts)) != NULL) body] over the
    hierarchy: [body] is the loop body, which returns the new state and
    the instruction it gave with [fts_set] for the entry.  A directory
    is returned in pre-order ([FTS_D]), then its entries in directory
    order unless the body asked to skip it, then the directory again in
    post-order ([FTS_DP]).  [follow] tells whether symbolic links are
    followed: for the root with [FTS_COMFOLLOW], below it with
    [FTS_LOGICAL]. *)
Context {St : Type}.
Variable body : FTSENT -> St -> outcome (St * fts_instr_t).
Variable options : Z.

Definition visit (info : fts_info_t) (path name : cstring) (n : node) (s : St) : outcome St :=
  r ← body (mkFTSENT info path name (stat_of n) n) s; mret (fst r).

Fixpoint fts_walk (follow : bool) (path name : cstring) (n : node) (s : St) {struct n}
    : outcome St :=
  match n with
  | NReg _ => visit FTS_F path name n s
  | NDir readable entries =>
      r ← body (mkFTSENT FTS_D path name (stat_of n) n) s;
      match snd r with
      | FTS_SKIP => visit FTS_DP path name n (fst r)
      | FTS_NOINSTR =>
          if readable then
            s' ← (fix walk_entries (es : list (cstring * node)) (s : St) : outcome St :=
                    match es with
                    | [] => mret s
                    | e :: es' =>
                        s1 ← fts_walk (ISSET options FTS_LOGICAL)
                               (fts_child_path path (fst e)) (fst e) (snd e) s;
                        walk_entries es' s1
                    end) entries (fst r);
            visit FTS_DP path name n s'
          else visit FTS_DNR path name n (fst r)
      end
  | NLnk (Some t) =>
      if follow then fts_walk follow path name t s
      else visit FTS_SL path name n s
  | NLnk None =>
      if follow then visit FTS_SLNONE path name n s
      else visit FTS_SL path name n s
  | NSpecial => visit FTS_DEFAULT path name n s
  | NNoStat => visit FTS_NS path name n s
  end.

(** The walk over the entries of the directory at [path]. *)
Fixpoint walk_entries (path : cstring) (es : list (cstring * node)) (s : St)
    : outcome St :=
  match es with
  | [] => mret s
  | e :: es' =>
      s1 ← fts_walk (ISSET options FTS_LOGICAL)
             (fts_child_path path (fst e)) (fst e) (snd e) s;
      walk_entries path es' s1
  end.

(** The walk starts at the object [root] that [path] names. *)
Definition fts_read_all (path : cstring) (root : node) (s : St) : outcome St :=
  fts_walk (ISSET options FTS_COMFOLLOW) path (fts_root_name path) root s.
End fts_read.

(** [fts_open] refuses an empty path (ENOENT); the handle stands for the
    options the walk is opened with. *)
Definition fts_open (path : cstring) (options : Z) : option Z :=
  if decide (path = []) then None else Some options.

(** ** stdio on a file of the hierarchy *)

(** [fopen(p->fts_accpath, "rb")]: the stream, or NULL. *)
Definition fopen (n : node) : option file :=
  match n with
  | NReg f => if f_openable f then Some f else None
  | _ => None
  end.

(** [fread(blob_get_data(blob), 1, blob_get_size(blob), f)]: the number of
    bytes read and the blob with these bytes written over its start. *)
Definition fread (blob : Blob) (f : file) : nat * Blob :=
  let got := take (b_length blob) (f_bytes f) in
  (length got,
   {| b_length := b_length blob;
      b_data := got ++ drop (length got) (b_data blob) |}).

Definition ferror (f : file) : bool := f_error f.

(** ** scan_web_root (main.c) *)

Record scan_state := mkScan {
  table : htab;              (* the hsearch table *)
  max_path_len_out : Z       (* [*max_path_len_out] *)
}.

Definition index_suffix : cstring := lit "/index.html".

(** The route of a file from its [fts_path]: the base path is cut off,
    then a trailing [/index.html], and an empty result becomes [/]. *)
Definition route_of (base_path_len : nat) (fts_path : cstring) : cstring :=
  let index_suffix_len := strlen index_suffix in
  let file_path := drop base_path_len fts_path in
  let file_path_len := strlen file_path in
  if bool_decide (index_suffix_len <= file_path_len)%nat
     && strncmp_eq (drop (file_path_len - index_suffix_len) file_path)
          index_suffix index_suffix_len
  then
    let file_path := take (file_path_len - index_suffix_len) file_path in
    if decide (char0 file_path = NUL) then [slash] else file_path
  else file_path.

(** The body of the [while] loop, one case per [fts_info]. *)
Definition scan_body (base_path_len : nat) (p : FTSENT) (st : scan_state)
    : outcome (scan_state * fts_instr_t) :=
  match fts_info p with
  | FTS_D =>
      if decide (char0 (fts_name p) = "."%char)
      then mret (st, FTS_SKIP)
      else mret (st, FTS_NOINSTR)
  | FTS_DP => mret (st, FTS_NOINSTR)
  | FTS_F =>
      if negb (S_ISREG (fts_statp p)) then
        diag_fatal EXIT_FTS_UNUSUAL_FILE "encountered a non-regular file in the web root: %s"
      else if decide (char0 (fts_name p) = "."%char) then
        mret (st, FTS_NOINSTR)
      else
        let file_path := route_of base_path_len (fts_path p) in
        let route_len := Z.of_nat (strlen file_path) in
        let max := if max_path_len_out st <? route_len then route_len
                   else max_path_len_out st in
        match fopen (fts_accpath p) with
        | None => diag_fatal EXIT_FOPEN_FAILED "fopen(): %s: %s"
        | Some f =>
            match blob_new (stat_size (fts_statp p)) with
            | None => diag_fatal_perror EXIT_MALLOC_FAILED "malloc()"
            | Some blob =>
                let '(num_read, blob) := fread blob f in
                if negb (num_read =? stat_size (fts_statp p))%nat then
                  let ferr := ferror f in
                  if (num_read =? 0)%nat && ferr then
                    diag_fatal_perror EXIT_FREAD_FAILED "fread()"
                  else
                    diag_fatal EXIT_FREAD_FAILED
                      "fread(): file size was mismatched, or was changed between scan and read. expected %llu, read %zu"
                else
                  match hsearch (mkENTRY file_path (Some blob)) ENTER (table st) with
                  | (None, _) =>
                      diag_fatal EXIT_HSEARCH_TABLE_FULL "hsearch(): hash table is full"
                  | (Some _, t) =>
                      mret ({| table := t; max_path_len_out := max |}, FTS_NOINSTR)
                  end
            end
        end
  | FTS_SL | FTS_SLNONE =>
      diag_fatal EXIT_SYMLINK_IN_WEB_ROOT "encountered a symbolic link in the web root: %s"
  | FTS_DC =>
      diag_fatal EXIT_CYCLE_IN_WEB_ROOT "encountered a filesystem cycle in the web root: %s"
  | FTS_ERR | FTS_DNR | FTS_NS =>
      diag_fatal EXIT_FTS_READ_FAILED "fts_read(): FTS_ERR | FTS_DNR | FTS_NS: %s: %s"
  | _ =>
      diag_fatal EXIT_FTS_UNUSUAL_FILE
        "encountered an unusual file in the web root (FTS_NSOK or FTS_DEFAULT): %s"
  end.

(** [scan_web_root(path, &max_path_len)] where [path] names the object
    [root]; [hcap] is the capacity of the platform's hash table.  Returns
    the filled table and the longest route length. *)
Definition scan_web_root (hcap : option nat) (path : cstring) (root : node)
    : outcome scan_state :=
  let base_path_len := strlen path in
  match fts_open path (Z.lor (Z.lor FTS_PHYSICAL FTS_COMFOLLOW) FTS_XDEV) with
  | None => diag_fatal_perror EXIT_FTS_OPEN_FAILED "fts_open()"
  | Some fts =>
      match hcreate hcap 1 with
      | None => diag_fatal_perror EXIT_HCREATE_FAILED "hcreate()"
      | Some t =>
          fts_read_all (scan_body base_path_len) fts path root
            {| table := t; max_path_len_out := 0 |}
      end
  end.

(** ** The connection (socket.c)

    What the peer and the transport do on one accepted connection, as the
    results of the successive [read] and [send] calls.  [RxData c bs]: the
    bytes [c :: bs] are waiting; [RxClose]: the peer has closed its side,
    [read] returns 0; [RxError]: [read] returns -1.  An empty [rx] is a
    silent peer: the receive timeout set with [SO_RCVTIMEO] expires and
    [read] returns -1.  [TxTake n]: [send] takes at most [n] bytes;
    [TxError], or an empty [tx]: [send] returns -1 (the send timeout set
    with [SO_SNDTIMEO] expires, or another error); [TxSigpipe]: the
    connection is broken (the peer has closed it and answered what was
    sent with a reset), [send] raises SIGPIPE and the process is killed.
    [wire] collects the bytes sent. *)

Inductive rx_event := RxData (c : ascii) (bs : list ascii) | RxClose | RxError.
Inductive tx_event := TxTake (n : nat) | TxError | TxSigpipe.

Record sock := mkSock {
  rx : list rx_event;
  tx : list tx_event;
  wire : list ascii;
  is_open : bool
}.

(** [read(ns, buf, count)]: [None] for -1, else the bytes read. *)
Definition read (count : Z) (s : sock) : option (list ascii) * sock :=
  match rx s with
  | RxData c bs :: rest =>
      let n := Z.to_nat count in
      (Some (take n (c :: bs)),
       {| rx := match drop n (c :: bs) with
                | [] => rest
                | c' :: bs' => RxData c' bs' :: rest
                end;
          tx := tx s; wire := wire s; is_open := is_open s |})
  | RxClose :: _ => (Some [], s)
  | RxError :: rest =>
      (None, {| rx := rest; tx := tx s; wire := wire s; is_open := is_open s |})
  | [] => (None, s)
  end.

(** What a call of [send] comes to: it returns the number of bytes
    taken, it returns -1, or it does not return, the process being killed
    by SIGPIPE. *)
Inductive send_t := Sent (bytes : nat) | SendFails | SendSigpipe.

(** [send(socket, message, size, 0)]. *)
Definition send (message : list ascii) (s : sock) : send_t * sock :=
  match tx s with
  | TxTake n :: rest =>
      let taken := take n message in
      (Sent (length taken),
       {| rx := rx s; tx := rest; wire := wire s ++ taken; is_open := is_open s |})
  | TxError :: rest =>
      (SendFails, {| rx := rx s; tx := rest; wire := wire s; is_open := is_open s |})
  | TxSigpipe :: rest =>
      (SendSigpipe, {| rx := rx s; tx := rest; wire := wire s; is_open := is_open s |})
  | [] => (SendFails, s)
  end.

(** [shutdown(ns, SHUT_RDWR); close(ns)]. *)
Definition close (s : sock) : sock :=
  {| rx := rx s; tx := tx s; wire := wire s; is_open := false |}.

(** The [do ... while (sent < message_size)] loop of [socket_send]; the
    result is the final value of [sent]. *)
Equations? socket_send_loop (message : list ascii) (message_size sent : nat) (s : sock)
    : outcome nat * sock by wf (message_size - sent)%nat lt :=
  socket_send_loop message message_size sent s
    with send (take (message_size - sent) (drop sent message)) s => {
    | (SendSigpipe, s1) => (Killed, s1)
    | (SendFails, s1) => (diag_fatal_perror EXIT_SOCKET_SEND_FAILED "send()", s1)
    | (Sent bytes, s1) with decide (bytes = 0%nat) => {
      | left _ => (Ret sent, s1)
      | right _ with decide (sent + bytes < message_size)%nat => {
        | left _ => socket_send_loop message message_size (sent + bytes) s1
        | right _ => (Ret (sent + bytes)%nat, s1) } } }.
Proof. lia. Qed.

Definition socket_send (message : list ascii) (message_size : nat) (s : sock)
    : outcome unit * sock :=
  match socket_send_loop message message_size 0 s with
  | (Ret sent, s1) =>
      if decide (sent <> message_size)
      then (diag_fatal EXIT_SOCKET_WEIRD_TX_LENGTH
              "Didn't manage to send enough bytes to the client.", s1)
      else (Ret (), s1)
  | (Exit e, s1) => (Exit e, s1)
  | (Killed, s1) => (Killed, s1)
  end.

(** The [do ... while (received < max_size)] loop of [socket_read]; the
    result is the final [received] with the bytes stored in [in_buf]. *)
Equations? socket_read_loop (max_size received : Z) (in_buf : list ascii) (s : sock)
    : outcome (Z * list ascii) * sock by wf (Z.to_nat (max_size - received)) lt :=
  socket_read_loop max_size received in_buf s with read (max_size - received) s => {
    | (None, s1) => (diag_fatal_perror EXIT_SOCKET_READ_FAILED "read()", close s1)
    | (Some bytes, s1) with decide (length bytes = 0%nat) => {
      | left _ => (Ret (received, in_buf), s1)
      | right _ with decide (received + Z.of_nat (length bytes) < max_size) => {
        | left _ =>
            socket_read_loop max_size (received + Z.of_nat (length bytes))
              (in_buf ++ bytes) s1
        | right _ => (Ret (received + Z.of_nat (length bytes), in_buf ++ bytes), s1) } } }.
Proof. lia. Qed.

(** [socket_read(ns, min_size, max_size)]: the bytes received; the buffer
    holds them followed by a NUL. *)
Definition socket_read (min_size max_size : Z) (s : sock)
    : outcome (list ascii) * sock :=
  match socket_read_loop max_size 0 [] s with
  | (Ret (received, in_buf), s1) =>
      if decide (received < min_size \/ received > max_size)
      then (diag_fatal EXIT_SOCKET_WEIRD_RX_LENGTH "Weird receive length. Aborting.",
            close s1)
      else (Ret in_buf, s1)
  | (Exit e, s1) => (Exit e, s1)
  | (Killed, s1) => (Killed, s1)
  end.

(** ** child_handle_client (main.c) *)

Record accept_loop_data := mkLoopData {
  rx_timeout : Z;
  tx_timeout : Z;
  notfound_route : cstring;
  max_path_len : Z
}.

Definition CR : ascii := "013"%char.
Definition LF : ascii := "010"%char.
Definition TAB : ascii := "009"%char.
Definition SP : ascii := " "%char.

(** The delimiters given to [strtok_r]: [" \r\n\t"]. *)
Definition delimiters : cstring := [SP; CR; LF; TAB].

(** The C string that starts at a buffer position: the bytes before the
    first NUL (the buffer is NUL-terminated by [socket_read]). *)
Fixpoint c_str (buf : list ascii) : cstring :=
  match buf with
  | [] => []
  | c :: buf' => if decide (c = NUL) then [] else c :: c_str buf'
  end.

Fixpoint skip_delims (delim s : cstring) : cstring :=
  match s with
  | [] => []
  | c :: s' => if bool_decide (c ∈ delim) then skip_delims delim s' else s
  end.

Fixpoint upto_delim (delim s : cstring) : cstring :=
  match s with
  | [] => []
  | c :: s' => if bool_decide (c ∈ delim) then [] else c :: upto_delim delim s'
  end.

(** The first call [strtok_r(str, delim, &saveptr)]: leading delimiters
    are skipped; NULL when nothing is left, else the token up to the next
    delimiter or the end of the string. *)
Definition strtok_r (str delim : cstring) : option cstring :=
  match skip_delims delim str with
  | [] => None
  | s => Some (upto_delim delim s)
  end.

(** [%zu]. *)
Definition fmt_zu (n : nat) : cstring :=
  lit (NilEmpty.string_of_uint (Nat.to_uint n)).

(** [asprintf(&message_buf, "HTTP/1.1 %s\r\nContent-Length: %zu\r\n\r\n", ...)]. *)
Definition response_header (response_status : cstring) (size : nat) : cstring :=
  lit "HTTP/1.1 " ++ response_status ++ [CR; LF] ++
  lit "Content-Length: " ++ fmt_zu size ++ [CR; LF; CR; LF].

Definition fallback_err_response : cstring :=
  lit "HTTP/1.1 404 NOT FOUND" ++ [CR; LF] ++ lit "Content-Length: 13" ++
  [CR; LF; CR; LF] ++ lit "404 NOT FOUND".

(** The handler of one connection; [t] is the table the scan left in the
    (forked) process.  Returning normally, the child calls
    [exit(EXIT_OK)] in [accept_next_connection]. *)
Definition child_handle_client (t : htab) (loop_data : accept_loop_data) (ns : sock)
    : outcome unit * sock :=
  (* Receive from client. *)
  let max_size := max_path_len loop_data + 5 in
  match socket_read 5 max_size ns with
  | (Exit e, ns) => (Exit e, ns)
  | (Killed, ns) => (Killed, ns)
  | (Ret in_buf, ns) =>
  (* Enforce GET request *)
  if negb (strncmp_eq (c_str in_buf) (lit "GET ") 4) then
    (diag_fatal EXIT_NON_GET_REQUEST "Got a non-GET request. Aborting.", ns)
  else
  (* Isolate the GET path. *)
  let get_path := strtok_r (c_str (drop 4 in_buf)) delimiters in
  (* Ensure the GET path isn't.. wonky. *)
  match get_path with
  | None =>
      (diag_fatal EXIT_WEIRD_REQUEST_PATH "Got a weird request path. Aborting.", ns)
  | Some get_path =>
  if bool_decide (strlen get_path < 1)%nat || negb (bool_decide (char0 get_path = slash)) then
    (diag_fatal EXIT_WEIRD_REQUEST_PATH "Got a weird request path. Aborting.", ns)
  else
  (* Search for the path in our routing. *)
  let found_entry := fst (hsearch (mkENTRY get_path None) FIND t) in
  let response_status := lit "200 OK" in
  (* 404. Try to get the notfound route instead. *)
  let '(response_status, found_entry) :=
    match found_entry with
    | None => (lit "404 NOT FOUND",
               fst (hsearch (mkENTRY (notfound_route loop_data) None) FIND t))
    | Some _ => (response_status, found_entry)
    end in
  match found_entry with
  | None =>
      (* 404 times two! Our notfound_route is also not found. *)
      match socket_send fallback_err_response (strlen fallback_err_response) ns with
      | (Exit e, ns) => (Exit e, ns)
      | (Killed, ns) => (Killed, ns)
      | (Ret _, ns) =>
          (diag_fatal EXIT_NOTFOUND_NOT_FOUND "The TH_CFG_NOTFOUND_ROUTE wasn't found.",
           close ns)
      end
  | Some found_entry =>
      let found_blob := data found_entry in
      let message_buf := response_header response_status (blob_get_size found_blob) in
      match socket_send message_buf (strlen message_buf) ns with
      | (Exit e, ns) => (Exit e, ns)
      | (Killed, ns) => (Killed, ns)
      | (Ret _, ns) =>
          match socket_send (blob_get_data found_blob) (blob_get_size found_blob) ns with
          | (Exit e, ns) => (Exit e, ns)
          | (Killed, ns) => (Killed, ns)
          | (Ret _, ns) => (Ret (), close ns)
          end
      end
  end
  end
  end.

(** ** accept_next_connection (main.c)

    What [accept] and [fork] do for one round of the listener's loop. *)
Inductive accept_event :=
| AcceptFails                      (* [accept] returns -1 *)
| ForkFails (ns : sock)            (* a connection, but [fork] returns -1 *)
| Forked (ns : sock).              (* a connection and a child process *)

(** The listener's own outcome for one round, and the exit status and
    socket of the child it forked, if it forks one and the child ends by
    [exit]: a child that is killed by a signal leaves no exit status.
    The child runs [child_handle_client] and then [exit(EXIT_OK)]; the
    listener closes its copy of the connection and returns to its
    loop. *)
Definition accept_next_connection (t : htab) (loop_data : accept_loop_data)
    (ev : accept_event) : outcome unit * option (tHTTPError * sock) :=
  match ev with
  | AcceptFails => (Ret (), None)
  | ForkFails ns => (diag_fatal_perror EXIT_FORK_FAILED "fork()", None)
  | Forked ns =>
      let child :=
        match child_handle_client t loop_data ns with
        | (Ret _, ns') => Some (EXIT_OK, ns')
        | (Exit e, ns') => Some (e, ns')
        | (Killed, _) => None
        end in
      (Ret (), child)
  end.

(** [while (true) accept_next_connection(s, loop_data)] over the rounds
    [evs]: the listener's outcome and the children that ended by [exit],
    each with its exit status. *)
Fixpoint accept_loop (t : htab) (loop_data : accept_loop_data) (evs : list accept_event)
    : outcome unit * list (tHTTPError * sock) :=
  match evs with
  | [] => (Ret (), [])
  | ev :: evs' =>
      match accept_next_connection t loop_data ev with
      | (Ret _, child) =>
          let '(r, children) := accept_loop t loop_data evs' in
          (r, option_list child ++ children)
      | (Exit e, child) => (Exit e, option_list child)
      | (Killed, child) => (Killed, option_list child)
      end
  end.

(** ** main (main.c)

    The scan, then the listener's loop over the rounds [evs] with the
    table and the longest route length the scan produced.  The
    configuration read from the environment is given as arguments;
    [socket_server_setup] and [security_enter_sandbox] are taken to
    succeed. *)
Definition main (hcap : option nat) (web_root notfound_route : cstring)
    (rx_timeout tx_timeout : Z) (root : node) (evs : list accept_event)
    : outcome unit * list (tHTTPError * sock) :=
  match scan_web_root hcap web_root root with
  | Exit e => (Exit e, [])
  | Killed => (Killed, [])
  | Ret st =>
      accept_loop (table st)
        {| rx_timeout := rx_timeout; tx_timeout := tx_timeout;
           notfound_route := notfound_route;
           max_path_len := max_path_len_out st |} evs
  end.

(** ** Vocabulary of the statements *)

(** The options [scan_web_root] gives to [fts_open]. *)
Definition scan_options : Z := Z.lor (Z.lor FTS_PHYSICAL FTS_COMFOLLOW) FTS_XDEV.

(** A name that starts with a dot. *)
Definition dotted (name : cstring) : bool := bool_decide (char0 name = "."%char).

(** The object a root path names once the links it goes through are
    followed; a link whose target is missing stays. *)
Fixpoint follow_root (n : node) : node :=
  match n with
  | NLnk (Some t) => follow_root t
  | _ => n
  end.

(** The [fts_path] of the object reached from the root path through the
    entries [pos], outermost first. *)
Definition fts_path_at (root_path : cstring) (pos : list cstring) : cstring :=
  foldl fts_child_path root_path pos.

(** The entries [pos] written as a path below the root: a slash before
    each name. *)
Definition rel_path (pos : list cstring) : cstring :=
  concat (map (cons slash) pos).

(** [routed name n pos f]: below the object [n] named [name], following
    the entries [pos], lies the regular file [f]; neither the file nor any
    directory on the way, [n] included, has a dotted name. *)
Inductive routed : cstring -> node -> list cstring -> file -> Prop :=
| routed_file name f :
    dotted name = false -> routed name (NReg f) [] f
| routed_dir name r es nm k pos f :
    dotted name = false -> (nm, k) ∈ es -> routed nm k pos f ->
    routed name (NDir r es) (nm :: pos) f.

(** [reaches name n tname t]: the object [t] named [tname] is [n] itself
    or lies below it with no dotted directory above it ([n] included). *)
Inductive reaches : cstring -> node -> cstring -> node -> Prop :=
| reaches_here name n : reaches name n name n
| reaches_below name r es nm k tname t :
    dotted name = false -> (nm, k) ∈ es -> reaches nm k tname t ->
    reaches name (NDir r es) tname t.

(** In a physical walk a link, a special file and an object [lstat]
    fails on are handed to the body as [FTS_SL], [FTS_DEFAULT] and
    [FTS_NS]. *)
Definition fatal_entry (t : node) : Prop :=
  match t with
  | NLnk _ | NSpecial | NNoStat => True
  | _ => False
  end.

(** The regular files the walk hands to the routing code, with their
    [fts_path], in the order of the walk. *)
Fixpoint routed_files (path name : cstring) (n : node) : list (cstring * file) :=
  match n with
  | NReg f => if dotted name then [] else [(path, f)]
  | NDir _ es =>
      if dotted name then []
      else (fix entries_files (es : list (cstring * node)) : list (cstring * file) :=
              match es with
              | [] => []
              | e :: es' =>
                  routed_files (fts_child_path path (fst e)) (fst e) (snd e)
                  ++ entries_files es'
              end) es
  | _ => []
  end.

Fixpoint entries_files (path : cstring) (es : list (cstring * node))
    : list (cstring * file) :=
  match es with
  | [] => []
  | e :: es' =>
      routed_files (fts_child_path path (fst e)) (fst e) (snd e)
      ++ entries_files path es'
  end.

(** A name a directory entry can have: not empty, no slash. *)
Definition entry_name (nm : cstring) : Prop := nm <> [] /\ slash ∉ nm.

(** Directories as a file system has them: the entries of a directory
    have entry names, no two the same. *)
Fixpoint wf_node (n : node) : Prop :=
  match n with
  | NDir _ es =>
      NoDup (map fst es) /\ Forall entry_name (map fst es) /\
      (fix wf_entries (es : list (cstring * node)) : Prop :=
         match es with
         | [] => True
         | e :: es' => wf_node (snd e) /\ wf_entries es'
         end) es
  | NLnk (Some t) => wf_node t
  | _ => True
  end.

Fixpoint wf_entries (es : list (cstring * node)) : Prop :=
  match es with
  | [] => True
  | e :: es' => wf_node (snd e) /\ wf_entries es'
  end.

(** The regular files the walk hands to the routing code, each with the
    entries that lead to it from the root, in the order of the walk. *)
Fixpoint routed_pos (name : cstring) (n : node) : list (list cstring * file) :=
  match n with
  | NReg f => if dotted name then [] else [([], f)]
  | NDir _ es =>
      if dotted name then []
      else (fix entries_pos (es : list (cstring * node)) : list (list cstring * file) :=
              match es with
              | [] => []
              | e :: es' =>
                  map (fun pf => (fst e :: fst pf, snd pf)) (routed_pos (fst e) (snd e))
                  ++ entries_pos es'
              end) es
  | _ => []
  end.

Fixpoint entries_pos (es : list (cstring * node)) : list (list cstring * file) :=
  match es with
  | [] => []
  | e :: es' =>
      map (fun pf => (fst e :: fst pf, snd pf)) (routed_pos (fst e) (snd e))
      ++ entries_pos es'
  end.

(** The blob the scan stores for a file that is read in full. *)
Definition blob_of (f : file) : Blob :=
  {| b_length := st_size f; b_data := take (st_size f) (f_bytes f) |}.

(** The bytes a connection delivers in its leading data events, and
    whether the peer then closes. *)
Fixpoint rx_stream (rx : list rx_event) : list ascii * bool :=
  match rx with
  | RxData c bs :: rest =>
      let '(more, closed) := rx_stream rest in (c :: bs ++ more, closed)
  | RxClose :: _ => ([], true)
  | _ => ([], false)
  end.

(** Each of the next [n] calls of [send] takes at least one byte. *)
Fixpoint tx_accepts (n : nat) (tx : list tx_event) : bool :=
  match n with
  | O => true
  | S n' =>
      match tx with
      | TxTake k :: tx' => bool_decide (0 < k)%nat && tx_accepts n' tx'
      | _ => false
      end
  end.

(** The path [child_handle_client] looks up for the received bytes
    [in_buf], when the request passes its checks. *)
Definition request_path (in_buf : list ascii) : option cstring :=
  if strncmp_eq (c_str in_buf) (lit "GET ") 4 then
    match strtok_r (c_str (drop 4 in_buf)) delimiters with
    | Some get_path =>
        if bool_decide (char0 get_path = slash) then Some get_path else None
    | None => None
    end
  else None.

(** The hierarchy without the dotted regular files and the dotted
    directories the walk meets. *)
Fixpoint prune (n : node) : node :=
  match n with
  | NDir r es =>
      NDir r
        ((fix prune_entries (es : list (cstring * node)) : list (cstring * node) :=
            match es with
            | [] => []
            | e :: es' =>
                match snd e with
                | NReg _ | NDir _ _ =>
                    if dotted (fst e) then prune_entries es'
                    else (fst e, prune (snd e)) :: prune_entries es'
                | _ => (fst e, prune (snd e)) :: prune_entries es'
                end
            end) es)
  | NLnk (Some t) => NLnk (Some (prune t))
  | _ => n
  end.

Fixpoint prune_entries (es : list (cstring * node)) : list (cstring * node) :=
  match es with
  | [] => []
  | e :: es' =>
      match snd e with
      | NReg _ | NDir _ _ =>
          if dotted (fst e) then prune_entries es'
          else (fst e, prune (snd e)) :: prune_entries es'
      | _ => (fst e, prune (snd e)) :: prune_entries es'
      end
  end.

(** What a successful insertion of the routing code does to the state:
    the route of [pf] is stored with its blob unless the route is already
    there, and the longest route length is kept. *)
Definition record_route (base_path_len : nat) (st : scan_state) (pf : cstring * file)
    : scan_state :=
  let r := route_of base_path_len (fst pf) in
  {| table :=
       match h_entries (table st) !! r with
       | Some _ => table st
       | None => {| h_entries := <[r := Some (blob_of (snd pf))]> (h_entries (table st));
                    h_cap := h_cap (table st) |}
       end;
     max_path_len_out := Z.max (max_path_len_out st) (Z.of_nat (strlen r)) |}.

(** A file the routing code reads without error: it opens, and a read
    delivers at least the size [lstat] reported. *)
Definition reads_in_full (f : file) : Prop :=
  f_openable f = true /\ (st_size f <= length (f_bytes f))%nat.

(** The insertions of the loop for files that are read in full, one
    after the other: the scan exits at the first one for which [hsearch]
    returns NULL. *)
Fixpoint enter_files (base_path_len : nat) (st : scan_state)
    (files : list (cstring * file)) : outcome scan_state :=
  match files with
  | [] => Ret st
  | pf :: files' =>
      match fst (hsearch (mkENTRY (route_of base_path_len (fst pf))
                            (Some (blob_of (snd pf)))) ENTER (table st)) with
      | None => diag_fatal EXIT_HSEARCH_TABLE_FULL "hsearch(): hash table is full"
      | Some _ => enter_files base_path_len (record_route base_path_len st pf) files'
      end
  end.

(** ** Example inputs *)

Definition text_file (s : string) : node :=
  NReg {| st_size := length (lit s); f_openable := true;
          f_bytes := lit s; f_error := false |}.

(** [index.html], [a b.txt], [.git/config], [dir/index.html], [dir/.x]. *)
Definition www : node :=
  NDir true
    [ (lit "index.html", text_file "<h1>hi</h1>");
      (lit "a b.txt", text_file "spaced");
      (lit ".git", NDir true [(lit "config", text_file "secret")]);
      (lit "dir", NDir true [(lit "index.html", text_file "dir index");
                             (lit ".x", text_file "x")]) ].

Definition client (rxs : list rx_event) : sock :=
  {| rx := rxs; tx := replicate 100 (TxTake 1000); wire := []; is_open := true |}.

(** ** Environment (env.c)

    [getenv] is the process environment, a partial map from names to
    values.  [strtonum] is the C library's (BSD); it is modelled after its
    implementation: [strtoll] in base 10 (white space, an optional sign,
    digits), "invalid" when the bounds are crossed, no digit is read or
    something follows the digits, "too small" and "too large" against the
    bounds.  The value is computed in [Z]: a value outside [long long] is
    outside the bounds too, with the same verdict. *)

Definition environ := cstring -> option cstring.

Definition getenv (env : environ) (name : cstring) : option cstring := env name.

Inductive strtonum_error := INVALID | TOOSMALL | TOOLARGE.

(** [isspace] in the C locale. *)
Definition isspace (c : ascii) : bool :=
  bool_decide (c ∈ [" "%char; "009"%char; "010"%char; "011"%char; "012"%char; "013"%char]).

(** The value of a decimal digit, [c - '0']. *)
Definition digit_value (c : ascii) : option Z :=
  let n := Z.of_nat (nat_of_ascii c) in
  if (48 <=? n) && (n <=? 57) then Some (n - 48) else None.

Fixpoint skip_space (s : cstring) : cstring :=
  match s with
  | c :: s' => if isspace c then skip_space s' else s
  | [] => []
  end.

(** The digits at the start of [s], accumulated onto [acc]: the value and
    the rest of the string. *)
Fixpoint read_digits (acc : Z) (s : cstring) : Z * cstring :=
  match s with
  | c :: s' =>
      match digit_value c with
      | Some d => read_digits (acc * 10 + d) s'
      | None => (acc, s)
      end
  | [] => (acc, [])
  end.

(** [strtoll(numstr, &ep, 10)]: [None] when no conversion is done
    ([ep == numstr]), else the value and what [ep] points to. *)
Definition strtoll (numstr : cstring) : option (Z * cstring) :=
  let s := skip_space numstr in
  let '(neg, s) :=
    match s with
    | "-"%char :: s' => (true, s')
    | "+"%char :: s' => (false, s')
    | _ => (false, s)
    end in
  match s with
  | c :: _ =>
      match digit_value c with
      | Some _ =>
          let '(v, ep) := read_digits 0 s in
          Some (if neg then - v else v, ep)
      | None => None
      end
  | [] => None
  end.

(** [strtonum(numstr, minval, maxval, &errstr)]: the result and the
    error, if any; the result is 0 on error. *)
Definition strtonum (numstr : cstring) (minval maxval : Z) : Z * option strtonum_error :=
  if maxval <? minval then (0, Some INVALID)
  else
    match strtoll numstr with
    | None => (0, Some INVALID)
    | Some (ll, ep) =>
        if negb (bool_decide (ep = [])) then (0, Some INVALID)
        else if ll <? minval then (0, Some TOOSMALL)
        else if maxval <? ll then (0, Some TOOLARGE)
        else (ll, None)
    end.

Definition get_env_integer (default_val : Z) (env_name : cstring) (min max : Z)
    (env : environ) : outcome Z :=
  match getenv env env_name with
  | None => Ret default_val
  | Some env_value =>
      let '(conv_result, to_num_error) := strtonum env_value min max in
      match to_num_error with
      | Some _ => Exit EXIT_INVALID_NUMERIC_ENV_VAR
      | None => Ret conv_result
      end
  end.

Definition get_env_str (env_name default_val : cstring) (env : environ) : cstring :=
  match getenv env env_name with
  | None => default_val
  | Some env_value => env_value
  end.

(** ** Start-up (security.c, socket.c, main.c)

    What the system answers during start-up: the user id, the
    environment, whether [socket], [bind] and [listen] succeed, whether
    [sandbox_init] succeeds, and the object each path names. *)

Record system := mkSystem {
  sys_uid : Z;
  sys_env : environ;
  sys_socket : bool;
  sys_bind : bool;
  sys_listen : bool;
  sys_sandbox : bool;
  sys_fs : cstring -> node
}.

Definition security_sanity_check (sys : system) : outcome unit :=
  if sys_uid sys =? 0 then Exit EXIT_DONT_USE_ROOT else Ret ().

Definition security_enter_sandbox (sys : system) : outcome unit :=
  if sys_sandbox sys then Ret ()
  else diag_fatal EXIT_SANDBOX_FAILED "Terminating because sandbox failed.".

Definition socket_server_setup (port listen_backlog : Z) (sys : system) : outcome unit :=
  if negb (sys_socket sys) then diag_fatal_perror EXIT_SOCKET_FAILED "socket()"
  else if negb (sys_bind sys) then diag_fatal_perror EXIT_BIND_FAILED "bind()"
  else if negb (sys_listen sys) then diag_fatal_perror EXIT_LISTEN_FAILED "listen()"
  else Ret ().

Definition OS_MAX_BACKLOG : Z := 128.

(** [main] up to its loop: the table of the scan and the data of the
    loop, or the exit. *)
Definition startup (hcap : option nat) (sys : system) : outcome (htab * accept_loop_data) :=
  _ ← security_sanity_check sys;
  listen_backlog ← get_env_integer 16 (lit "TH_CFG_LISTEN_BACKLOG") 1 OS_MAX_BACKLOG (sys_env sys);
  port ← get_env_integer 80 (lit "TH_CFG_LISTEN_PORT") 0 65535 (sys_env sys);
  rx_timeout ← get_env_integer 1 (lit "TH_CFG_RX_TIMEOUT") 1 65535 (sys_env sys);
  tx_timeout ← get_env_integer 1 (lit "TH_CFG_TX_TIMEOUT") 1 65535 (sys_env sys);
  let web_root := get_env_str (lit "TH_CFG_WEB_ROOT") (lit "public_html") (sys_env sys) in
  let notfound_route :=
    get_env_str (lit "TH_CFG_NOTFOUND_ROUTE") (lit "/404.html") (sys_env sys) in
  st ← scan_web_root hcap web_root (sys_fs sys web_root);
  _ ← socket_server_setup port listen_backlog sys;
  _ ← security_enter_sandbox sys;
  mret (table st,
        {| rx_timeout := rx_timeout; tx_timeout := tx_timeout;
           notfound_route := notfound_route;
           max_path_len := max_path_len_out st |}).

(** [main] from its first statement: the start-up, then the listener's
    loop over the rounds [evs]. *)
Definition main_process (hcap : option nat) (sys : system) (evs : list accept_event)
    : outcome unit * list (tHTTPError * sock) :=
  match startup hcap sys with
  | Exit e => (Exit e, [])
  | Killed => (Killed, [])
  | Ret (t, loop_data) => accept_loop t loop_data evs
  end.

(** An unprivileged user, an empty environment, [www] at the default web
    root, and every call of the start-up succeeding. *)
Definition host : system :=
  {| sys_uid := 501;
     sys_env := fun _ => None;
     sys_socket := true; sys_bind := true; sys_listen := true; sys_sandbox := true;
     sys_fs := fun path => if decide (path = lit "public_html") then www else NNoStat |}.

(** ** More vocabulary *)

(** A hierarchy on which the walk meets nothing fatal: below undotted
    names only regular files that are read in full and directories that
    can be read, and so on below these. *)
Fixpoint scannable (name : cstring) (n : node) : Prop :=
  match n with
  | NReg f => dotted name = true \/ reads_in_full f
  | NDir r es =>
      dotted name = true \/
      (r = true /\
       (fix scannable_entries (es : list (cstring * node)) : Prop :=
          match es with
          | [] => True
          | e :: es' => scannable (fst e) (snd e) /\ scannable_entries es'
          end) es)
  | _ => False
  end.

Fixpoint scannable_entries (es : list (cstring * node)) : Prop :=
  match es with
  | [] => True
  | e :: es' => scannable (fst e) (snd e) /\ scannable_entries es'
  end.

Global Instance tHTTPError_eq_dec : EqDecision tHTTPError.
Proof. solve_decision. Defined.

(** The exits a connection handler can take. *)
Definition connection_exits : list tHTTPError :=
  [EXIT_SOCKET_READ_FAILED; EXIT_SOCKET_WEIRD_RX_LENGTH; EXIT_NON_GET_REQUEST;
   EXIT_WEIRD_REQUEST_PATH; EXIT_NOTFOUND_NOT_FOUND; EXIT_SOCKET_SEND_FAILED;
   EXIT_SOCKET_WEIRD_TX_LENGTH].

(** The exits of the scan, of the rest of the start-up and of the
    listener's loop. *)
Definition scan_exits : list tHTTPError :=
  [EXIT_FTS_OPEN_FAILED; EXIT_FTS_READ_FAILED; EXIT_SYMLINK_IN_WEB_ROOT;
   EXIT_FTS_UNUSUAL_FILE; EXIT_CYCLE_IN_WEB_ROOT; EXIT_FOPEN_FAILED;
   EXIT_FREAD_FAILED; EXIT_HSEARCH_TABLE_FULL].

Definition listener_exits : list tHTTPError :=
  [EXIT_DONT_USE_ROOT; EXIT_INVALID_NUMERIC_ENV_VAR] ++ scan_exits ++
  [EXIT_SOCKET_FAILED; EXIT_BIND_FAILED; EXIT_LISTEN_FAILED; EXIT_SANDBOX_FAILED;
   EXIT_FORK_FAILED].

(** The rounds of the listener in which [fork] fails, and those in which
    a child is forked. *)
Definition fork_fails (ev : accept_event) : bool :=
  match ev with ForkFails _ => true | _ => false end.

Definition forks (ev : accept_event) : bool :=
  match ev with Forked _ => true | _ => false end.

(** The rounds whose child is killed by SIGPIPE. *)
Definition sigpipe_kills (t : htab) (loop_data : accept_loop_data) (ev : accept_event)
    : bool :=
  match ev with
  | Forked ns =>
      match child_handle_client t loop_data ns with
      | (Killed, _) => true
      | _ => false
      end
  | _ => false
  end.

(** The rounds before the first one in which [fork] fails. *)
Fixpoint rounds_before_fork_failure (evs : list accept_event) : list accept_event :=
  match evs with
  | [] => []
  | ev :: evs' => if fork_fails ev then [] else ev :: rounds_before_fork_failure evs'
  end.

(** The blobs of a table are allocated with the size they record. *)
Definition blobs_sized (t : htab) : Prop :=
  forall k d, h_entries t !! k = Some d ->
    (blob_get_size d <= length (blob_get_data d))%nat.

(** The response [child_handle_client] sends for an entry's data: the
    header with the status and the size, then the bytes of the blob. *)
Definition response (response_status : cstring) (d : option Blob) : cstring :=
  response_header response_status (blob_get_size d)
  ++ take (blob_get_size d) (blob_get_data d).

(** How sending [full] ended, with [out] gone out: all of it and a
    return, or a part of it and one of the exits of [socket_send] or the
    kill by SIGPIPE. *)
Definition send_result (full out : cstring) (o : outcome unit) : Prop :=
  o = Ret () /\ out = full \/
  (o = Exit EXIT_SOCKET_SEND_FAILED \/ o = Exit EXIT_SOCKET_WEIRD_TX_LENGTH \/
   o = Killed) /\
  out `prefix_of` full.

(** The end of [child_handle_client] for an entry it has found: the
    header is sent, then the blob, and the connection is closed. *)
Definition respond (response_status : cstring) (found_blob : option Blob) (ns : sock)
    : outcome unit * sock :=
  let message_buf := response_header response_status (blob_get_size found_blob) in
  match socket_send message_buf (strlen message_buf) ns with
  | (Exit e, ns) => (Exit e, ns)
  | (Killed, ns) => (Killed, ns)
  | (Ret _, ns) =>
      match socket_send (blob_get_data found_blob) (blob_get_size found_blob) ns with
      | (Exit e, ns) => (Exit e, ns)
      | (Killed, ns) => (Killed, ns)
      | (Ret _, ns) => (Ret (), close ns)
      end
  end.

(** * Properties *)

(** ** The process monad *)

Lemma bind_Ret {A B} (m : outcome A) (k : A -> outcome B) b :
  (m ≫= k) = Ret b -> exists a, m = Ret a /\ k a = Ret b.
Proof. destruct m as [a|e|]; simpl; [eauto | discriminate..]. Qed.

(** ** Induction on the hierarchy *)

Lemma node_induction (P : node -> Prop) :
  (forall f, P (NReg f)) ->
  (forall r es, Forall (fun e => P (snd e)) es -> P (NDir r es)) ->
  (forall t, P t -> P (NLnk (Some t))) ->
  P (NLnk None) -> P NSpecial -> P NNoStat ->
  forall n, P n.
Proof.
  intros Hreg Hdir Hsome Hnone Hspec Hns.
  fix IH 1. intros [f|r es|[t|]| |].
  - apply Hreg.
  - apply Hdir. induction es as [|e es IHes]; constructor; [apply IH | exact IHes].
  - apply Hsome, IH.
  - apply Hnone.
  - apply Hspec.
  - apply Hns.
Qed.

(** The nested loops are the list functions. *)
Lemma fts_walk_dir {St} (body : FTSENT -> St -> outcome (St * fts_instr_t)) options
    follow path name r es s :
  fts_walk body options follow path name (NDir r es) s =
  (r0 ← body (mkFTSENT FTS_D path name (stat_of (NDir r es)) (NDir r es)) s;
   match snd r0 with
   | FTS_SKIP => visit body FTS_DP path name (NDir r es) (fst r0)
   | FTS_NOINSTR =>
       if r then
         s' ← walk_entries body options path es (fst r0);
         visit body FTS_DP path name (NDir r es) s'
       else visit body FTS_DNR path name (NDir r es) (fst r0)
   end).
Proof.
  simpl. destruct (body _ s) as [[s1 i]|e|]; simpl; [|done..].
  destruct i; [|done]. destruct r; [|done].
  f_equal. clear. revert s1.
  induction es as [|e es IH]; intros s1; simpl; [done|].
  destruct (fts_walk _ _ _ _ _ _ s1); simpl; [apply IH | done..].
Qed.

Lemma routed_files_dir path name r es :
  routed_files path name (NDir r es) =
  if dotted name then [] else entries_files path es.
Proof.
  simpl. destruct (dotted name); [done|].
  induction es as [|e es IH]; simpl; [done | by rewrite IH].
Qed.

Lemma wf_node_dir r es :
  wf_node (NDir r es) <->
  NoDup (map fst es) /\ Forall entry_name (map fst es) /\ wf_entries es.
Proof.
  simpl.
  assert ((fix wf_entries (es : list (cstring * node)) : Prop :=
             match es with
             | [] => True
             | e :: es' => wf_node (snd e) /\ wf_entries es'
             end) es = wf_entries es) as ->; [|done].
  induction es as [|e es IH]; simpl; [done | by rewrite IH].
Qed.

Lemma prune_dir r es : prune (NDir r es) = NDir r (prune_entries es).
Proof.
  simpl. f_equal.
Qed.

(** ** The loop body, case by case *)

Lemma scan_options_logical : ISSET scan_options FTS_LOGICAL = false.
Proof. reflexivity. Qed.

Lemma scan_options_comfollow : ISSET scan_options FTS_COMFOLLOW = true.
Proof. reflexivity. Qed.

Lemma scan_body_D b path name sp n st :
  scan_body b (mkFTSENT FTS_D path name sp n) st =
  Ret (st, if dotted name then FTS_SKIP else FTS_NOINSTR).
Proof.
  unfold scan_body, dotted; simpl. by case_decide; [rewrite bool_decide_true|rewrite bool_decide_false].
Qed.

Lemma scan_body_DP b path name sp n st :
  scan_body b (mkFTSENT FTS_DP path name sp n) st = Ret (st, FTS_NOINSTR).
Proof. reflexivity. Qed.

Lemma fread_blob_new (f : file) :
  fread {| b_length := st_size f; b_data := replicate (st_size f) NUL |} f =
  (Nat.min (st_size f) (length (f_bytes f)),
   {| b_length := st_size f;
      b_data := take (st_size f) (f_bytes f)
                ++ replicate (st_size f - length (f_bytes f)) NUL |}).
Proof.
  unfold fread; simpl. rewrite length_take. f_equal. f_equal. f_equal.
  rewrite drop_replicate. f_equal. lia.
Qed.

Lemma record_route_max (cur len : Z) :
  (if cur <? len then len else cur) = Z.max cur len.
Proof. destruct (Z.ltb_spec cur len); lia. Qed.

(** A regular file with an undotted name: the file is opened and read,
    and its route entered. *)
Lemma scan_body_F b path name f st :
  dotted name = false ->
  scan_body b (mkFTSENT FTS_F path name (stat_of (NReg f)) (NReg f)) st =
  if f_openable f then
    if bool_decide (st_size f <= length (f_bytes f))%nat then
      if bool_decide (h_entries (table st) !! route_of b path = None) && h_full (table st)
      then Exit EXIT_HSEARCH_TABLE_FULL
      else Ret (record_route b st (path, f), FTS_NOINSTR)
    else Exit EXIT_FREAD_FAILED
  else Exit EXIT_FOPEN_FAILED.
Proof.
  intros Hdot. unfold scan_body, dotted in *.
  cbn [fts_info fts_name fts_statp fts_path fts_accpath stat_of S_ISREG stat_size negb
       fopen blob_new].
  apply bool_decide_eq_false in Hdot.
  destruct (decide (char0 name = "."%char)) as [|_]; [done|].
  destruct (f_openable f); [|done].
  rewrite fread_blob_new.
  case_bool_decide as Hsz.
  - replace (Nat.min (st_size f) (length (f_bytes f))) with (st_size f) by lia.
    rewrite Nat.eqb_refl.
    replace (st_size f - length (f_bytes f))%nat with 0%nat by lia.
    cbn [negb replicate]. rewrite app_nil_r.
    unfold hsearch, record_route, blob_of. cbn [key data fst snd].
    destruct (h_entries (table st) !! route_of b path) as [d|] eqn:Hl.
    + rewrite record_route_max. by rewrite bool_decide_false.
    + rewrite bool_decide_true by done.
      destruct (h_full (table st)); [done|]. by rewrite record_route_max.
  - replace (Nat.min (st_size f) (length (f_bytes f))) with (length (f_bytes f)) by lia.
    destruct (Nat.eqb_spec (length (f_bytes f)) (st_size f)); [lia|].
    cbn [negb]. by destruct (_ && _).
Qed.

Lemma scan_body_F_dotted b path name f st :
  dotted name = true ->
  scan_body b (mkFTSENT FTS_F path name (stat_of (NReg f)) (NReg f)) st =
  Ret (st, FTS_NOINSTR).
Proof.
  intros Hdot. unfold scan_body, dotted in *.
  cbn [fts_info fts_name fts_statp stat_of S_ISREG negb].
  apply bool_decide_eq_true in Hdot.
  by destruct (decide (char0 name = "."%char)).
Qed.

(** ** The walk of the scan *)

(** With [FTS_COMFOLLOW] the root is what its links lead to. *)
Lemma fts_walk_follow {St} (body : FTSENT -> St -> outcome (St * fts_instr_t)) options
    path name n s :
  fts_walk body options true path name n s =
  match follow_root n with
  | NLnk _ => visit body FTS_SLNONE path name (NLnk None) s
  | m => fts_walk body options false path name m s
  end.
Proof.
  induction n as [f|r es _|t IH| | |] using node_induction; done.
Qed.

Lemma scannable_dir name r es :
  scannable name (NDir r es) <->
  dotted name = true \/ (r = true /\ scannable_entries es).
Proof.
  simpl.
  assert ((fix scannable_entries (es : list (cstring * node)) : Prop :=
             match es with
             | [] => True
             | e :: es' => scannable (fst e) (snd e) /\ scannable_entries es'
             end) es = scannable_entries es) as ->; [|done].
  induction es as [|e es IH]; simpl; [done | by rewrite IH].
Qed.


Lemma enter_files_cons b st pf files :
  enter_files b st (pf :: files) =
  if bool_decide (h_entries (table st) !! route_of b (fst pf) = None) && h_full (table st)
  then Exit EXIT_HSEARCH_TABLE_FULL
  else enter_files b (record_route b st pf) files.
Proof.
  cbn [enter_files]. unfold hsearch. cbn [key].
  destruct (h_entries (table st) !! route_of b (fst pf)); [done|].
  rewrite bool_decide_eq_true_2 by done. by destruct (h_full (table st)).
Qed.

Lemma enter_files_app b l1 : forall st l2,
  enter_files b st (l1 ++ l2) = st1 ← enter_files b st l1; enter_files b st1 l2.
Proof.
  induction l1 as [|pf l1 IH]; intros st l2; [done|].
  cbn [app]. rewrite !enter_files_cons. destruct (_ && _); [done|]. apply IH.
Qed.

Section scan_walk.
Variable b : nat.

Lemma walk_Ret n : forall path name st st',
  fts_walk (scan_body b) scan_options false path name n st = Ret st' ->
  st' = foldl (record_route b) st (routed_files path name n) /\
  Forall (fun pf => reads_in_full (snd pf)) (routed_files path name n).
Proof.
  induction n as [f|r es IHes|t IH| | |] using node_induction;
    intros path name st st' Hw; try discriminate.
  - simpl in Hw. unfold visit in Hw. simpl.
    destruct (dotted name) eqn:Hdot.
    + rewrite scan_body_F_dotted in Hw by done. simpl in Hw.
      by injection Hw as <-.
    + rewrite scan_body_F in Hw by done. unfold reads_in_full.
      destruct (f_openable f) eqn:Hop; [|done].
      case_bool_decide; [|done].
      destruct (_ && _); [done|]. simpl in Hw. injection Hw as <-.
      split; [done|]. constructor; [simpl; auto | constructor].
  - rewrite fts_walk_dir, scan_body_D in Hw. rewrite routed_files_dir.
    simpl in Hw. destruct (dotted name); simpl in Hw.
    + unfold visit in Hw. rewrite scan_body_DP in Hw. simpl in Hw.
      by injection Hw as <-.
    + destruct r; [|done].
      apply bind_Ret in Hw as (s' & Hes & Hdp).
      unfold visit in Hdp. rewrite scan_body_DP in Hdp. simpl in Hdp.
      injection Hdp as <-. clear name.
      revert st s' Hes. induction IHes as [|e es IHe _ IH]; intros st s' Hes.
      * simpl in Hes. by injection Hes as <-.
      * simpl in Hes. apply bind_Ret in Hes as (s1 & H1 & H2).
        rewrite scan_options_logical in H1.
        apply IHe in H1 as [-> HF1]. apply IH in H2 as [-> HF2].
        simpl. rewrite foldl_app. split; [done|]. by apply Forall_app.
Qed.

(** On a scannable hierarchy the walk is the insertions of its files. *)
Lemma walk_enter_files n : forall path name st,
  scannable name n ->
  fts_walk (scan_body b) scan_options false path name n st
  = enter_files b st (routed_files path name n).
Proof.
  induction n as [f|r es IHes|t IH| | |] using node_induction;
    intros path name st Hsc; try done.
  - cbn [fts_walk routed_files]. unfold visit. destruct (dotted name) eqn:Hdot.
    + by rewrite scan_body_F_dotted.
    + destruct Hsc as [Hd|[Hop Hsz]]; [cbn in Hd; congruence|].
      rewrite scan_body_F by done. rewrite Hop, (bool_decide_eq_true_2 _ Hsz).
      rewrite enter_files_cons. cbn [fst]. by destruct (_ && _).
  - apply scannable_dir in Hsc.
    rewrite fts_walk_dir, scan_body_D, routed_files_dir.
    cbn [mbind outcome_bind fst snd]. destruct (dotted name) eqn:Hdot.
    + unfold visit. by rewrite scan_body_DP.
    + destruct Hsc as [|[-> Hes]]; [congruence|].
      assert (walk_entries (scan_body b) scan_options path es st
              = enter_files b st (entries_files path es)) as ->.
      { clear Hdot name. revert st.
        induction IHes as [|e es IHe _ IH]; intros st; [done|].
        destruct Hes as [He Hes].
        cbn [walk_entries entries_files]. rewrite scan_options_logical.
        rewrite enter_files_app, (IHe _ _ _ He).
        destruct (enter_files b st _); cbn [mbind outcome_bind]; [by apply IH | done..]. }
      destruct (enter_files b st _); cbn [mbind outcome_bind]; [|done..].
      unfold visit. by rewrite scan_body_DP.
Qed.
End scan_walk.

(** The scan of a scannable hierarchy is the insertions of its files
    into the empty table. *)
Lemma scan_enter_files hcap path root :
  path <> [] ->
  scannable (fts_root_name path) (follow_root root) ->
  scan_web_root hcap path root
  = enter_files (strlen path)
      {| table := {| h_entries := ∅; h_cap := hcap |}; max_path_len_out := 0 |}
      (routed_files path (fts_root_name path) (follow_root root)).
Proof.
  intros Hp Hsc. unfold scan_web_root, fts_open, hcreate, fts_read_all.
  rewrite decide_False by done.
  change (Z.lor (Z.lor FTS_PHYSICAL FTS_COMFOLLOW) FTS_XDEV) with scan_options.
  rewrite scan_options_comfollow, fts_walk_follow.
  destruct (follow_root root) as [f|r es|t| |] eqn:Hr; try done;
    by apply walk_enter_files.
Qed.


(** A scan that returns has entered, in the order of the walk, the routes
    of the files below the root that have no dotted name above them, and
    has read each of them in full. *)
Lemma scan_web_root_Ret hcap path root st :
  scan_web_root hcap path root = Ret st ->
  let files := routed_files path (fts_root_name path) (follow_root root) in
  path <> [] /\
  st = foldl (record_route (strlen path))
         {| table := {| h_entries := ∅; h_cap := hcap |}; max_path_len_out := 0 |} files /\
  Forall (fun pf => reads_in_full (snd pf)) files.
Proof.
  unfold scan_web_root, fts_open, hcreate, fts_read_all. intros H.
  case_decide as Hp; [done|]. split; [done|].
  change (Z.lor (Z.lor FTS_PHYSICAL FTS_COMFOLLOW) FTS_XDEV) with scan_options in H.
  rewrite scan_options_comfollow, fts_walk_follow in H.
  destruct (follow_root root) eqn:Hr; try (by apply walk_Ret in H); done.
Qed.

(** ** The scan is not killed

    No call of the scan raises a signal: the walk ends by a return or by
    an exit of the body. *)

Lemma visit_Killed {St} (body : FTSENT -> St -> outcome (St * fts_instr_t))
    info path name n s :
  visit body info path name n s = Killed -> exists p s0, body p s0 = Killed.
Proof.
  unfold visit. destruct (body _ s) as [r|e0|] eqn:Hb; [done..|]. eauto.
Qed.

Lemma fts_walk_Killed {St} (body : FTSENT -> St -> outcome (St * fts_instr_t)) options :
  forall n follow path name s,
    fts_walk body options follow path name n s = Killed ->
    exists p s0, body p s0 = Killed.
Proof.
  induction n as [f|r es IHes|t IH| | |] using node_induction;
    intros follow path name s Hw.
  - by eapply visit_Killed.
  - rewrite fts_walk_dir in Hw.
    destruct (body _ s) as [r0|e0|] eqn:Hb; [|done|eauto].
    cbn [mbind outcome_bind] in Hw.
    destruct (snd r0); [|by eapply visit_Killed].
    destruct r; [|by eapply visit_Killed].
    destruct (walk_entries body options path es (fst r0)) as [s1|e1|] eqn:Hes.
    + by eapply visit_Killed.
    + done.
    + clear Hw Hb. generalize dependent (fst r0).
      induction IHes as [|e' es IHe _ IH]; intros s0 Hes; [done|].
      simpl in Hes.
      destruct (fts_walk body options _ _ _ _ s0) as [s2|e2|] eqn:H1.
      * by eapply IH.
      * done.
      * by eapply IHe.
  - simpl in Hw. destruct follow; [by eapply IH | by eapply visit_Killed].
  - simpl in Hw. destruct follow; by eapply visit_Killed.
  - by eapply visit_Killed.
  - by eapply visit_Killed.
Qed.

Lemma scan_body_not_Killed b p st : scan_body b p st <> Killed.
Proof.
  destruct p as [info path name sp n]. unfold scan_body. cbn [fts_info].
  destruct info; try done.
  - by case_decide.
  - cbn [fts_statp fts_name fts_path fts_accpath].
    destruct (negb (S_ISREG sp)); [done|].
    case_decide; [done|].
    destruct (fopen n) as [f|]; [|done].
    cbn [blob_new]. destruct (fread _ f) as [num_read blob].
    destruct (negb _); [by destruct (_ && _)|].
    by destruct (hsearch _ ENTER (table st)) as [[en|] t'].
Qed.

Lemma walk_not_Killed b n follow path name st :
  fts_walk (scan_body b) scan_options follow path name n st <> Killed.
Proof.
  intros (p & s0 & H)%fts_walk_Killed. by apply scan_body_not_Killed in H.
Qed.

Lemma scan_web_root_not_Killed hcap path root : scan_web_root hcap path root <> Killed.
Proof.
  unfold scan_web_root, fts_open, hcreate, fts_read_all.
  case_decide; [done|]. apply walk_not_Killed.
Qed.

(** ** Entries that end the scan *)

Lemma walk_fatal_entry b path name t st :
  fatal_entry t ->
  exists e, fts_walk (scan_body b) scan_options false path name t st = Exit e.
Proof. destruct t as [f|r es|[t|]| |]; intros []; simpl; eauto. Qed.

Lemma walk_entries_Exit b path es nm k :
  (nm, k) ∈ es ->
  (forall p st, exists e,
      fts_walk (scan_body b) scan_options false p nm k st = Exit e) ->
  forall st, exists e, walk_entries (scan_body b) scan_options path es st = Exit e.
Proof.
  intros Hin Hk. induction es as [|e' es IH]; intros st.
  - by apply elem_of_nil in Hin.
  - simpl. rewrite scan_options_logical.
    apply elem_of_cons in Hin as [<-|Hin].
    + simpl. destruct (Hk (fts_child_path path nm) st) as [e ->]. simpl. eauto.
    + destruct (fts_walk _ _ _ _ _ _ st) as [s1|e|] eqn:Hw; simpl;
        [by apply IH | eauto | by apply walk_not_Killed in Hw].
Qed.

Lemma walk_reaches_Exit b name n tname t :
  reaches name n tname t -> fatal_entry t ->
  forall path st, exists e,
    fts_walk (scan_body b) scan_options false path name n st = Exit e.
Proof.
  induction 1 as [name n|name r es nm k tname t Hdot Hin _ IH]; intros Hf path st.
  - by apply walk_fatal_entry.
  - rewrite fts_walk_dir, scan_body_D, Hdot. simpl.
    destruct r; [|unfold visit; simpl; eauto].
    destruct (walk_entries_Exit b path es nm k Hin (IH Hf) st) as [e ->].
    simpl. eauto.
Qed.

Lemma scan_reaches_Exit hcap path root tname t :
  reaches (fts_root_name path) (follow_root root) tname t -> fatal_entry t ->
  exists e, scan_web_root hcap path root = Exit e.
Proof.
  intros Hr Hf. unfold scan_web_root, fts_open, hcreate, fts_read_all.
  case_decide; [simpl; eauto|].
  change (Z.lor (Z.lor FTS_PHYSICAL FTS_COMFOLLOW) FTS_XDEV) with scan_options.
  rewrite scan_options_comfollow, fts_walk_follow.
  destruct (follow_root root) as [f|r es|tg| |] eqn:Hfr;
    try (by eapply walk_reaches_Exit).
  unfold visit; simpl; eauto.
Qed.

Lemma main_scan_Exit hcap path notfound rxt txt root evs e :
  scan_web_root hcap path root = Exit e ->
  main hcap path notfound rxt txt root evs = (Exit e, []).
Proof. unfold main. by intros ->. Qed.

(** ** Symbolic links *)

(** C3, as stated, fails: the root path [www] is a symbolic link to a
    directory.  [fts_open] is given [FTS_COMFOLLOW], the link is followed,
    the scan returns with the directory's files routed, and the listener
    goes on to fork a handler for the first connection. *)
Lemma C3_root_link_followed :
  exists st,
    scan_web_root None (lit "www") (NLnk (Some www)) = Ret st /\
    h_entries (table st) !! lit "/" =
      Some (Some {| b_length := 11; b_data := lit "<h1>hi</h1>" |}) /\
    exists child,
      main None (lit "www") (lit "/404.html") 1 1 (NLnk (Some www))
        [Forked (client [RxData "G" (lit "ET / "); RxClose])]
      = (Ret (), [(EXIT_OK, child)]).
Proof.
  eexists. split; [vm_compute; reflexivity|].
  split; [vm_compute; reflexivity|].
  eexists. vm_compute. reflexivity.
Qed.

(** C3, amended: a symbolic link below the root with no dotted directory
    above it, or a root path that is a link whose target is missing, ends
    the scan with a fatal exit, and [main] then accepts no connection.
    (A root link to an existing object is followed, and links inside
    dotted directories are never seen.) *)
Theorem C3_link_aborts_scan hcap path root tname target :
  reaches (fts_root_name path) (follow_root root) tname (NLnk target) ->
  exists e,
    scan_web_root hcap path root = Exit e /\
    forall notfound rxt txt evs,
      main hcap path notfound rxt txt root evs = (Exit e, []).
Proof.
  intros Hr. destruct (scan_reaches_Exit hcap path root tname (NLnk target) Hr I) as [e He].
  exists e. split; [done|]. intros. by apply main_scan_Exit.
Qed.

Lemma C3_link_aborts_scan_witness :
  reaches (fts_root_name (lit "www"))
    (follow_root (NDir true [(lit "docs", NDir true [(lit "ln", NLnk (Some www))])]))
    (lit "ln") (NLnk (Some www)) /\
  exists e,
    scan_web_root None (lit "www")
      (NDir true [(lit "docs", NDir true [(lit "ln", NLnk (Some www))])]) = Exit e /\
    forall notfound rxt txt evs,
      main None (lit "www") notfound rxt txt
        (NDir true [(lit "docs", NDir true [(lit "ln", NLnk (Some www))])]) evs
      = (Exit e, []).
Proof.
  assert (Hr : reaches (fts_root_name (lit "www"))
    (follow_root (NDir true [(lit "docs", NDir true [(lit "ln", NLnk (Some www))])]))
    (lit "ln") (NLnk (Some www))).
  { eapply reaches_below; [reflexivity | apply list_elem_of_here |].
    eapply reaches_below; [reflexivity | apply list_elem_of_here |].
    apply reaches_here. }
  split; [exact Hr|].
  exact (C3_link_aborts_scan None (lit "www") _ (lit "ln") (Some www) Hr).
Defined.

(** ** Dotted entries that are neither files nor directories *)

(** C10: a special file (FIFO, socket, device) or an object that cannot
    be classified, with a dotted name and no dotted directory above it,
    ends the scan with a fatal exit: the body decides on the entry's type
    before it looks at the name, so such an entry exits whatever its name
    is, also when it is reported as a file that is not regular. *)
Theorem C10_dotted_special_aborts hcap path root tname t :
  dotted tname = true ->
  t = NSpecial \/ t = NNoStat ->
  reaches (fts_root_name path) (follow_root root) tname t ->
  (exists e,
     scan_web_root hcap path root = Exit e /\
     forall notfound rxt txt evs,
       main hcap path notfound rxt txt root evs = (Exit e, [])) /\
  (forall b p st, fts_name p = tname ->
     (fts_info p = FTS_DEFAULT -> scan_body b p st = Exit EXIT_FTS_UNUSUAL_FILE) /\
     (fts_info p = FTS_NS -> scan_body b p st = Exit EXIT_FTS_READ_FAILED) /\
     (fts_info p = FTS_F -> S_ISREG (fts_statp p) = false ->
      scan_body b p st = Exit EXIT_FTS_UNUSUAL_FILE)).
Proof.
  intros _ Ht Hr. split.
  - assert (Hf : fatal_entry t) by (by destruct Ht as [-> | ->]).
    destruct (scan_reaches_Exit hcap path root tname t Hr Hf) as [e He].
    exists e. split; [done|]. intros. by apply main_scan_Exit.
  - intros b p st _. unfold scan_body. repeat split.
    + by intros ->.
    + by intros ->.
    + by intros -> ->.
Qed.

Lemma C10_dotted_special_aborts_witness :
  dotted (lit ".fifo") = true /\
  reaches (fts_root_name (lit "www"))
    (follow_root (NDir true [(lit "a.txt", text_file "a"); (lit ".fifo", NSpecial)]))
    (lit ".fifo") NSpecial /\
  exists e,
    scan_web_root None (lit "www")
      (NDir true [(lit "a.txt", text_file "a"); (lit ".fifo", NSpecial)]) = Exit e.
Proof.
  assert (Hr : reaches (fts_root_name (lit "www"))
    (follow_root (NDir true [(lit "a.txt", text_file "a"); (lit ".fifo", NSpecial)]))
    (lit ".fifo") NSpecial).
  { eapply reaches_below; [reflexivity | |apply reaches_here].
    apply list_elem_of_further, list_elem_of_here. }
  split; [reflexivity|]. split; [exact Hr|].
  destruct (C10_dotted_special_aborts None (lit "www") _ (lit ".fifo") NSpecial
              eq_refl (or_introl eq_refl) Hr) as [[e [He _]] _].
  exists e. exact He.
Defined.

(** ** The bounded read *)

Lemma socket_read_loop_eq max_size received in_buf s :
  socket_read_loop max_size received in_buf s =
  match read (max_size - received) s with
  | (None, s1) => (Exit EXIT_SOCKET_READ_FAILED, close s1)
  | (Some bytes, s1) =>
      if decide (length bytes = 0%nat) then (Ret (received, in_buf), s1)
      else if decide (received + Z.of_nat (length bytes) < max_size)
           then socket_read_loop max_size (received + Z.of_nat (length bytes))
                  (in_buf ++ bytes) s1
           else (Ret (received + Z.of_nat (length bytes), in_buf ++ bytes), s1)
  end.
Proof.
  simp socket_read_loop.
  destruct (read (max_size - received) s) as [[bytes|] s1]; simpl; [|done].
  destruct (decide (length bytes = 0%nat)); simpl; [done|].
  by destruct (decide (received + Z.of_nat (length bytes) < max_size)).
Qed.

Lemma rx_stream_data c bs rest :
  rx_stream (RxData c bs :: rest) =
  ((c :: bs) ++ fst (rx_stream rest), snd (rx_stream rest)).
Proof. simpl. by destruct (rx_stream rest). Qed.

(** What one [read] does to the stream of the connection. *)
Lemma read_Some count s bytes s1 :
  read count s = (Some bytes, s1) ->
  (length bytes <= Z.to_nat count)%nat /\
  fst (rx_stream (rx s)) = bytes ++ fst (rx_stream (rx s1)) /\
  snd (rx_stream (rx s)) = snd (rx_stream (rx s1)) /\
  (bytes = [] -> 0 < count -> head (rx s1) = Some RxClose) /\
  tx s1 = tx s /\ wire s1 = wire s /\ is_open s1 = is_open s.
Proof.
  unfold read. destruct (rx s) as [|[c bs| |] rest] eqn:Hrx; try done.
  - intros [= <- <-]. cbn [rx tx wire is_open].
    split; [rewrite length_take; lia|].
    rewrite rx_stream_data.
    assert (c :: bs = take (Z.to_nat count) (c :: bs) ++ drop (Z.to_nat count) (c :: bs))
      as Hsplit by (by rewrite take_drop).
    destruct (drop (Z.to_nat count) (c :: bs)) as [|c' bs'] eqn:Hd.
    + rewrite app_nil_r in Hsplit. rewrite <- Hsplit.
      repeat split; done.
    + rewrite rx_stream_data. cbn [fst snd].
      rewrite (app_assoc _ (c' :: bs')), <- Hsplit.
      repeat split; try done.
      intros Hnil Hc. destruct (Z.to_nat count) eqn:Hn; [lia | discriminate Hnil].
  - intros [= <- <-]. rewrite Hrx. simpl. repeat split; auto with lia.
Qed.

Lemma read_None count s s1 :
  read count s = (None, s1) -> snd (rx_stream (rx s)) = false.
Proof.
  unfold read. destruct (rx s) as [|[c bs| |] rest] eqn:Hrx; try done.
Qed.

(** The loop stores the bytes of the stream in order, never more than
    [max_size], and ends when the buffer is full or the peer has closed;
    it exits only when a [read] fails. *)
Lemma socket_read_loop_spec max_size n : forall received in_buf s,
  Z.to_nat (max_size - received) = n ->
  received = Z.of_nat (length in_buf) -> received <= max_size ->
  match socket_read_loop max_size received in_buf s with
  | (Ret (received', in_buf'), s1) =>
      received' = Z.of_nat (length in_buf') /\ received <= received' <= max_size /\
      (received' = max_size \/ head (rx s1) = Some RxClose) /\
      in_buf ++ fst (rx_stream (rx s)) = in_buf' ++ fst (rx_stream (rx s1)) /\
      tx s1 = tx s /\ wire s1 = wire s /\ is_open s1 = is_open s
  | (Exit e, s1) =>
      e = EXIT_SOCKET_READ_FAILED /\ snd (rx_stream (rx s)) = false /\
      tx s1 = tx s /\ wire s1 = wire s
  | (Killed, _) => False
  end.
Proof.
  induction n as [n IH] using lt_wf_ind. intros received in_buf s Hn Hlen Hmax.
  rewrite socket_read_loop_eq.
  destruct (read (max_size - received) s) as [[bytes|] s1] eqn:Hread.
  - apply read_Some in Hread as (Hcount & Hfst & Hsnd & Hclose & Htx & Hwire & Hopen).
    destruct (decide (length bytes = 0%nat)) as [H0|H0].
    + apply length_zero_iff_nil in H0. subst bytes. simpl in Hfst.
      repeat split; try done; try lia; [|by rewrite Hfst].
      destruct (decide (received = max_size)); [by left|right].
      apply Hclose; [done|lia].
    + destruct (decide (received + Z.of_nat (length bytes) < max_size)) as [Hlt|Hge].
      * specialize (IH (Z.to_nat (max_size - (received + Z.of_nat (length bytes))))
                      ltac:(lia) (received + Z.of_nat (length bytes))
                      (in_buf ++ bytes) s1 eq_refl).
        rewrite length_app, Nat2Z.inj_add in IH.
        specialize (IH ltac:(lia) ltac:(lia)).
        destruct (socket_read_loop _ _ _ s1) as [[[r' b']|e|] s2]; [| |done].
        -- destruct IH as (? & ? & ? & Hb & ? & ? & ?).
           repeat split; try done; try lia; try congruence.
           rewrite Hfst, app_assoc. done.
        -- destruct IH as (? & ? & ? & ?). repeat split; try done; congruence.
      * rewrite length_app, Nat2Z.inj_add.
        repeat split; try done; try lia.
        by rewrite Hfst, app_assoc.
  - pose proof (read_None _ _ _ Hread).
    unfold read in Hread.
    destruct (rx s) as [|[c bs| |] rest]; try done; by injection Hread as <-.
Qed.

(** C8: [socket_read] loops over [read] until [max_size] bytes are
    stored or the peer closes; the bytes stored are the first bytes of the
    stream and never more than [max_size]; a total below [min_size] (the
    total cannot exceed [max_size]) exits with the weird-length code,
    which differs from the code of a failed [read], the only other exit.
    The handler reads with the bounds 5 and [max_path_len + 5], and
    either exit of [socket_read] is the exit of the handler. *)
Theorem C8_socket_read_bounds t ld min_size max_size s :
  0 <= max_size ->
  exit_code EXIT_SOCKET_WEIRD_RX_LENGTH <> exit_code EXIT_SOCKET_READ_FAILED /\
  match socket_read_loop max_size 0 [] s with
  | (Ret (received, in_buf), s1) =>
      received = Z.of_nat (length in_buf) /\ 0 <= received <= max_size /\
      (received = max_size \/ head (rx s1) = Some RxClose) /\
      fst (rx_stream (rx s)) = in_buf ++ fst (rx_stream (rx s1)) /\
      socket_read min_size max_size s =
        if decide (received < min_size \/ received > max_size)
        then (Exit EXIT_SOCKET_WEIRD_RX_LENGTH, close s1)
        else (Ret in_buf, s1)
  | (Exit e, s1) =>
      e = EXIT_SOCKET_READ_FAILED /\ snd (rx_stream (rx s)) = false /\
      socket_read min_size max_size s = (Exit EXIT_SOCKET_READ_FAILED, s1)
  | (Killed, _) => False
  end /\
  (forall e s', socket_read 5 (max_path_len ld + 5) s = (Exit e, s') ->
     child_handle_client t ld s = (Exit e, s')).
Proof.
  intros Hmax. split; [done|]. split.
  - pose proof (socket_read_loop_spec max_size _ 0 [] s eq_refl eq_refl Hmax) as H.
    unfold socket_read.
    destruct (socket_read_loop max_size 0 [] s) as [[[received in_buf]|e|] s1]; [| |done].
    + destruct H as (? & ? & ? & ? & _). repeat split; try done; lia.
    + destruct H as (-> & ? & _). done.
  - intros e s' Hread. unfold child_handle_client. by rewrite Hread.
Qed.

Lemma C8_socket_read_bounds_witness :
  0 <= 8 /\
  socket_read 5 8 (client [RxData "G" (lit "ET /a"); RxData " " (lit "HTTP/1.1")])
  = (Ret (lit "GET /a H"),
     {| rx := [RxData "T" (lit "TP/1.1")]; tx := replicate 100 (TxTake 1000);
        wire := []; is_open := true |}) /\
  child_handle_client {| h_entries := ∅; h_cap := None |}
    (mkLoopData 1 1 (lit "/404.html") 8) (client [RxData "G" (lit "ET"); RxClose])
  = (Exit EXIT_SOCKET_WEIRD_RX_LENGTH,
     {| rx := [RxClose]; tx := replicate 100 (TxTake 1000); wire := [];
        is_open := false |}).
Proof.
  split; [lia|]. split.
  - destruct (C8_socket_read_bounds {| h_entries := ∅; h_cap := None |}
                (mkLoopData 1 1 (lit "/404.html") 8) 5 8
                (client [RxData "G" (lit "ET /a"); RxData " " (lit "HTTP/1.1")])
                ltac:(lia)) as (_ & Hloop & _).
    reflexivity.
  - apply (C8_socket_read_bounds {| h_entries := ∅; h_cap := None |}
             (mkLoopData 1 1 (lit "/404.html") 8) 5 8
             (client [RxData "G" (lit "ET"); RxClose]) ltac:(lia)).
    reflexivity.
Defined.

(** When the peer closes after its bytes, or sends at least [max_size]
    of them, the loop returns the first [max_size] bytes of the stream. *)
Lemma socket_read_loop_stream max_size n : forall received in_buf s,
  Z.to_nat (max_size - received) = n -> received < max_size ->
  snd (rx_stream (rx s)) = true \/
    max_size - received <= Z.of_nat (length (fst (rx_stream (rx s)))) ->
  exists s1,
    socket_read_loop max_size received in_buf s =
      (Ret (received + Z.of_nat (length (take (Z.to_nat (max_size - received))
                                           (fst (rx_stream (rx s))))),
            in_buf ++ take (Z.to_nat (max_size - received)) (fst (rx_stream (rx s)))),
       s1) /\
    tx s1 = tx s /\ wire s1 = wire s /\ is_open s1 = is_open s.
Proof.
  induction n as [n IH] using lt_wf_ind. intros received in_buf s Hn Hlt Hav.
  rewrite socket_read_loop_eq.
  destruct (read (max_size - received) s) as [[bytes|] s1] eqn:Hread.
  - apply read_Some in Hread as (Hcount & Hfst & Hsnd & Hclose & Htx & Hwire & Hopen).
    destruct (decide (length bytes = 0%nat)) as [H0|H0].
    + apply length_zero_iff_nil in H0. subst bytes. simpl in Hfst.
      specialize (Hclose eq_refl ltac:(lia)).
      destruct (rx s1) as [|[| |] ?]; try done.
      simpl in Hfst. rewrite Hfst, take_nil, app_nil_r. simpl.
      exists s1. by rewrite Z.add_0_r.
    + destruct (decide (received + Z.of_nat (length bytes) < max_size)) as [Hlt'|Hge].
      * destruct (IH (Z.to_nat (max_size - (received + Z.of_nat (length bytes))))
                    ltac:(lia) (received + Z.of_nat (length bytes))
                    (in_buf ++ bytes) s1 eq_refl Hlt') as (s2 & -> & ? & ? & ?).
        { rewrite <- Hsnd. destruct Hav as [|Hav]; [by left|right].
          rewrite Hfst, length_app in Hav. lia. }
        exists s2. rewrite Hfst. split; [|repeat split; congruence].
        rewrite (take_app_ge bytes) by lia.
        replace (Z.to_nat (max_size - received) - length bytes)%nat
          with (Z.to_nat (max_size - (received + Z.of_nat (length bytes)))) by lia.
        rewrite <- !app_assoc, !length_app, !Nat2Z.inj_add.
        do 3 f_equal. lia.
      * exists s1. rewrite Hfst. split; [|done].
        replace (Z.to_nat (max_size - received)) with (length bytes) by lia.
        by rewrite take_app_length.
  - unfold read in Hread.
    destruct (rx s) as [|[c bs| |] rest]; try done; simpl in Hav;
      destruct Hav as [|Hav]; try done; lia.
Qed.

Lemma socket_read_stream min_size max_size s :
  0 < max_size ->
  snd (rx_stream (rx s)) = true \/
    max_size <= Z.of_nat (length (fst (rx_stream (rx s)))) ->
  min_size <= Z.of_nat (length (take (Z.to_nat max_size) (fst (rx_stream (rx s))))) ->
  exists s1,
    socket_read min_size max_size s =
      (Ret (take (Z.to_nat max_size) (fst (rx_stream (rx s)))), s1) /\
    tx s1 = tx s /\ wire s1 = wire s /\ is_open s1 = is_open s.
Proof.
  intros Hmax Hav Hmin.
  destruct (socket_read_loop_stream max_size _ 0 [] s eq_refl Hmax) as (s1 & Hl & Hs).
  { by rewrite Z.sub_0_r. }
  rewrite Z.sub_0_r in Hl. unfold socket_read. rewrite Hl. simpl.
  exists s1. split; [|done].
  rewrite decide_False; [done|].
  rewrite length_take in *. lia.
Qed.

(** ** The bounded write *)

Lemma socket_send_loop_eq message message_size sent s :
  socket_send_loop message message_size sent s =
  match send (take (message_size - sent) (drop sent message)) s with
  | (SendSigpipe, s1) => (Killed, s1)
  | (SendFails, s1) => (Exit EXIT_SOCKET_SEND_FAILED, s1)
  | (Sent bytes, s1) =>
      if decide (bytes = 0%nat) then (Ret sent, s1)
      else if decide (sent + bytes < message_size)%nat
           then socket_send_loop message message_size (sent + bytes) s1
           else (Ret (sent + bytes)%nat, s1)
  end.
Proof.
  simp socket_send_loop.
  destruct (send _ s) as [[bytes| |] s1]; simpl; [|done..].
  destruct (decide (bytes = 0%nat)); simpl; [done|].
  by destruct (decide (sent + bytes < message_size)%nat).
Qed.

Lemma tx_accepts_le n m tx : (m <= n)%nat -> tx_accepts n tx = true -> tx_accepts m tx = true.
Proof.
  revert m tx. induction n as [|n IH]; intros [|m] tx Hle H; try done; [lia|].
  simpl in *. destruct tx as [|[k| |] tx']; try done.
  apply andb_true_iff in H as [-> H]. simpl. apply (IH m); [lia|done].
Qed.

(** While the transport takes bytes, the loop sends the whole message. *)
Lemma socket_send_loop_spec message message_size n : forall sent s k,
  (message_size - sent)%nat = n ->
  (message_size <= length message)%nat -> (sent <= message_size)%nat ->
  tx_accepts k (tx s) = true -> (Nat.max 1 (message_size - sent) <= k)%nat ->
  exists s1,
    socket_send_loop message message_size sent s = (Ret message_size, s1) /\
    wire s1 = wire s ++ take (message_size - sent) (drop sent message) /\
    tx_accepts (k - Nat.max 1 (message_size - sent)) (tx s1) = true /\
    rx s1 = rx s /\ is_open s1 = is_open s.
Proof.
  induction n as [n IH] using lt_wf_ind. intros sent s k Hn Hlen Hsent Htx Hk.
  rewrite socket_send_loop_eq. unfold send.
  destruct k as [|k]; [lia|]. simpl in Htx.
  destruct (tx s) as [|[m| |] tx'] eqn:Hs; try done.
  apply andb_true_iff in Htx as [Hm Htx]. apply bool_decide_eq_true in Hm.
  set (chunk := take (message_size - sent) (drop sent message)).
  assert (length chunk = (message_size - sent)%nat) as Hchunk.
  { unfold chunk. rewrite length_take, length_drop. lia. }
  rewrite length_take, Hchunk.
  destruct (decide (m `min` (message_size - sent) = 0)%nat) as [H0|H0].
  - assert (message_size = sent) as -> by lia.
    eexists. split; [done|]. cbn [wire tx rx is_open].
    assert (chunk = []) as -> by (apply length_zero_iff_nil; lia).
    rewrite take_nil.
    repeat split; try done. eapply tx_accepts_le; [|done]. lia.
  - destruct (decide (sent + m `min` (message_size - sent) < message_size)%nat) as [Hlt|Hge].
    + edestruct (IH (message_size - (sent + m `min` (message_size - sent)))%nat
                   ltac:(lia) (sent + m `min` (message_size - sent))%nat
                   {| rx := rx s; tx := tx'; wire := wire s ++ take m chunk;
                      is_open := is_open s |} k eq_refl Hlen ltac:(lia) Htx)
        as (s1 & -> & Hw & Ha & ? & ?); [lia|].
      exists s1. split; [done|]. cbn [wire tx rx is_open] in *.
      repeat split; try done.
      * rewrite Hw, <- app_assoc. f_equal.
        replace (m `min` (message_size - sent))%nat with m by lia.
        symmetry. etrans; [symmetry; apply (take_drop m chunk)|]. f_equal.
        unfold chunk. rewrite skipn_firstn_comm, drop_drop.
        f_equal. lia.
      * eapply tx_accepts_le; [|done]. lia.
    + eexists. split; [f_equal; f_equal; lia|]. cbn [wire tx rx is_open].
      repeat split; try done.
      * f_equal. rewrite take_ge; [done|]. lia.
      * eapply tx_accepts_le; [|done]. lia.
Qed.

Lemma socket_send_spec message message_size s k :
  (message_size <= length message)%nat ->
  tx_accepts k (tx s) = true -> (Nat.max 1 message_size <= k)%nat ->
  exists s1,
    socket_send message message_size s = (Ret (), s1) /\
    wire s1 = wire s ++ take message_size message /\
    tx_accepts (k - Nat.max 1 message_size) (tx s1) = true /\
    rx s1 = rx s /\ is_open s1 = is_open s.
Proof.
  intros Hlen Htx Hk.
  destruct (socket_send_loop_spec message message_size _ 0%nat s k eq_refl Hlen
              ltac:(lia) Htx) as (s1 & Hl & Hw & Ha & ? & ?).
  { by rewrite Nat.sub_0_r. }
  rewrite Nat.sub_0_r in *. unfold socket_send. rewrite Hl.
  rewrite decide_False by (intros ?; lia). by exists s1.
Qed.

(** ** The handler after the request is read *)

Lemma socket_read_Ret min_size max_size s in_buf s1 :
  0 <= max_size ->
  socket_read min_size max_size s = (Ret in_buf, s1) ->
  tx s1 = tx s /\ wire s1 = wire s /\ is_open s1 = is_open s /\
  min_size <= Z.of_nat (length in_buf) <= max_size.
Proof.
  intros Hmax. unfold socket_read.
  pose proof (socket_read_loop_spec max_size _ 0 [] s eq_refl eq_refl Hmax) as H.
  destruct (socket_read_loop max_size 0 [] s) as [[[received buf]|e|] s2]; [|done..].
  destruct H as (-> & ? & _ & _ & ? & ? & ?).
  case_decide; [done|]. intros [= <- <-]. repeat split; try done; lia.
Qed.

Lemma hsearch_FIND k d t :
  fst (hsearch (mkENTRY k d) FIND t) = mkENTRY k <$> h_entries t !! k.
Proof. unfold hsearch; simpl. by destruct (h_entries t !! k). Qed.

Lemma request_path_Some in_buf p :
  request_path in_buf = Some p ->
  strncmp_eq (c_str in_buf) (lit "GET ") 4 = true /\
  strtok_r (c_str (drop 4 in_buf)) delimiters = Some p /\
  char0 p = slash /\ (1 <= strlen p)%nat.
Proof.
  unfold request_path. destruct (strncmp_eq _ _ _); [|done].
  destruct (strtok_r _ _) as [q|]; [|done].
  case_bool_decide as Hq; [|done]. intros [= ->].
  repeat split; try done. destruct p; [done | simpl; lia].
Qed.

(** The requested path is in the table: status 200 and the blob. *)
Lemma child_handle_client_hit t ld ns in_buf ns1 p d :
  socket_read 5 (max_path_len ld + 5) ns = (Ret in_buf, ns1) ->
  request_path in_buf = Some p ->
  h_entries t !! p = Some d ->
  child_handle_client t ld ns =
  match socket_send (response_header (lit "200 OK") (blob_get_size d))
          (strlen (response_header (lit "200 OK") (blob_get_size d))) ns1 with
  | (Exit e, ns2) => (Exit e, ns2)
  | (Killed, ns2) => (Killed, ns2)
  | (Ret _, ns2) =>
      match socket_send (blob_get_data d) (blob_get_size d) ns2 with
      | (Exit e, ns3) => (Exit e, ns3)
      | (Killed, ns3) => (Killed, ns3)
      | (Ret _, ns3) => (Ret (), close ns3)
      end
  end.
Proof.
  intros Hread (Hget & Htok & Hsl & Hlen)%request_path_Some Hl.
  unfold child_handle_client. rewrite Hread, Hget, Htok. cbn [negb].
  rewrite bool_decide_false by lia. rewrite bool_decide_true by done. cbn [negb orb].
  rewrite hsearch_FIND, Hl. done.
Qed.

(** Neither the requested path nor the not-found route is in the table:
    the fallback response, then the fatal exit. *)
Lemma child_handle_client_double_miss t ld ns in_buf ns1 p :
  socket_read 5 (max_path_len ld + 5) ns = (Ret in_buf, ns1) ->
  request_path in_buf = Some p ->
  h_entries t !! p = None ->
  h_entries t !! notfound_route ld = None ->
  child_handle_client t ld ns =
  match socket_send fallback_err_response (strlen fallback_err_response) ns1 with
  | (Exit e, ns2) => (Exit e, ns2)
  | (Killed, ns2) => (Killed, ns2)
  | (Ret _, ns2) => (Exit EXIT_NOTFOUND_NOT_FOUND, close ns2)
  end.
Proof.
  intros Hread (Hget & Htok & Hsl & Hlen)%request_path_Some Hl Hnf.
  unfold child_handle_client. rewrite Hread, Hget, Htok. cbn [negb].
  rewrite bool_decide_false by lia. rewrite bool_decide_true by done. cbn [negb orb].
  rewrite !hsearch_FIND, Hl. cbn [fmap option_fmap option_map]. rewrite Hnf. done.
Qed.

(** C7, as stated, fails: the requested path and the not-found route
    both miss the table, but [send] takes ten bytes and then fails.  The
    handler has sent the first ten bytes of the fixed 404 response, not
    the response, and the child exits with [EXIT_SOCKET_SEND_FAILED], not
    with the code of the missing not-found route.  On the same request
    with a peer that has closed the connection, the child sends nothing
    and is killed by SIGPIPE: it leaves no exit status at all. *)
Lemma C7_send_failure_cuts_fallback :
  let t := {| h_entries := ∅; h_cap := None |} in
  let ld := mkLoopData 1 1 (lit "/404.html") 8 in
  let request := [RxData "G" (lit "ET /missing HTTP/1.1")] in
  let ns := {| rx := request; tx := [TxTake 10; TxError]; wire := []; is_open := true |} in
  let closed := {| rx := request; tx := [TxSigpipe]; wire := []; is_open := true |} in
  exists in_buf ns1 p ns' closed',
    socket_read 5 (max_path_len ld + 5) ns = (Ret in_buf, ns1) /\
    request_path in_buf = Some p /\
    h_entries t !! p = None /\ h_entries t !! notfound_route ld = None /\
    child_handle_client t ld ns = (Exit EXIT_SOCKET_SEND_FAILED, ns') /\
    wire ns' = lit "HTTP/1.1 4" /\
    accept_next_connection t ld (Forked ns)
      = (Ret (), Some (EXIT_SOCKET_SEND_FAILED, ns')) /\
    child_handle_client t ld closed = (Killed, closed') /\
    wire closed' = [] /\
    accept_next_connection t ld (Forked closed) = (Ret (), None).
Proof.
  eexists _, _, _, _, _.
  split; [vm_compute; reflexivity|].
  split; [vm_compute; reflexivity|].
  split; [vm_compute; reflexivity|].
  split; [vm_compute; reflexivity|].
  split; [vm_compute; reflexivity|].
  split; [vm_compute; reflexivity|].
  split; [vm_compute; reflexivity|].
  split; [vm_compute; reflexivity|].
  split; vm_compute; reflexivity.
Qed.

(** C7, amended: when the requested path and the configured not-found
    route both miss the table, and the transport takes the bytes, the
    handler sends exactly the fixed 404 response, closes the connection
    and exits with [EXIT_NOTFOUND_NOT_FOUND], a code no other exit has;
    this is the exit of the forked child only: the listener's round
    returns normally and its loop goes on with the next rounds. *)
Theorem C7_fallback_404 t ld ns in_buf ns1 p :
  0 <= max_path_len ld ->
  socket_read 5 (max_path_len ld + 5) ns = (Ret in_buf, ns1) ->
  request_path in_buf = Some p ->
  h_entries t !! p = None ->
  h_entries t !! notfound_route ld = None ->
  tx_accepts (strlen fallback_err_response) (tx ns) = true ->
  exists ns',
    child_handle_client t ld ns = (Exit EXIT_NOTFOUND_NOT_FOUND, ns') /\
    wire ns' = wire ns ++ lit "HTTP/1.1 404 NOT FOUND" ++ [CR; LF] ++
               lit "Content-Length: 13" ++ [CR; LF; CR; LF] ++ lit "404 NOT FOUND" /\
    is_open ns' = false /\
    (forall e, exit_code e = exit_code EXIT_NOTFOUND_NOT_FOUND ->
               e = EXIT_NOTFOUND_NOT_FOUND) /\
    accept_next_connection t ld (Forked ns)
      = (Ret (), Some (EXIT_NOTFOUND_NOT_FOUND, ns')) /\
    forall evs,
      accept_loop t ld (Forked ns :: evs)
      = (fst (accept_loop t ld evs),
         (EXIT_NOTFOUND_NOT_FOUND, ns') :: snd (accept_loop t ld evs)).
Proof.
  intros Hmax Hread Hp Hl Hnf Htx.
  pose proof (child_handle_client_double_miss t ld ns in_buf ns1 p Hread Hp Hl Hnf) as Hc.
  apply socket_read_Ret in Hread as (Htx1 & Hw1 & _); [|lia].
  destruct (socket_send_spec fallback_err_response (strlen fallback_err_response) ns1
              (strlen fallback_err_response))
    as (ns2 & Hs & Hw2 & _ & _ & _);
    [done | by rewrite Htx1 | change (strlen fallback_err_response) with 59%nat; lia |].
  rewrite Hs in Hc. exists (close ns2).
  split; [done|]. split.
  { simpl. rewrite Hw2, Hw1. done. }
  split; [done|]. split.
  { intros e. destruct e; simpl; intros; (done || lia). }
  assert (accept_next_connection t ld (Forked ns)
          = (Ret (), Some (EXIT_NOTFOUND_NOT_FOUND, close ns2))) as Hacc.
  { unfold accept_next_connection. by rewrite Hc. }
  split; [done|]. intros evs. cbn [accept_loop]. rewrite Hacc.
  by destruct (accept_loop t ld evs).
Qed.

Lemma C7_fallback_404_witness :
  exists ns',
    child_handle_client {| h_entries := ∅; h_cap := None |}
      (mkLoopData 1 1 (lit "/404.html") 8)
      (client [RxData "G" (lit "ET /missing HTTP/1.1")])
    = (Exit EXIT_NOTFOUND_NOT_FOUND, ns') /\
    wire ns' = wire (client [RxData "G" (lit "ET /missing HTTP/1.1")]) ++
               lit "HTTP/1.1 404 NOT FOUND" ++ [CR; LF] ++
               lit "Content-Length: 13" ++ [CR; LF; CR; LF] ++ lit "404 NOT FOUND" /\
    is_open ns' = false /\
    (forall e, exit_code e = exit_code EXIT_NOTFOUND_NOT_FOUND ->
               e = EXIT_NOTFOUND_NOT_FOUND) /\
    accept_next_connection {| h_entries := ∅; h_cap := None |}
      (mkLoopData 1 1 (lit "/404.html") 8)
      (Forked (client [RxData "G" (lit "ET /missing HTTP/1.1")]))
      = (Ret (), Some (EXIT_NOTFOUND_NOT_FOUND, ns')) /\
    forall evs,
      accept_loop {| h_entries := ∅; h_cap := None |}
        (mkLoopData 1 1 (lit "/404.html") 8)
        (Forked (client [RxData "G" (lit "ET /missing HTTP/1.1")]) :: evs)
      = (fst (accept_loop {| h_entries := ∅; h_cap := None |}
                (mkLoopData 1 1 (lit "/404.html") 8) evs),
         (EXIT_NOTFOUND_NOT_FOUND, ns') ::
         snd (accept_loop {| h_entries := ∅; h_cap := None |}
                (mkLoopData 1 1 (lit "/404.html") 8) evs)).
Proof.
  apply (C7_fallback_404 {| h_entries := ∅; h_cap := None |}
           (mkLoopData 1 1 (lit "/404.html") 8)
           (client [RxData "G" (lit "ET /missing HTTP/1.1")])
           (lit "GET /missing ")
           {| rx := [RxData "H" (lit "TTP/1.1")]; tx := replicate 100 (TxTake 1000);
              wire := []; is_open := true |}
           (lit "/missing")).
  - simpl. lia.
  - vm_compute. reflexivity.
  - vm_compute. reflexivity.
  - vm_compute. reflexivity.
  - vm_compute. reflexivity.
  - vm_compute. reflexivity.
Defined.

(** ** The files of the walk *)

Lemma entries_files_elem path es pf :
  pf ∈ entries_files path es <->
  exists e, e ∈ es /\ pf ∈ routed_files (fts_child_path path (fst e)) (fst e) (snd e).
Proof.
  induction es as [|e es IH]; simpl.
  - split; [by intros ?%elem_of_nil | by intros (? & ?%elem_of_nil & _)].
  - rewrite elem_of_app, IH. split.
    + intros [?|(e' & ? & ?)]; [exists e | exists e']; split; try done;
        [apply list_elem_of_here | by apply list_elem_of_further].
    + intros (e' & [->|?]%elem_of_cons & ?); [by left | right; by exists e'].
Qed.

Lemma routed_in_files name n pos f :
  routed name n pos f ->
  forall path, (fts_path_at path pos, f) ∈ routed_files path name n.
Proof.
  induction 1 as [name f Hdot|name r es nm k pos f Hdot Hin _ IH]; intros path.
  - simpl. rewrite Hdot. apply list_elem_of_here.
  - rewrite routed_files_dir, Hdot. apply entries_files_elem.
    exists (nm, k). split; [done|]. apply IH.
Qed.

Lemma files_routed n : forall path name p f,
  (p, f) ∈ routed_files path name n ->
  exists pos, routed name n pos f /\ p = fts_path_at path pos.
Proof.
  induction n as [f0|r es IHes|t IH| | |] using node_induction;
    intros path name p f Hin; try (by apply elem_of_nil in Hin).
  - simpl in Hin. destruct (dotted name) eqn:Hdot; [by apply elem_of_nil in Hin|].
    apply list_elem_of_singleton in Hin as [= -> ->].
    exists []. split; [by constructor | done].
  - rewrite routed_files_dir in Hin.
    destruct (dotted name) eqn:Hdot; [by apply elem_of_nil in Hin|].
    apply entries_files_elem in Hin as ([nm k] & He & Hin).
    rewrite Forall_forall in IHes.
    destruct (IHes (nm, k) He _ _ _ _ Hin) as (pos & Hr & ->).
    exists (nm :: pos). split; [by econstructor | done].
Qed.

(** ** The table a scan builds *)

Lemma foldl_record_lookup b files : forall st r d,
  h_entries (table (foldl (record_route b) st files)) !! r = Some d ->
  h_entries (table st) !! r = Some d \/
  exists p f, (p, f) ∈ files /\ r = route_of b p /\ d = Some (blob_of f).
Proof.
  induction files as [|[p f] files IH]; intros st r d Hl; [by left|].
  simpl in Hl. apply IH in Hl as [Hl|(p' & f' & ? & ? & ?)].
  - unfold record_route in Hl. cbn [table fst snd] in Hl.
    destruct (h_entries (table st) !! route_of b p) eqn:Hp; [by left|].
    cbn [h_entries] in Hl.
    destruct (decide (r = route_of b p)) as [->|Hne].
    + rewrite lookup_insert_eq in Hl. injection Hl as <-.
      right. exists p, f. split; [apply list_elem_of_here | done].
    + rewrite lookup_insert_ne in Hl by done. by left.
  - right. exists p', f'. split; [by apply list_elem_of_further | done].
Qed.

Lemma foldl_record_max b files : forall st p f,
  (p, f) ∈ files ->
  Z.of_nat (strlen (route_of b p)) <= max_path_len_out (foldl (record_route b) st files).
Proof.
  assert (Hmono : forall fs st,
    max_path_len_out st <= max_path_len_out (foldl (record_route b) st fs)).
  { induction fs as [|pf fs IH]; intros st; simpl; [lia|].
    etrans; [|apply IH]. unfold record_route; simpl. lia. }
  induction files as [|pf files IH]; intros st p f Hin.
  - by apply elem_of_nil in Hin.
  - apply elem_of_cons in Hin as [<-|Hin]; simpl.
    + etrans; [|apply Hmono]. unfold record_route; simpl. lia.
    + by eapply IH.
Qed.

Lemma blob_of_full f :
  reads_in_full f -> length (b_data (blob_of f)) = b_length (blob_of f).
Proof. intros [_ ?]. simpl. rewrite length_take. lia. Qed.

(** ** Short reads *)

(** C6: an undotted regular file whose read delivers a number of bytes
    other than the size [lstat] reported makes the body exit with
    [EXIT_FREAD_FAILED]; a scan that meets such a file exits, and [main]
    then accepts no connection; hence every blob in the table of a scan
    that returns holds as many bytes as its length says, the size of its
    file, all of them read from the file. *)
Theorem C6_short_read_aborts hcap path root pos f :
  routed (fts_root_name path) (follow_root root) pos f ->
  (f_openable f = true ->
   fst (fread {| b_length := st_size f; b_data := replicate (st_size f) NUL |} f)
     <> st_size f ->
   (forall b p name st, dotted name = false ->
      scan_body b (mkFTSENT FTS_F p name (stat_of (NReg f)) (NReg f)) st
      = Exit EXIT_FREAD_FAILED) /\
   exists e, scan_web_root hcap path root = Exit e /\
     forall notfound rxt txt evs,
       main hcap path notfound rxt txt root evs = (Exit e, [])) /\
  (forall st, scan_web_root hcap path root = Ret st ->
     fst (fread {| b_length := st_size f; b_data := replicate (st_size f) NUL |} f)
       = st_size f /\
     forall r d, h_entries (table st) !! r = Some d ->
       exists f', d = Some (blob_of f') /\
         b_length (blob_of f') = st_size f' /\
         b_data (blob_of f') = take (st_size f') (f_bytes f') /\
         length (b_data (blob_of f')) = st_size f').
Proof.
  intros Hrouted.
  assert (Hret : forall st, scan_web_root hcap path root = Ret st ->
            reads_in_full f /\
            forall r d, h_entries (table st) !! r = Some d ->
              exists f', d = Some (blob_of f') /\ reads_in_full f').
  { intros st (_ & -> & Hfull)%scan_web_root_Ret.
    rewrite Forall_forall in Hfull. split.
    - apply (Hfull (fts_path_at path pos, f)). by apply routed_in_files.
    - intros r d [Hl|(p & f' & Hin & _ & ->)]%foldl_record_lookup; [done|].
      exists f'. split; [done|]. by apply (Hfull (p, f')). }
  rewrite fread_blob_new. cbn [fst]. split.
  - intros Hop Hshort. split.
    + intros b p name st Hdot. rewrite scan_body_F, Hop by done.
      rewrite bool_decide_false by lia. done.
    + destruct (scan_web_root hcap path root) as [st|e|] eqn:Hscan.
      * destruct (Hret st eq_refl) as [[_ ?] _]. lia.
      * exists e. split; [done|]. intros. by apply main_scan_Exit.
      * by apply scan_web_root_not_Killed in Hscan.
  - intros st Hscan. destruct (Hret st Hscan) as [[_ ?] Htab].
    split; [lia|]. intros r d Hl.
    destruct (Htab r d Hl) as (f' & -> & Hf').
    exists f'. repeat split. by apply blob_of_full.
Qed.

Lemma C6_short_read_aborts_witness :
  let shrunk := mkFile 10 true (lit "short") false in
  routed (fts_root_name (lit "www"))
    (follow_root (NDir true [(lit "a.txt", NReg shrunk)])) [lit "a.txt"] shrunk /\
  f_openable shrunk = true /\
  fst (fread {| b_length := st_size shrunk; b_data := replicate (st_size shrunk) NUL |}
         shrunk) <> st_size shrunk /\
  exists e, scan_web_root None (lit "www") (NDir true [(lit "a.txt", NReg shrunk)]) = Exit e.
Proof.
  intros shrunk.
  assert (Hr : routed (fts_root_name (lit "www"))
    (follow_root (NDir true [(lit "a.txt", NReg shrunk)])) [lit "a.txt"] shrunk).
  { eapply routed_dir; [reflexivity | apply list_elem_of_here |].
    by apply routed_file. }
  assert (Hn : fst (fread {| b_length := st_size shrunk;
                             b_data := replicate (st_size shrunk) NUL |} shrunk)
               <> st_size shrunk) by (vm_compute; lia).
  split; [exact Hr|]. split; [reflexivity|]. split; [exact Hn|].
  destruct (C6_short_read_aborts None (lit "www") _ _ _ Hr) as [Habort _].
  destruct (Habort eq_refl Hn) as [_ [e [He _]]].
  exists e. exact He.
Defined.

(** ** Paths and routes *)

Lemma rel_path_cons nm pos : rel_path (nm :: pos) = slash :: nm ++ rel_path pos.
Proof. reflexivity. Qed.

Lemma rel_path_app pos1 pos2 : rel_path (pos1 ++ pos2) = rel_path pos1 ++ rel_path pos2.
Proof. unfold rel_path. by rewrite map_app, concat_app. Qed.

Lemma rel_path_head pos : pos <> [] -> char0 (rel_path pos) = slash.
Proof. by destruct pos. Qed.

Lemma NAPPEND_id dir_path : dir_path <> [slash] -> NAPPEND dir_path = dir_path.
Proof. intros Hne. unfold NAPPEND. by rewrite decide_False. Qed.

Lemma child_path_not_slash (dir_path nm : cstring) :
  dir_path <> [] -> dir_path ++ slash :: nm <> [slash].
Proof. destruct dir_path as [|c [|c' p]]; try done; by destruct nm. Qed.

(** Below a root path other than [/], the path of an entry is the root
    path followed by the names, a slash before each. *)
Lemma fts_path_at_rel pos : forall root_path,
  root_path <> [] -> root_path <> [slash] ->
  fts_path_at root_path pos = root_path ++ rel_path pos.
Proof.
  induction pos as [|nm pos IH]; intros root_path Hne Hsl.
  - by rewrite app_nil_r.
  - unfold fts_path_at in *. cbn [foldl]. unfold fts_child_path at 2.
    rewrite NAPPEND_id by done.
    rewrite IH; [|by destruct root_path|by apply child_path_not_slash].
    by rewrite rel_path_cons, <- app_assoc.
Qed.

Lemma strncmp_eq_take s2 : NUL ∉ s2 -> forall s1,
  strncmp_eq s1 s2 (length s2) = true <-> take (length s2) s1 = s2.
Proof.
  induction s2 as [|c s2 IH]; intros Hnul s1; simpl; [by split|].
  apply not_elem_of_cons in Hnul as [Hc Hnul].
  destruct s1 as [|c1 s1]; simpl.
  - rewrite bool_decide_false by congruence. split; done.
  - case_decide as Heq.
    + subst c1. rewrite decide_False by congruence. rewrite (IH Hnul).
      split; [by intros -> | by intros [=]].
    + split; [done | intros [=]; done].
Qed.

Lemma index_suffix_no_NUL : NUL ∉ index_suffix.
Proof.
  unfold index_suffix, lit; simpl. rewrite !not_elem_of_cons.
  repeat split; try discriminate. apply not_elem_of_nil.
Qed.

(** The route of a path below the root: what [route_of] computes, in
    terms of the part after the root path. *)
Lemma route_of_app root_path rel :
  route_of (strlen root_path) (root_path ++ rel) =
  if decide (index_suffix `suffix_of` rel) then
    let pre := take (length rel - strlen index_suffix) rel in
    if decide (char0 pre = NUL) then [slash] else pre
  else rel.
Proof.
  pose proof index_suffix_no_NUL as Hnul.
  unfold route_of, strlen. rewrite drop_app_length.
  case_bool_decide as Hlen; cbn [andb].
  - destruct (strncmp_eq _ _ _) eqn:Hcmp.
    + apply (strncmp_eq_take _ Hnul) in Hcmp.
      rewrite take_ge in Hcmp by (rewrite length_drop; lia).
      destruct (decide (index_suffix `suffix_of` rel)) as [_|Hn]; [done|].
      exfalso. apply Hn.
      exists (take (length rel - length index_suffix) rel).
      etrans; [symmetry; apply (take_drop (length rel - length index_suffix))|].
      by rewrite Hcmp.
    + destruct (decide (index_suffix `suffix_of` rel)) as [[pre ->]|_]; [|done].
      apply not_true_iff_false in Hcmp. exfalso. apply Hcmp, (strncmp_eq_take _ Hnul).
      rewrite length_app, Nat.add_sub, drop_app_length.
      by rewrite take_ge.
  - destruct (decide (index_suffix `suffix_of` rel)) as [[pre ->]|_]; [|done].
    rewrite length_app in Hlen. lia.
Qed.

Lemma index_suffix_eq : index_suffix = slash :: lit "index.html".
Proof. reflexivity. Qed.

Lemma index_name_no_slash : slash ∉ lit "index.html".
Proof.
  unfold lit; simpl. rewrite !not_elem_of_cons.
  repeat split; try discriminate. apply not_elem_of_nil.
Qed.

(** The route of an [index.html]: the path of its directory, without a
    slash at the end; [/] for the root directory. *)
Lemma route_of_index root_path dirs :
  route_of (strlen root_path) (root_path ++ rel_path (dirs ++ [lit "index.html"])) =
  match dirs with
  | [] => [slash]
  | _ => rel_path dirs
  end.
Proof.
  rewrite route_of_app.
  assert (rel_path (dirs ++ [lit "index.html"]) = rel_path dirs ++ index_suffix) as ->.
  { by rewrite rel_path_app. }
  rewrite decide_True by (by exists (rel_path dirs)).
  cbn zeta. unfold strlen. rewrite length_app, Nat.add_sub, take_app_length.
  destruct dirs as [|d dirs]; [done|].
  rewrite decide_False; [done|]. by rewrite rel_path_head.
Qed.

(** The last slash of a string splits it in one way only. *)
Lemma app_slash_inj (Y Z a b : cstring) :
  slash ∉ a -> slash ∉ b -> Y ++ slash :: a = Z ++ slash :: b -> Y = Z /\ a = b.
Proof.
  intros Ha Hb. revert Z. induction Y as [|y Y IH]; intros [|z Z] Heq; simpl in Heq.
  - by injection Heq as ->.
  - injection Heq as _ Heq. subst a. exfalso. apply Ha.
    apply elem_of_app. right. apply list_elem_of_here.
  - injection Heq as _ Heq. subst b. exfalso. apply Hb.
    apply elem_of_app. right. apply list_elem_of_here.
  - injection Heq as <- Heq. apply IH in Heq as [-> ->]. done.
Qed.

(** The route of any other file is its path below the root. *)
Lemma route_of_plain root_path pos nm :
  entry_name nm -> nm <> lit "index.html" ->
  route_of (strlen root_path) (root_path ++ rel_path (pos ++ [nm])) = rel_path (pos ++ [nm]).
Proof.
  intros [_ Hsl] Hne. rewrite route_of_app.
  destruct (decide (index_suffix `suffix_of` rel_path (pos ++ [nm]))) as [[pre Hpre]|]; [|done].
  rewrite rel_path_app in Hpre. unfold rel_path at 2 in Hpre.
  cbn [map concat] in Hpre. rewrite app_nil_r, index_suffix_eq in Hpre.
  apply app_slash_inj in Hpre as [_ ->]; [done | done | apply index_name_no_slash].
Qed.

Lemma rel_path_shape pos : rel_path pos = [] \/ head (rel_path pos) = Some slash.
Proof. destruct pos; [by left | by right]. Qed.

Lemma prefix_slash_inj (a b X X' : cstring) :
  slash ∉ a -> slash ∉ b ->
  X = [] \/ head X = Some slash -> X' = [] \/ head X' = Some slash ->
  a ++ X = b ++ X' -> a = b /\ X = X'.
Proof.
  intros Ha Hb HX HX'. revert b Hb.
  induction a as [|c a IH]; intros [|c' b] Hb Heq; simpl in Heq.
  - done.
  - subst X. destruct HX as [|HX]; [done|]. injection HX as HX. subst c'.
    exfalso. apply Hb, list_elem_of_here.
  - subst X'. destruct HX' as [|HX']; [done|]. injection HX' as HX'. subst c.
    exfalso. apply Ha, list_elem_of_here.
  - injection Heq as <- Heq.
    apply not_elem_of_cons in Ha as [_ Ha]. apply not_elem_of_cons in Hb as [_ Hb].
    destruct (IH Ha b Hb Heq) as [-> ->]. done.
Qed.

Lemma rel_path_inj pos : forall pos',
  Forall entry_name pos -> Forall entry_name pos' ->
  rel_path pos = rel_path pos' -> pos = pos'.
Proof.
  induction pos as [|nm pos IH]; intros [|nm' pos'] Hn Hn' Heq; try done.
  apply Forall_cons in Hn as [[_ Hsl] Hn]. apply Forall_cons in Hn' as [[_ Hsl'] Hn'].
  rewrite !rel_path_cons in Heq. injection Heq as Heq.
  apply prefix_slash_inj in Heq as [-> Heq]; try done; try apply rel_path_shape.
  f_equal. by apply IH.
Qed.

Lemma rel_path_not_slash pos : Forall entry_name pos -> rel_path pos <> [slash].
Proof.
  destruct pos as [|nm pos]; [done|]. intros [[Hne _] _]%Forall_cons.
  rewrite rel_path_cons. intros [= Heq]. apply app_eq_nil in Heq as [-> _]. done.
Qed.

(** Two files below the root have the same route only if they are the
    same entry, or one is the [index.html] of a directory that has the
    path of the other. *)
Lemma route_of_unique root_path pos pos' :
  Forall entry_name pos -> Forall entry_name pos' -> pos <> [] -> pos' <> [] ->
  route_of (strlen root_path) (root_path ++ rel_path pos) =
  route_of (strlen root_path) (root_path ++ rel_path pos') ->
  pos = pos' \/ pos' = pos ++ [lit "index.html"] \/ pos = pos' ++ [lit "index.html"].
Proof.
  intros Hn Hn' Hne Hne'.
  destruct (exists_last Hne) as (ds & nm & ->).
  destruct (exists_last Hne') as (ds' & nm' & ->).
  apply Forall_app in Hn as [Hds [Hnm _]%Forall_cons].
  apply Forall_app in Hn' as [Hds' [Hnm' _]%Forall_cons].
  destruct (decide (nm = lit "index.html")) as [->|Hi];
    destruct (decide (nm' = lit "index.html")) as [->|Hi'].
  - rewrite !route_of_index.
    destruct ds as [|d ds], ds' as [|d' ds']; intros Heq.
    + by left.
    + symmetry in Heq. by apply rel_path_not_slash in Heq.
    + by apply rel_path_not_slash in Heq.
    + apply rel_path_inj in Heq as ->; [by left | done | done].
  - rewrite route_of_index, route_of_plain by done.
    destruct ds as [|d ds]; intros Heq.
    + symmetry in Heq. apply rel_path_not_slash in Heq; [done|].
      apply Forall_app. split; [done | by constructor].
    + apply rel_path_inj in Heq as ->; [by right; right | done |].
      apply Forall_app. split; [done | by constructor].
  - rewrite route_of_index, route_of_plain by done.
    destruct ds' as [|d' ds']; intros Heq.
    + apply rel_path_not_slash in Heq; [done|].
      apply Forall_app. split; [done | by constructor].
    + apply rel_path_inj in Heq as <-; [by right; left | | done].
      apply Forall_app. split; [done | by constructor].
  - rewrite !route_of_plain by done. intros Heq.
    apply rel_path_inj in Heq as ->; [by left | |];
      apply Forall_app; (split; [done | by constructor]).
Qed.

(** ** Entries of a well-formed hierarchy *)

Lemma wf_entries_elem es nm k : wf_entries es -> (nm, k) ∈ es -> wf_node k.
Proof.
  induction es as [|e es IH]; intros Hwf Hin; [by apply elem_of_nil in Hin|].
  destruct Hwf as [He Hes]. apply elem_of_cons in Hin as [<-|Hin]; [done | by apply IH].
Qed.

Lemma NoDup_fst_elem (es : list (cstring * node)) nm k k' :
  NoDup (map fst es) -> (nm, k) ∈ es -> (nm, k') ∈ es -> k = k'.
Proof.
  induction es as [|[nm0 k0] es IH]; intros Hnd Hin Hin'; [by apply elem_of_nil in Hin|].
  simpl in Hnd. apply NoDup_cons in Hnd as [Hnot Hnd].
  assert (forall x, (nm0, x) ∈ es -> False) as Hfresh.
  { intros x Hx. apply Hnot. apply list_elem_of_fmap. by exists (nm0, x). }
  apply elem_of_cons in Hin as [[= -> ->]|Hin];
    apply elem_of_cons in Hin' as [[= ->]|Hin']; try done.
  - subst. by destruct (Hfresh k').
  - by destruct (Hfresh k).
  - by apply IH.
Qed.

Lemma routed_names name n pos f :
  wf_node n -> routed name n pos f -> Forall entry_name pos.
Proof.
  intros Hwf Hr. induction Hr as [name f Hdot|name r es nm k pos f Hdot Hin _ IH].
  - constructor.
  - apply wf_node_dir in Hwf as (_ & Hnames & Hes).
    constructor; [|by eapply IH, wf_entries_elem].
    rewrite Forall_forall in Hnames. apply Hnames.
    apply list_elem_of_fmap. by exists (nm, k).
Qed.

Lemma routed_functional name n pos f f' :
  wf_node n -> routed name n pos f -> routed name n pos f' -> f = f'.
Proof.
  intros Hwf Hr. revert f'.
  induction Hr as [name f Hdot|name r es nm k pos f Hdot Hin _ IH]; intros f' Hr'.
  - by inversion Hr'.
  - inversion Hr' as [|? ? ? ? k' ? ? _ Hin' Hk']; subst.
    apply wf_node_dir in Hwf as (Hnd & _ & Hes).
    rewrite <- (NoDup_fst_elem es nm k k' Hnd Hin Hin') in Hk'.
    apply IH; [by eapply wf_entries_elem | done].
Qed.

(** A regular file has nothing below it. *)
Lemma routed_no_prefix name n pos f x rest f' :
  wf_node n -> routed name n pos f -> routed name n (pos ++ x :: rest) f' -> False.
Proof.
  intros Hwf Hr. revert f'.
  induction Hr as [name f Hdot|name r es nm k pos f Hdot Hin _ IH]; intros f' Hr'.
  - inversion Hr'.
  - inversion Hr' as [|? ? ? ? k' ? ? _ Hin' Hk']; subst.
    apply wf_node_dir in Hwf as (Hnd & _ & Hes).
    rewrite <- (NoDup_fst_elem es nm k k' Hnd Hin Hin') in Hk'.
    eapply IH; [by eapply wf_entries_elem | done].
Qed.

Lemma routed_nil_dir name r es f : ~ routed name (NDir r es) [] f.
Proof. intros H. inversion H. Qed.

(** In a well-formed hierarchy under a root path other than [/], two
    routed files with the same route are the same file. *)
Lemma routed_route_unique root_path name n pos f pos' f' :
  wf_node n -> root_path <> [] -> root_path <> [slash] -> pos <> [] ->
  routed name n pos f -> routed name n pos' f' ->
  route_of (strlen root_path) (fts_path_at root_path pos) =
  route_of (strlen root_path) (fts_path_at root_path pos') ->
  f = f'.
Proof.
  intros Hwf Hpath Hlast Hne Hr Hr' Heq.
  pose proof (routed_names _ _ _ _ Hwf Hr) as Hn.
  pose proof (routed_names _ _ _ _ Hwf Hr') as Hn'.
  assert (pos' <> []) as Hne'.
  { intros ->. destruct Hr; [done|]. by apply routed_nil_dir in Hr'. }
  rewrite !fts_path_at_rel in Heq by done.
  apply route_of_unique in Heq as [->|[->| ->]]; try done.
  - by eapply routed_functional.
  - by destruct (routed_no_prefix _ _ _ _ _ _ _ Hwf Hr Hr').
  - by destruct (routed_no_prefix _ _ _ _ _ _ _ Hwf Hr' Hr).
Qed.

(** ** No two files with one route *)







Lemma wf_node_follow_root n : wf_node n -> wf_node (follow_root n).
Proof. induction n using node_induction; simpl; auto. Qed.

Lemma wf_www : wf_node www.
Proof.
  unfold www. simpl.
  repeat split; try (apply NoDup_ListNoDup; repeat constructor);
    try (repeat constructor; unfold entry_name; simpl;
         rewrite ?not_elem_of_cons; repeat split; try discriminate;
         apply not_elem_of_nil).
  all: simpl; rewrite ?not_elem_of_cons; rewrite ?elem_of_nil; intuition discriminate.
Qed.

Lemma www_scannable : scannable (lit "www") www.
Proof.
  unfold www, text_file. cbn.
  repeat first [ split
               | reflexivity
               | lia
               | right; split; [reflexivity|]
               | right; split; [reflexivity | cbn; lia]
               | left; reflexivity ].
Qed.



(** ** The first entry of a route stays *)

Lemma foldl_record_keeps b files : forall st r d,
  h_entries (table st) !! r = Some d ->
  h_entries (table (foldl (record_route b) st files)) !! r = Some d.
Proof.
  induction files as [|[p f] files IH]; intros st r d Hl; [done|].
  simpl. apply IH. unfold record_route. cbn [table fst snd].
  destruct (h_entries (table st) !! route_of b p) eqn:Hp; [done|].
  cbn [h_entries]. rewrite lookup_insert_ne; [done|]. intros <-. congruence.
Qed.

Lemma foldl_record_first b files : forall st p f,
  (p, f) ∈ files ->
  h_entries (table st) !! route_of b p = None ->
  (forall p' f', (p', f') ∈ files -> route_of b p' = route_of b p -> f' = f) ->
  h_entries (table (foldl (record_route b) st files)) !! route_of b p
  = Some (Some (blob_of f)).
Proof.
  induction files as [|[p0 f0] files IH]; intros st p f Hin Hnone Huniq.
  - by apply elem_of_nil in Hin.
  - simpl. destruct (decide (route_of b p0 = route_of b p)) as [Heq|Hne].
    + assert (f0 = f) as -> by (apply (Huniq p0); [apply list_elem_of_here | done]).
      apply foldl_record_keeps. unfold record_route. cbn [table fst snd].
      rewrite Heq, Hnone. cbn [h_entries]. by rewrite lookup_insert_eq.
    + apply elem_of_cons in Hin as [[= -> ->]|Hin]; [done|].
      apply IH; [done | |].
      * unfold record_route. cbn [table fst snd].
        destruct (h_entries (table st) !! route_of b p0); [done|].
        cbn [h_entries]. by rewrite lookup_insert_ne.
      * intros p' f' Hin'. apply Huniq. by apply list_elem_of_further.
Qed.

(** After a scan that returns, under a root path other than [/], the
    table maps the route of each routed file to the blob of that
    file, and no route is longer than [max_path_len_out]. *)
Lemma scan_table_lookup hcap path root st pos f :
  wf_node root -> path <> [slash] -> pos <> [] ->
  scan_web_root hcap path root = Ret st ->
  routed (fts_root_name path) (follow_root root) pos f ->
  let r := route_of (strlen path) (fts_path_at path pos) in
  h_entries (table st) !! r = Some (Some (blob_of f)) /\
  Z.of_nat (strlen r) <= max_path_len_out st /\
  reads_in_full f.
Proof.
  intros Hwf Hlast Hne (Hpath & -> & Hfull)%scan_web_root_Ret Hr r.
  pose proof (routed_in_files _ _ _ _ Hr path) as Hin.
  apply wf_node_follow_root in Hwf.
  split; [|split].
  - apply foldl_record_first; [done | done |].
    intros p' f' (pos' & Hr' & ->)%files_routed Heq. symmetry.
    by eapply (routed_route_unique path _ _ pos f pos' f').
  - by eapply foldl_record_max.
  - rewrite Forall_forall in Hfull. by apply (Hfull _ Hin).
Qed.

(** Under a root path other than [/] every route begins with a slash. *)
Lemma route_begins_with_slash root_path pos :
  root_path <> [] -> root_path <> [slash] -> Forall entry_name pos -> pos <> [] ->
  char0 (route_of (strlen root_path) (fts_path_at root_path pos)) = slash.
Proof.
  intros Hpath Hlast Hn Hne. rewrite fts_path_at_rel by done.
  destruct (exists_last Hne) as (ds & nm & ->).
  apply Forall_app in Hn as [Hds [Hnm _]%Forall_cons].
  destruct (decide (nm = lit "index.html")) as [->|Hi].
  - rewrite route_of_index. by destruct ds.
  - rewrite route_of_plain by done. apply rel_path_head. by destruct ds.
Qed.

(** ** Index files *)

(** C2, as stated, fails: [dir/index.html] is not served at a route
    with the slash kept, neither [/dir/] nor [dir/]; its route is
    [/dir]. *)
Lemma C2_dir_index_without_slash :
  exists st,
    scan_web_root None (lit "www") www = Ret st /\
    h_entries (table st) !! lit "/dir/" = None /\
    h_entries (table st) !! lit "dir/" = None /\
    h_entries (table st) !! lit "/dir"
      = Some (Some {| b_length := 9; b_data := lit "dir index" |}).
Proof.
  eexists. split; [vm_compute; reflexivity|].
  repeat split; vm_compute; reflexivity.
Qed.

(** C2, amended: in a well-formed hierarchy under a root path other
    than [/], the [index.html] of a directory that the scan reaches is
    entered under the path of the directory below the root, with no slash
    at its end ([dir/index.html] under [/dir]); the [index.html] of the
    root directory is entered under [/]. *)
Theorem C2_index_route hcap path root dirs f st :
  wf_node root -> path <> [slash] ->
  routed (fts_root_name path) (follow_root root) (dirs ++ [lit "index.html"]) f ->
  scan_web_root hcap path root = Ret st ->
  let r := match dirs with [] => [slash] | _ => rel_path dirs end in
  route_of (strlen path) (fts_path_at path (dirs ++ [lit "index.html"])) = r /\
  h_entries (table st) !! r = Some (Some (blob_of f)).
Proof.
  intros Hwf Hlast Hr Hscan r.
  assert (route_of (strlen path) (fts_path_at path (dirs ++ [lit "index.html"])) = r) as Hroute.
  { apply scan_web_root_Ret in Hscan as (Hpath & _).
    rewrite fts_path_at_rel by done. apply route_of_index. }
  split; [done|]. rewrite <- Hroute.
  eapply scan_table_lookup; try done. by destruct dirs.
Qed.

Lemma C2_index_route_witness :
  wf_node www /\ lit "www" <> [slash] /\
  routed (fts_root_name (lit "www")) (follow_root www)
    ([lit "dir"] ++ [lit "index.html"])
    (mkFile 9 true (lit "dir index") false) /\
  exists st,
    scan_web_root None (lit "www") www = Ret st /\
    route_of (strlen (lit "www")) (fts_path_at (lit "www") ([lit "dir"] ++ [lit "index.html"]))
      = rel_path [lit "dir"] /\
    h_entries (table st) !! rel_path [lit "dir"]
      = Some (Some (blob_of (mkFile 9 true (lit "dir index") false))).
Proof.
  pose proof wf_www as Hwf.
  assert (Hl : lit "www" <> [slash]) by discriminate.
  assert (Hr : routed (fts_root_name (lit "www")) (follow_root www)
                 ([lit "dir"] ++ [lit "index.html"])
                 (mkFile 9 true (lit "dir index") false)).
  { eapply routed_dir; [reflexivity | |].
    { do 3 apply list_elem_of_further. apply list_elem_of_here. }
    eapply routed_dir; [reflexivity | apply list_elem_of_here |].
    by apply routed_file. }
  split; [exact Hwf|]. split; [exact Hl|]. split; [exact Hr|].
  destruct (scan_web_root None (lit "www") www) as [st|e|] eqn:Hscan;
    [|vm_compute in Hscan; discriminate..].
  exists st. split; [reflexivity|].
  exact (C2_index_route None (lit "www") www [lit "dir"] _ st Hwf Hl Hr Hscan).
Defined.

(** For a root directory given by a path other than [/], a path with a
    final slash included, every route of the table is a non-empty string
    that begins with a slash. *)
Lemma scan_routes_begin_with_slash hcap path root r0 es st :
  wf_node root -> path <> [slash] -> follow_root root = NDir r0 es ->
  scan_web_root hcap path root = Ret st ->
  forall r, r ∈ dom (h_entries (table st)) -> r <> [] /\ char0 r = slash.
Proof.
  intros Hwf Hlast Hdir (Hpath & -> & _)%scan_web_root_Ret r [d Hd]%elem_of_dom.
  apply foldl_record_lookup in Hd as [Hd|(p & f & Hin & -> & _)].
  { simpl in Hd. by rewrite lookup_empty in Hd. }
  apply files_routed in Hin as (pos & Hr & ->).
  assert (char0 (route_of (strlen path) (fts_path_at path pos)) = slash) as Hhead.
  { apply route_begins_with_slash; [done | done | |].
    - eapply routed_names; [|done]. by apply wf_node_follow_root.
    - intros ->. rewrite Hdir in Hr. by apply routed_nil_dir in Hr. }
  split; [|done]. intros Hnil. by rewrite Hnil in Hhead.
Qed.

(** The root path [www/]: the paths of the entries have two slashes
    ([www//index.html]) and the routes are those of the root path
    [www]. *)
Example scan_final_slash_root :
  fts_path_at (lit "www/") [lit "dir"; lit "index.html"] = lit "www//dir/index.html" /\
  exists st,
    scan_web_root None (lit "www/") www = Ret st /\
    dom (h_entries (table st)) = {[ lit "/"; lit "/a b.txt"; lit "/dir" ]} /\
    scan_web_root None (lit "www") www = Ret st.
Proof.
  split; [reflexivity|]. eexists. split; [vm_compute; reflexivity|].
  split; [reflexivity | vm_compute; reflexivity].
Qed.

(** ** The root path [/] *)

(** C9 at the root path [/]: the paths of the entries of the root are
    written without a second slash ([/index.html]), so cutting off the
    one character of the root path leaves routes without the leading
    slash, and the root's [index.html] is not even reduced to [/].  No
    route of the table begins with a slash; a request for [/] is answered
    with the fallback 404. *)
Theorem C9_slash_root_routes :
  exists st,
    scan_web_root None (lit "/") www = Ret st /\
    dom (h_entries (table st)) = {[ lit "index.html"; lit "a b.txt"; lit "dir" ]} /\
    (forall r, r ∈ dom (h_entries (table st)) -> char0 r <> slash) /\
    exists ns',
      child_handle_client (table st) (mkLoopData 1 1 (lit "/404.html") (max_path_len_out st))
        (client [RxData "G" (lit "ET / "); RxClose])
      = (Exit EXIT_NOTFOUND_NOT_FOUND, ns').
Proof.
  eexists. split; [vm_compute; reflexivity|].
  cbn [table h_entries max_path_len_out].
  match goal with |- ?D = ?S /\ _ => assert (D = S) as Hdom by reflexivity end.
  split; [exact Hdom|]. split.
  - intros r Hr. rewrite Hdom in Hr.
    rewrite !elem_of_union, !elem_of_singleton in Hr.
    destruct Hr as [[->| ->]| ->]; discriminate.
  - eexists. vm_compute. reflexivity.
Qed.

(** ** Requests *)

Lemma c_str_app r s : NUL ∉ r -> c_str (r ++ s) = r ++ c_str s.
Proof.
  induction r as [|c r IH]; intros Hn; simpl; [done|].
  apply not_elem_of_cons in Hn as [Hc Hn].
  rewrite decide_False by congruence. by rewrite IH.
Qed.

Lemma upto_delim_app delim r d s :
  Forall (fun c => c ∉ delim) r -> d ∈ delim -> upto_delim delim (r ++ d :: s) = r.
Proof.
  intros Hr Hd. induction Hr as [|c r Hc _ IH]; simpl.
  - by rewrite bool_decide_true.
  - rewrite bool_decide_false by done. by rewrite IH.
Qed.

(** The bytes [GET <route><delimiter>...]: the path looked up is the
    route, when the route begins with a slash and has no delimiter and no
    NUL in it. *)
Lemma request_path_GET r d tail :
  char0 r = slash -> Forall (fun c => c ∉ NUL :: delimiters) r -> d ∈ delimiters ->
  request_path (lit "GET " ++ r ++ d :: tail) = Some r.
Proof.
  intros Hhead Hr Hd.
  assert (NUL ∉ r) as Hnul.
  { intros Hin. rewrite Forall_forall in Hr. apply (Hr _ Hin), list_elem_of_here. }
  assert (Forall (fun c => c ∉ delimiters) r) as Hdel.
  { eapply Forall_impl; [exact Hr|]. intros c Hc Hin. by apply Hc, list_elem_of_further. }
  assert (d <> NUL) as HdNUL.
  { intros ->. unfold delimiters in Hd.
    rewrite !elem_of_cons, elem_of_nil in Hd. intuition discriminate. }
  unfold request_path.
  change (lit "GET " ++ r ++ d :: tail)
    with ("G"%char :: "E"%char :: "T"%char :: " "%char :: r ++ d :: tail).
  cbn [skipn]. rewrite drop_0, c_str_app by done.
  assert (strncmp_eq (c_str ("G"%char :: "E"%char :: "T"%char :: " "%char :: r ++ d :: tail))
            (lit "GET ") 4 = true) as -> by reflexivity.
  destruct r as [|c r]; [done|]. simpl in Hhead. subst c.
  unfold strtok_r. cbn [app skip_delims].
  apply Forall_cons in Hdel as [Hsl Hdel].
  rewrite bool_decide_false by done.
  change (slash :: r ++ c_str (d :: tail)) with ((slash :: r) ++ c_str (d :: tail)).
  cbn [c_str]. rewrite decide_False by done.
  rewrite upto_delim_app by (done || by constructor).
  by rewrite bool_decide_true.
Qed.

(** ** Serving a file *)

(** C1, as stated, fails: [a b.txt] is a regular file with an undotted
    name that the scan accepts, under the route [/a b.txt].  The handler
    cuts the requested path at the first delimiter, looks up [/a], and
    answers the request for the file's route with the fallback 404.
    Besides, a peer that sends [GET / ] and then waits for the answer
    gets none: the handler keeps reading for the 13 bytes its buffer
    holds, the receive timeout expires and it exits on the failed
    [read]. *)
Lemma C1_route_with_space_not_served :
  exists st ns',
    scan_web_root None (lit "www") www = Ret st /\
    routed (fts_root_name (lit "www")) (follow_root www) [lit "a b.txt"]
      (mkFile 6 true (lit "spaced") false) /\
    route_of (strlen (lit "www")) (fts_path_at (lit "www") [lit "a b.txt"]) = lit "/a b.txt" /\
    h_entries (table st) !! lit "/a b.txt"
      = Some (Some {| b_length := 6; b_data := lit "spaced" |}) /\
    child_handle_client (table st)
      (mkLoopData 1 1 (lit "/404.html") (max_path_len_out st))
      (client [RxData "G" (lit "ET /a b.txt "); RxClose])
    = (Exit EXIT_NOTFOUND_NOT_FOUND, ns') /\
    wire ns' = fallback_err_response /\
    child_handle_client (table st)
      (mkLoopData 1 1 (lit "/404.html") (max_path_len_out st))
      (client [RxData "G" (lit "ET / ")])
    = (Exit EXIT_SOCKET_READ_FAILED,
       {| rx := []; tx := replicate 100 (TxTake 1000); wire := []; is_open := false |}).
Proof.
  eexists. eexists. split; [vm_compute; reflexivity|].
  split.
  { eapply routed_dir; [reflexivity | |by apply routed_file].
    apply list_elem_of_further, list_elem_of_here. }
  split; [reflexivity|]. split; [vm_compute; reflexivity|].
  split; [vm_compute; reflexivity|].
  split; vm_compute; reflexivity.
Qed.

Lemma response_header_length status size :
  (1 <= strlen (response_header status size))%nat.
Proof. unfold response_header, strlen. simpl. lia. Qed.

(** C1, amended: in a well-formed hierarchy under a root path other
    than [/], take a regular file below the root, with no dotted name
    on its path, of a scan that returns, whose route has no space, tab,
    CR, LF or NUL in it.  A connection that delivers [GET ], the route
    and a delimiter, and then either closes or has delivered at least as
    many bytes as the handler reads, on which the transport takes the
    response, is answered with the status line [HTTP/1.1 200 OK], a
    [Content-Length] that is the size of the file, and the bytes of the
    file as the scan read them; the handler then closes the connection
    and returns. *)
Theorem C1_get_route_200 hcap path root st pos f d tail ns notfound rxt txt :
  wf_node root -> path <> [slash] -> pos <> [] ->
  scan_web_root hcap path root = Ret st ->
  routed (fts_root_name path) (follow_root root) pos f ->
  let r := route_of (strlen path) (fts_path_at path pos) in
  Forall (fun c => c ∉ NUL :: delimiters) r ->
  d ∈ delimiters ->
  fst (rx_stream (rx ns)) = lit "GET " ++ r ++ d :: tail ->
  snd (rx_stream (rx ns)) = true \/
    max_path_len_out st + 5 <= Z.of_nat (length (fst (rx_stream (rx ns)))) ->
  tx_accepts (strlen (response_header (lit "200 OK") (st_size f)) + st_size f + 1)
    (tx ns) = true ->
  exists ns',
    child_handle_client (table st) (mkLoopData rxt txt notfound (max_path_len_out st)) ns
      = (Ret (), ns') /\
    wire ns' = wire ns ++ lit "HTTP/1.1 200 OK" ++ [CR; LF] ++
               lit "Content-Length: " ++ fmt_zu (st_size f) ++ [CR; LF; CR; LF] ++
               take (st_size f) (f_bytes f) /\
    length (take (st_size f) (f_bytes f)) = st_size f /\
    is_open ns' = false.
Proof.
  intros Hwf Hlast Hne Hscan Hr r Hchars Hd Hbytes Hav Htx.
  destruct (scan_table_lookup hcap path root st pos f Hwf Hlast Hne Hscan Hr)
    as (Hl & Hmax & Hop & Hsz). fold r in Hl, Hmax.
  assert (char0 r = slash) as Hhead.
  { pose proof Hscan as (Hpath & _)%scan_web_root_Ret.
    apply route_begins_with_slash; [done | done | | done].
    eapply routed_names; [|done]. by apply wf_node_follow_root. }
  set (max_size := max_path_len_out st + 5) in *.
  set (n := (Z.to_nat max_size - length (lit "GET " ++ r ++ [d]))%nat).
  assert (take (Z.to_nat max_size) (fst (rx_stream (rx ns)))
          = lit "GET " ++ r ++ d :: take n tail) as Hbuf.
  { rewrite Hbytes.
    replace (lit "GET " ++ r ++ d :: tail) with ((lit "GET " ++ r ++ [d]) ++ tail)
      by (by rewrite <- !app_assoc).
    rewrite take_app_ge.
    - by rewrite <- !app_assoc.
    - rewrite !length_app. unfold strlen in Hmax. simpl. lia. }
  destruct (socket_read_stream 5 max_size ns) as (ns1 & Hread & Htx1 & Hw1 & _).
  { unfold max_size. unfold strlen in Hmax. lia. }
  { done. }
  { rewrite Hbuf, !length_app. simpl. lia. }
  rewrite Hbuf in Hread.
  pose proof (request_path_GET r d (take n tail) Hhead Hchars Hd) as Hpath.
  rewrite (child_handle_client_hit (table st)
             (mkLoopData rxt txt notfound (max_path_len_out st))
             ns _ ns1 r (Some (blob_of f)) Hread Hpath Hl).
  cbn [blob_get_size blob_get_data blob_of b_length b_data].
  pose proof (response_header_length (lit "200 OK") (st_size f)) as Hhdr.
  destruct (socket_send_spec (response_header (lit "200 OK") (st_size f))
              (strlen (response_header (lit "200 OK") (st_size f))) ns1
              (strlen (response_header (lit "200 OK") (st_size f)) + st_size f + 1))
    as (ns2 & -> & Hw2 & Htx2 & _ & _); [done | by rewrite Htx1 | lia |].
  destruct (socket_send_spec (take (st_size f) (f_bytes f)) (st_size f) ns2
              (strlen (response_header (lit "200 OK") (st_size f)) + st_size f + 1 -
               Nat.max 1 (strlen (response_header (lit "200 OK") (st_size f)))))
    as (ns3 & -> & Hw3 & _ & _ & _); [rewrite length_take; lia | exact Htx2 | lia |].
  exists (close ns3). split; [done|]. split; [|split; [rewrite length_take; lia | done]].
  cbn [close wire]. rewrite Hw3, Hw2, Hw1.
  rewrite (take_ge (response_header _ _)) by done.
  rewrite (take_ge (take _ _)) by (rewrite length_take; lia).
  unfold response_header. by rewrite <- !app_assoc.
Qed.

Lemma C1_get_route_200_witness :
  exists st,
    scan_web_root None (lit "www") www = Ret st /\
    routed (fts_root_name (lit "www")) (follow_root www) [lit "dir"; lit "index.html"]
      (mkFile 9 true (lit "dir index") false) /\
    route_of (strlen (lit "www")) (fts_path_at (lit "www") [lit "dir"; lit "index.html"])
      = lit "/dir" /\
    exists ns',
      child_handle_client (table st)
        (mkLoopData 1 1 (lit "/404.html") (max_path_len_out st))
        (client [RxData "G" (lit "ET /dir"); RxData CR [LF]; RxClose])
      = (Ret (), ns') /\
      wire ns' = wire (client [RxData "G" (lit "ET /dir"); RxData CR [LF]; RxClose]) ++
                 lit "HTTP/1.1 200 OK" ++ [CR; LF] ++
                 lit "Content-Length: " ++ fmt_zu 9 ++ [CR; LF; CR; LF] ++
                 take 9 (lit "dir index") /\
      length (take 9 (lit "dir index")) = 9%nat /\
      is_open ns' = false.
Proof.
  let v := eval vm_compute in (scan_web_root None (lit "www") www) in
  match v with Ret ?s => exists s end.
  assert (Hr : routed (fts_root_name (lit "www")) (follow_root www)
                 [lit "dir"; lit "index.html"] (mkFile 9 true (lit "dir index") false)).
  { eapply routed_dir; [reflexivity | |].
    { do 3 apply list_elem_of_further. apply list_elem_of_here. }
    eapply routed_dir; [reflexivity | apply list_elem_of_here |].
    by apply routed_file. }
  split; [vm_compute; reflexivity|]. split; [exact Hr|]. split; [reflexivity|].
  apply (C1_get_route_200 None (lit "www") www _ [lit "dir"; lit "index.html"]
           (mkFile 9 true (lit "dir index") false) CR [LF]
           (client [RxData "G" (lit "ET /dir"); RxData CR [LF]; RxClose])
           (lit "/404.html") 1 1).
  - exact wf_www.
  - discriminate.
  - discriminate.
  - vm_compute. reflexivity.
  - exact Hr.
  - change (Forall (fun c => c ∉ NUL :: delimiters) (lit "/dir")).
    apply (bool_decide_unpack _). vm_compute. exact I.
  - apply list_elem_of_further, list_elem_of_here.
  - reflexivity.
  - left. reflexivity.
  - vm_compute. reflexivity.
Defined.

(** ** Dotted files and directories *)

(** A dotted regular file and a dotted directory, whatever it holds,
    leave the state as it is. *)
Lemma walk_dotted b follow path name n st :
  dotted name = true ->
  match n with NReg _ | NDir _ _ => True | _ => False end ->
  fts_walk (scan_body b) scan_options follow path name n st = Ret st.
Proof.
  intros Hdot Hn. destruct n as [f|r es| | |]; try done.
  - simpl. unfold visit. by rewrite scan_body_F_dotted.
  - rewrite fts_walk_dir, scan_body_D, Hdot. simpl.
    unfold visit. by rewrite scan_body_DP.
Qed.

Lemma walk_prune b n : forall follow path name st,
  fts_walk (scan_body b) scan_options follow path name (prune n) st
  = fts_walk (scan_body b) scan_options follow path name n st.
Proof.
  induction n as [f|r es IHes|t IH| | |] using node_induction;
    intros follow path name st; try done.
  - rewrite prune_dir, !fts_walk_dir, !scan_body_D. simpl.
    destruct (dotted name); simpl.
    + done.
    + destruct r; [|done].
      assert (forall s, walk_entries (scan_body b) scan_options path (prune_entries es) s
                        = walk_entries (scan_body b) scan_options path es s) as ->.
      { induction IHes as [|[nm k] es IHk _ IH]; intros s; [done|].
        simpl in IHk.
        assert (walk_entries (scan_body b) scan_options path
                  ((nm, prune k) :: prune_entries es) s
                = walk_entries (scan_body b) scan_options path ((nm, k) :: es) s) as Hkeep.
        { cbn [walk_entries fst snd]. rewrite IHk.
          destruct (fts_walk _ _ _ _ _ k s); simpl; [apply IH | done..]. }
        cbn [prune_entries fst snd].
        destruct k as [f|r' es'|tg| |]; try exact Hkeep.
        - destruct (dotted nm) eqn:Hdot; [|exact Hkeep].
          rewrite IH. cbn [walk_entries fst snd].
          by rewrite walk_dotted.
        - destruct (dotted nm) eqn:Hdot; [|exact Hkeep].
          rewrite IH. cbn [walk_entries fst snd].
          by rewrite walk_dotted. }
      done.
  - cbn [prune fts_walk]. destruct follow; [apply IH | done].
Qed.

Lemma routed_undotted name n pos f :
  routed name n pos f -> dotted name = false /\ Forall (fun nm => dotted nm = false) pos.
Proof.
  induction 1 as [name f Hdot|name r es nm k pos f Hdot Hin Hr [IH1 IH2]].
  - split; [done | constructor].
  - split; [done|]. by constructor.
Qed.

(** C5: every route of the table of a scan that returns is the route of
    a regular file below the root with no dotted name on its path,
    neither its own nor that of a directory above it; and dotted regular
    files and dotted directories are passed over without error: the body
    leaves the state as it is for them, and the scan of a hierarchy ends
    as the scan of the hierarchy without them does. *)
Theorem C5_dotted_entries_skipped hcap path root :
  (forall st, scan_web_root hcap path root = Ret st ->
     forall r, r ∈ dom (h_entries (table st)) ->
       exists pos f,
         routed (fts_root_name path) (follow_root root) pos f /\
         dotted (fts_root_name path) = false /\
         Forall (fun nm => dotted nm = false) pos /\
         r = route_of (strlen path) (fts_path_at path pos)) /\
  scan_web_root hcap path (prune root) = scan_web_root hcap path root /\
  (forall b p st, fts_info p = FTS_F -> S_ISREG (fts_statp p) = true ->
     dotted (fts_name p) = true -> scan_body b p st = Ret (st, FTS_NOINSTR)) /\
  (forall b p st, fts_info p = FTS_D ->
     dotted (fts_name p) = true -> scan_body b p st = Ret (st, FTS_SKIP)).
Proof.
  split; [|split; [|split]].
  - intros st (_ & -> & _)%scan_web_root_Ret r [d Hd]%elem_of_dom.
    apply foldl_record_lookup in Hd as [Hd|(p & f & Hin & -> & _)].
    { simpl in Hd. by rewrite lookup_empty in Hd. }
    apply files_routed in Hin as (pos & Hr & ->).
    destruct (routed_undotted _ _ _ _ Hr) as [? ?].
    by exists pos, f.
  - unfold scan_web_root, fts_open, hcreate, fts_read_all.
    case_decide; [done|]. apply walk_prune.
  - intros b [info p name sp n] st. simpl. intros -> Hreg Hdot.
    unfold scan_body, dotted in *. simpl. rewrite Hreg. simpl.
    apply bool_decide_eq_true in Hdot. by rewrite decide_True.
  - intros b [info p name sp n] st. simpl. intros -> Hdot.
    by rewrite scan_body_D, Hdot.
Qed.

(** * Further properties *)

(** ** socket_send *)

(** Whatever the transport does, the loop puts on the wire a part of the
    message, in order, starting where [sent] stands, and counts it; it
    exits only when [send] fails, and the process is killed only when the
    connection is broken. *)
Lemma socket_send_loop_wire message message_size n : forall sent s,
  (message_size - sent)%nat = n ->
  (message_size <= length message)%nat -> (sent <= message_size)%nat ->
  exists sent' s1 o,
    socket_send_loop message message_size sent s = (o, s1) /\
    (sent <= sent' <= message_size)%nat /\
    wire s1 = wire s ++ take (sent' - sent) (drop sent message) /\
    rx s1 = rx s /\ is_open s1 = is_open s /\
    (o = Ret sent' \/ o = Exit EXIT_SOCKET_SEND_FAILED \/
     o = Killed /\ TxSigpipe ∈ tx s).
Proof.
  induction n as [n IH] using lt_wf_ind. intros sent s Hn Hlen Hsent.
  rewrite socket_send_loop_eq. unfold send.
  set (chunk := take (message_size - sent) (drop sent message)).
  assert (length chunk = (message_size - sent)%nat) as Hchunk.
  { unfold chunk. rewrite length_take, length_drop. lia. }
  destruct (tx s) as [|[m| |] tx'] eqn:Htx.
  - exists sent, s, (Exit EXIT_SOCKET_SEND_FAILED).
    rewrite Nat.sub_diag, take_0, app_nil_r. repeat split; auto with lia.
  - rewrite length_take, Hchunk.
    destruct (decide (m `min` (message_size - sent) = 0)%nat) as [H0|H0].
    + eexists sent, _, (Ret sent). split; [done|]. cbn [wire rx is_open].
      assert (take m chunk = []) as ->.
      { apply length_zero_iff_nil. rewrite length_take. lia. }
      rewrite Nat.sub_diag, take_0. repeat split; auto with lia.
    + assert (take m chunk = take (m `min` (message_size - sent)) (drop sent message)) as Htake.
      { unfold chunk. rewrite take_take. done. }
      destruct (decide (sent + m `min` (message_size - sent) < message_size)%nat) as [Hlt|Hge].
      * edestruct (IH (message_size - (sent + m `min` (message_size - sent)))%nat
                     ltac:(lia) (sent + m `min` (message_size - sent))%nat
                     {| rx := rx s; tx := tx'; wire := wire s ++ take m chunk;
                        is_open := is_open s |} eq_refl Hlen ltac:(lia))
          as (sent' & s1 & o & -> & Hb & Hw & Hr & Hop & Ho).
        exists sent', s1, o. split; [done|]. cbn [wire rx is_open tx] in *.
        repeat split; try done; try lia.
        -- rewrite Hw, Htake, <- app_assoc. f_equal.
           replace (sent' - sent)%nat
             with (m `min` (message_size - sent)
                   + (sent' - (sent + m `min` (message_size - sent))))%nat by lia.
           rewrite <- take_take_drop, drop_drop. done.
        -- destruct Ho as [?|[?|[? ?]]]; [by left | right; by left | right; right].
           split; [done|]. by apply list_elem_of_further.
      * eexists (sent + m `min` (message_size - sent))%nat, _, (Ret _).
        split; [done|]. cbn [wire rx is_open].
        repeat split; auto with lia.
        rewrite Htake. do 2 f_equal. lia.
  - eexists sent, _, (Exit EXIT_SOCKET_SEND_FAILED). split; [done|]. cbn [wire rx is_open].
    rewrite Nat.sub_diag, take_0, app_nil_r. repeat split; auto with lia.
  - eexists sent, _, Killed. split; [done|]. cbn [wire rx is_open].
    rewrite Nat.sub_diag, take_0, app_nil_r. repeat split; auto with lia.
    right. right. split; [done|]. apply list_elem_of_here.
Qed.

(** X1: whatever the transport does, [socket_send] puts on the wire only
    the first bytes of the message, in order, and ends in one of four
    ways.  It returns, and then the whole message is on the wire.  It
    exits with [EXIT_SOCKET_SEND_FAILED], a [send] having returned -1, or
    with [EXIT_SOCKET_WEIRD_TX_LENGTH], the message cut short.  Or a
    [send] meets a broken connection: the process is killed by SIGPIPE
    (the program neither ignores the signal nor gives [send] a flag
    against it) and leaves no exit status.  In no case does
    [socket_send] read or close the connection. *)
Theorem X1_socket_send_prefix message message_size s :
  (message_size <= length message)%nat ->
  exists k s1 o,
    socket_send message message_size s = (o, s1) /\
    (k <= message_size)%nat /\
    wire s1 = wire s ++ take k message /\
    rx s1 = rx s /\ is_open s1 = is_open s /\
    (o = Ret () /\ k = message_size \/
     o = Exit EXIT_SOCKET_SEND_FAILED \/
     o = Exit EXIT_SOCKET_WEIRD_TX_LENGTH /\ (k < message_size)%nat \/
     o = Killed /\ TxSigpipe ∈ tx s).
Proof.
  intros Hlen.
  destruct (socket_send_loop_wire message message_size _ 0%nat s eq_refl Hlen ltac:(lia))
    as (sent' & s1 & o & Hl & Hb & Hw & Hr & Hop & Ho).
  rewrite Nat.sub_0_r, drop_0 in Hw.
  unfold socket_send. rewrite Hl.
  destruct Ho as [-> | [-> | [-> Hsig]]].
  - destruct (decide (sent' <> message_size)) as [Hne|Heq].
    + exists sent', s1, (Exit EXIT_SOCKET_WEIRD_TX_LENGTH).
      repeat split; try done; try lia. right. right. left. split; [done | lia].
    + exists sent', s1, (Ret ()). repeat split; try done; try lia.
      left. split; [done | lia].
  - exists sent', s1, (Exit EXIT_SOCKET_SEND_FAILED).
    repeat split; try done; try lia. right. by left.
  - exists sent', s1, Killed.
    repeat split; try done; try lia. right. right. right. by split.
Qed.

Lemma X1_socket_send_prefix_witness :
  (5 <= length (lit "hello"))%nat /\
  exists k s1 o,
    socket_send (lit "hello") 5
      {| rx := []; tx := [TxTake 2; TxSigpipe]; wire := lit "> "; is_open := true |}
    = (o, s1) /\
    (k <= 5)%nat /\
    wire s1 = lit "> " ++ take k (lit "hello") /\
    rx s1 = [] /\ is_open s1 = true /\
    (o = Ret () /\ k = 5%nat \/
     o = Exit EXIT_SOCKET_SEND_FAILED \/
     o = Exit EXIT_SOCKET_WEIRD_TX_LENGTH /\ (k < 5)%nat \/
     o = Killed /\ TxSigpipe ∈ [TxTake 2; TxSigpipe]).
Proof.
  split; [simpl; lia|].
  apply (X1_socket_send_prefix (lit "hello") 5
           {| rx := []; tx := [TxTake 2; TxSigpipe]; wire := lit "> "; is_open := true |}).
  simpl. lia.
Defined.

(** X2: when each call of [send] takes at least one byte, however few,
    [socket_send] loops until the whole message is on the wire and
    returns; it makes at most as many calls as the message has bytes (one
    call for an empty message). *)
Theorem X2_socket_send_partial_writes message message_size s :
  (message_size <= length message)%nat ->
  tx_accepts (Nat.max 1 message_size) (tx s) = true ->
  exists s1 calls,
    socket_send message message_size s = (Ret (), s1) /\
    wire s1 = wire s ++ take message_size message /\
    (calls <= Nat.max 1 message_size)%nat /\ tx s1 = drop calls (tx s).
Proof.
  intros Hlen Htx.
  assert (forall n sent s0 k,
    (message_size - sent)%nat = n -> (sent <= message_size)%nat ->
    tx_accepts k (tx s0) = true -> (Nat.max 1 (message_size - sent) <= k)%nat ->
    exists s1 calls,
      socket_send_loop message message_size sent s0 = (Ret message_size, s1) /\
      wire s1 = wire s0 ++ take (message_size - sent) (drop sent message) /\
      (calls <= Nat.max 1 (message_size - sent))%nat /\ tx s1 = drop calls (tx s0)) as Hloop.
  { induction n as [n IH] using lt_wf_ind. intros sent s0 k Hn Hsent Hacc Hk.
    rewrite socket_send_loop_eq. unfold send.
    destruct k as [|k]; [lia|]. simpl in Hacc.
    destruct (tx s0) as [|[m| |] tx'] eqn:Htx0; try done.
    apply andb_true_iff in Hacc as [Hm Hacc]. apply bool_decide_eq_true in Hm.
    set (chunk := take (message_size - sent) (drop sent message)) in *.
    assert (length chunk = (message_size - sent)%nat) as Hchunk.
    { unfold chunk. rewrite length_take, length_drop. lia. }
    rewrite length_take, Hchunk.
    destruct (decide (m `min` (message_size - sent) = 0)%nat) as [H0|H0].
    - assert (message_size = sent) as Heq by lia.
      eexists _, 1%nat. split; [by rewrite Heq|].
      cbn [wire tx]. rewrite ?Htx0. cbn [drop]. rewrite ?drop_0. repeat split; try done; try lia.
      assert (chunk = []) as -> by (apply length_zero_iff_nil; lia).
      by rewrite take_nil.
    - destruct (decide (sent + m `min` (message_size - sent) < message_size)%nat) as [Hlt|Hge].
      + edestruct (IH (message_size - (sent + m `min` (message_size - sent)))%nat
                     ltac:(lia) (sent + m `min` (message_size - sent))%nat
                     {| rx := rx s0; tx := tx'; wire := wire s0 ++ take m chunk;
                        is_open := is_open s0 |} k eq_refl ltac:(lia) Hacc ltac:(lia))
          as (s2 & calls & Hl2 & Hw2 & Hc & Ht).
        rewrite Hl2.
        exists s2, (S calls). split; [done|]. cbn [wire tx] in *. rewrite ?Htx0. cbn [drop].
        repeat split; try done; try lia.
        rewrite Hw2, <- app_assoc. f_equal. unfold chunk. rewrite take_take.
        replace (m `min` (message_size - sent))%nat with m by lia.
        rewrite <- drop_drop, take_take_drop. f_equal. lia.
      + eexists _, 1%nat. split; [do 2 f_equal; lia|].
        cbn [wire tx] in *. rewrite ?Htx0. cbn [drop]. rewrite ?drop_0.
        repeat split; try done; try lia.
        f_equal. unfold chunk. rewrite take_take. f_equal. lia. }
  destruct (Hloop _ 0%nat s (Nat.max 1 message_size) eq_refl ltac:(lia) Htx)
    as (s1 & calls & Hl & Hw & Hc & Ht).
  { rewrite Nat.sub_0_r. lia. }
  rewrite Nat.sub_0_r, drop_0 in *. unfold socket_send. rewrite Hl.
  rewrite decide_False by (intros ?; lia). by exists s1, calls.
Qed.

Lemma X2_socket_send_partial_writes_witness :
  (5 <= length (lit "hello"))%nat /\
  tx_accepts (Nat.max 1 5) [TxTake 1; TxTake 3; TxTake 7; TxTake 1; TxTake 1] = true /\
  exists s1 calls,
    socket_send (lit "hello") 5
      {| rx := []; tx := [TxTake 1; TxTake 3; TxTake 7; TxTake 1; TxTake 1];
         wire := []; is_open := true |} = (Ret (), s1) /\
    wire s1 = [] ++ take 5 (lit "hello") /\
    (calls <= Nat.max 1 5)%nat /\
    tx s1 = drop calls [TxTake 1; TxTake 3; TxTake 7; TxTake 1; TxTake 1].
Proof.
  split; [simpl; lia|]. split; [reflexivity|].
  apply (X2_socket_send_partial_writes (lit "hello") 5
           {| rx := []; tx := [TxTake 1; TxTake 3; TxTake 7; TxTake 1; TxTake 1];
              wire := []; is_open := true |}).
  - simpl. lia.
  - reflexivity.
Defined.

(** ** child_handle_client *)

(** [socket_read] does not send, and closes the connection exactly when
    it exits. *)
Lemma socket_read_loop_frame max_size n : forall received in_buf s,
  Z.to_nat (max_size - received) = n ->
  match socket_read_loop max_size received in_buf s with
  | (Ret _, s1) => tx s1 = tx s /\ wire s1 = wire s /\ is_open s1 = is_open s
  | (Exit e, s1) =>
      tx s1 = tx s /\ wire s1 = wire s /\ is_open s1 = false /\
      e = EXIT_SOCKET_READ_FAILED
  | (Killed, _) => False
  end.
Proof.
  induction n as [n IH] using lt_wf_ind. intros received in_buf s Hn.
  rewrite socket_read_loop_eq.
  destruct (read (max_size - received) s) as [[bytes|] s1] eqn:Hread.
  - apply read_Some in Hread as (Hcount & _ & _ & _ & Htx & Hwire & Hopen).
    destruct (decide (length bytes = 0%nat)) as [H0|H0]; [done|].
    destruct (decide (received + Z.of_nat (length bytes) < max_size)) as [Hlt|Hge]; [|done].
    specialize (IH (Z.to_nat (max_size - (received + Z.of_nat (length bytes))))
                  ltac:(lia) (received + Z.of_nat (length bytes)) (in_buf ++ bytes) s1 eq_refl).
    destruct (socket_read_loop max_size _ _ s1) as [[[r b]|e|] s2]; [| |done].
    + destruct IH as (-> & -> & ->). done.
    + destruct IH as (-> & -> & -> & ->). done.
  - unfold read in Hread. destruct (rx s) as [|[c bs| |] rest]; try done;
      injection Hread as <-; done.
Qed.

Lemma socket_read_frame min_size max_size s :
  match socket_read min_size max_size s with
  | (Ret _, s1) => tx s1 = tx s /\ wire s1 = wire s /\ is_open s1 = is_open s
  | (Exit e, s1) =>
      tx s1 = tx s /\ wire s1 = wire s /\ is_open s1 = false /\
      (e = EXIT_SOCKET_READ_FAILED \/ e = EXIT_SOCKET_WEIRD_RX_LENGTH)
  | (Killed, _) => False
  end.
Proof.
  unfold socket_read.
  pose proof (socket_read_loop_frame max_size _ 0 [] s eq_refl) as H.
  destruct (socket_read_loop max_size 0 [] s) as [[[r b]|e|] s1]; [| |done].
  - destruct H as (Ht & Hw & Ho). case_decide; [|done].
    cbn [diag_fatal close tx wire is_open]. auto.
  - destruct H as (Ht & Hw & Ho & ->). auto.
Qed.

(** The comparison with [GET ] looks at the first four bytes received. *)
Lemma strncmp_GET buf :
  strncmp_eq (c_str buf) (lit "GET ") 4 = true <-> take 4 buf = lit "GET ".
Proof.
  change 4%nat with (length (lit "GET ")) at 1.
  rewrite strncmp_eq_take.
  2:{ intros H. vm_compute in H. repeat (apply elem_of_cons in H as [H|H]; [done|]).
      by apply elem_of_nil in H. }
  change (length (lit "GET ")) with 4%nat.
  split.
  - intros H.
    destruct buf as [|c1 [|c2 [|c3 [|c4 buf]]]]; simpl in H;
      repeat (case_decide; simplify_eq/=); try done.
  - intros H.
    destruct buf as [|c1 [|c2 [|c3 [|c4 buf]]]]; simpl in H; try done.
    injection H as -> -> -> ->. done.
Qed.

(** One [socket_send] seen on the wire. *)
Lemma socket_send_result message message_size s :
  (message_size <= length message)%nat ->
  exists out,
    wire (snd (socket_send message message_size s)) = wire s ++ out /\
    rx (snd (socket_send message message_size s)) = rx s /\
    is_open (snd (socket_send message message_size s)) = is_open s /\
    send_result (take message_size message) out (fst (socket_send message message_size s)).
Proof.
  intros Hlen.
  destruct (socket_send_loop_wire message message_size _ 0%nat s eq_refl Hlen ltac:(lia))
    as (k & s1 & o & Hl & Hk & Hw & Hr & Hop & Ho).
  rewrite Nat.sub_0_r, drop_0 in Hw.
  exists (take k message). unfold socket_send. rewrite Hl.
  assert (take k message `prefix_of` take message_size message) as Hpre.
  { replace k with (k `min` message_size)%nat by lia.
    rewrite <- take_take. apply prefix_take. }
  destruct Ho as [-> | [-> | [-> _]]];
    [|repeat split; try done; right; split; [by left | done]
     |repeat split; try done; right; split; [by right; right | done]].
  destruct (decide (k <> message_size)) as [Hne|Heq]; cbn [fst snd diag_fatal].
  - repeat split; try done. right. split; [right; by left | done].
  - repeat split; try done. left. split; [done|]. f_equal. lia.
Qed.

(** Sending the response for an entry: the header, then the blob. *)
Lemma send_response status d ns :
  (blob_get_size d <= length (blob_get_data d))%nat ->
  exists out,
    wire (snd (respond status d ns)) = wire ns ++ out /\
    send_result (response status d) out (fst (respond status d ns)) /\
    is_open (snd (respond status d ns))
    = match fst (respond status d ns) with Ret _ => false | _ => is_open ns end.
Proof.
  intros Hd. unfold respond. cbn zeta.
  destruct (socket_send_result (response_header status (blob_get_size d))
              (strlen (response_header status (blob_get_size d))) ns ltac:(done))
    as (out1 & Hw1 & _ & Ho1 & Hr1).
  rewrite firstn_all in Hr1.
  destruct (socket_send (response_header _ _) _ ns) as [[[]|e|] ns2]; cbn [fst snd] in *.
  - destruct Hr1 as [[_ ->]|[[?|[?|?]] _]]; [|done..].
    destruct (socket_send_result (blob_get_data d) (blob_get_size d) ns2 Hd)
      as (out2 & Hw2 & _ & Ho2 & Hr2).
    destruct (socket_send (blob_get_data d) _ ns2) as [[[]|e|] ns3]; cbn [fst snd] in *.
    + destruct Hr2 as [[_ ->]|[[?|[?|?]] _]]; [|done..].
      eexists. cbn [close wire is_open]. rewrite Hw2, Hw1, <- app_assoc.
      split; [done|]. split; [by left | done].
    + destruct Hr2 as [[? _]|[He Hpre]]; [done|].
      eexists. rewrite Hw2, Hw1, <- app_assoc. split; [done|].
      split; [|congruence]. right. split; [done|]. by apply prefix_app.
    + destruct Hr2 as [[? _]|[He Hpre]]; [done|].
      eexists. rewrite Hw2, Hw1, <- app_assoc. split; [done|].
      split; [|congruence]. right. split; [done|]. by apply prefix_app.
  - destruct Hr1 as [[? _]|[He Hpre]]; [done|].
    exists out1. split; [done|]. split; [|done].
    right. split; [done|]. by apply prefix_app_r.
  - destruct Hr1 as [[? _]|[He Hpre]]; [done|].
    exists out1. split; [done|]. split; [|done].
    right. split; [done|]. by apply prefix_app_r.
Qed.

(** The handler by the path it looks up. *)
Lemma child_handle_client_eq t ld ns :
  child_handle_client t ld ns =
  match socket_read 5 (max_path_len ld + 5) ns with
  | (Exit e, ns1) => (Exit e, ns1)
  | (Killed, ns1) => (Killed, ns1)
  | (Ret in_buf, ns1) =>
      match request_path in_buf with
      | None =>
          (Exit (if bool_decide (take 4 in_buf = lit "GET ")
                 then EXIT_WEIRD_REQUEST_PATH else EXIT_NON_GET_REQUEST), ns1)
      | Some p =>
          match h_entries t !! p with
          | Some d => respond (lit "200 OK") d ns1
          | None =>
              match h_entries t !! notfound_route ld with
              | Some d => respond (lit "404 NOT FOUND") d ns1
              | None =>
                  match socket_send fallback_err_response
                          (strlen fallback_err_response) ns1 with
                  | (Exit e, ns2) => (Exit e, ns2)
                  | (Killed, ns2) => (Killed, ns2)
                  | (Ret _, ns2) => (Exit EXIT_NOTFOUND_NOT_FOUND, close ns2)
                  end
              end
          end
      end
  end.
Proof.
  unfold child_handle_client, request_path, respond.
  destruct (socket_read 5 (max_path_len ld + 5) ns) as [[in_buf|e|] ns1]; [|done..].
  destruct (strncmp_eq (c_str in_buf) (lit "GET ") 4) eqn:Hget; cbn [negb].
  2:{ rewrite bool_decide_eq_false_2; [done|].
      intros H. apply strncmp_GET in H. congruence. }
  apply strncmp_GET in Hget. rewrite (bool_decide_eq_true_2 _ Hget).
  destruct (strtok_r (c_str (drop 4 in_buf)) delimiters) as [p|]; [|done].
  destruct (bool_decide (char0 p = slash)) eqn:Hslash; cbn [negb].
  2:{ by rewrite orb_true_r. }
  apply bool_decide_eq_true in Hslash.
  rewrite bool_decide_eq_false_2, orb_false_l
    by (destruct p; [discriminate Hslash | simpl; lia]).
  rewrite !hsearch_FIND.
  destruct (h_entries t !! p) as [d|]; cbn [fmap option_fmap option_map data]; [done|].
  destruct (h_entries t !! notfound_route ld) as [d|];
    cbn [fmap option_fmap option_map data]; done.
Qed.

(** The exits of [socket_send], whatever it is given. *)
Lemma socket_send_loop_exits message message_size n : forall sent s e s1,
  (message_size - sent)%nat = n ->
  socket_send_loop message message_size sent s = (Exit e, s1) ->
  e = EXIT_SOCKET_SEND_FAILED.
Proof.
  induction n as [n IH] using lt_wf_ind. intros sent s e s1 Hn.
  rewrite socket_send_loop_eq.
  destruct (send _ s) as [[bytes| |] s2]; [|by intros [= <- _]|done].
  destruct (decide (bytes = 0%nat)); [done|].
  destruct (decide (sent + bytes < message_size)%nat); [|done].
  apply (IH (message_size - (sent + bytes))%nat); [lia | done].
Qed.

Lemma socket_send_exits message message_size s e s1 :
  socket_send message message_size s = (Exit e, s1) ->
  e = EXIT_SOCKET_SEND_FAILED \/ e = EXIT_SOCKET_WEIRD_TX_LENGTH.
Proof.
  unfold socket_send.
  destruct (socket_send_loop message message_size 0 s) as [[sent|e'|] s2] eqn:Hl.
  - case_decide; [|done]. intros [= <- _]. by right.
  - intros [= <- _]. left. by eapply socket_send_loop_exits.
  - done.
Qed.

(** The exits of the handler once it has a path to look up. *)
Lemma respond_exits status (d : option Blob) ns1 e ns' :
  respond status d ns1 = (Exit e, ns') ->
  e = EXIT_SOCKET_SEND_FAILED \/ e = EXIT_SOCKET_WEIRD_TX_LENGTH.
Proof.
  unfold respond. cbn zeta.
  destruct (socket_send (response_header _ _) _ ns1) as [[[]|e1|] ns2] eqn:H1.
  - destruct (socket_send (blob_get_data d) _ ns2) as [[[]|e2|] ns3] eqn:H2; [done| |done].
    intros [= <- _]. by eapply socket_send_exits.
  - intros [= <- _]. by eapply socket_send_exits.
  - done.
Qed.

(** X3: a request whose first four bytes are not [GET ] ends the handler
    with [EXIT_NON_GET_REQUEST], and no other request does; nothing has
    been sent, and the handler has not closed the connection (the exit of
    the process does). *)
Theorem X3_non_get_rejected t ld ns ns' :
  child_handle_client t ld ns = (Exit EXIT_NON_GET_REQUEST, ns') <->
  exists in_buf,
    socket_read 5 (max_path_len ld + 5) ns = (Ret in_buf, ns') /\
    take 4 in_buf <> lit "GET " /\
    wire ns' = wire ns /\ is_open ns' = is_open ns.
Proof.
  rewrite child_handle_client_eq.
  pose proof (socket_read_frame 5 (max_path_len ld + 5) ns) as Hfr.
  destruct (socket_read 5 (max_path_len ld + 5) ns) as [[in_buf|e|] ns1]; [| |done].
  - destruct Hfr as (_ & Hw & Ho).
    destruct (request_path in_buf) as [p|] eqn:Hp.
    + split.
      * intros H. exfalso.
        destruct (h_entries t !! p) as [d|];
          [by apply respond_exits in H as [|]|].
        destruct (h_entries t !! notfound_route ld) as [d|];
          [by apply respond_exits in H as [|]|].
        destruct (socket_send fallback_err_response _ ns1) as [[[]|e|] ns2] eqn:Hs;
          [done| |done].
        injection H as -> ->. by apply socket_send_exits in Hs as [|].
      * intros (in_buf' & [= <- <-] & Hne & _). exfalso.
        apply request_path_Some in Hp as (Hget & _). by apply strncmp_GET in Hget.
    + case_bool_decide as Hget.
      * split; [done|]. intros (in_buf' & [= <- <-] & Hne & _). done.
      * split.
        -- intros [= <-]. by exists in_buf.
        -- intros (in_buf' & [= <- <-] & _). done.
  - destruct Hfr as (_ & _ & _ & He). split.
    + intros [= -> <-]. by destruct He.
    + intros (in_buf & ? & _). done.
Qed.

Lemma X3_non_get_rejected_witness :
  exists ns',
    child_handle_client {| h_entries := ∅; h_cap := None |}
      (mkLoopData 1 1 (lit "/404.html") 10)
      (client [RxData "P" (lit "OST /x "); RxClose])
    = (Exit EXIT_NON_GET_REQUEST, ns').
Proof.
  eexists.
  apply (proj2 (X3_non_get_rejected {| h_entries := ∅; h_cap := None |}
                  (mkLoopData 1 1 (lit "/404.html") 10)
                  (client [RxData "P" (lit "OST /x "); RxClose]) _)).
  exists (lit "POST /x ").
  split; [vm_compute; reflexivity|].
  split; [discriminate|]. split; reflexivity.
Defined.

Lemma NUL_not_delimiter : NUL ∉ delimiters.
Proof.
  intros H. repeat (apply elem_of_cons in H as [H|H]; [discriminate H|]).
  by apply elem_of_nil in H.
Qed.

Lemma skip_delims_app delim ds s :
  Forall (fun c => c ∈ delim) ds -> skip_delims delim (ds ++ s) = skip_delims delim s.
Proof.
  induction 1 as [|c ds Hc _ IH]; [done|].
  simpl. by rewrite bool_decide_eq_true_2.
Qed.

(** X4: a request that is [GET ], any number of delimiters (space, CR,
    LF, tab) and then either nothing, a NUL or a token that does not
    begin with a slash ends the handler with [EXIT_WEIRD_REQUEST_PATH];
    nothing has been sent and the handler has not closed the
    connection. *)
Theorem X4_weird_path_rejected t ld ns ns1 ds rest :
  socket_read 5 (max_path_len ld + 5) ns = (Ret (lit "GET " ++ ds ++ rest), ns1) ->
  Forall (fun c => c ∈ delimiters) ds ->
  char0 rest ∉ slash :: delimiters ->
  child_handle_client t ld ns = (Exit EXIT_WEIRD_REQUEST_PATH, ns1) /\
  wire ns1 = wire ns /\ is_open ns1 = is_open ns.
Proof.
  intros Hread Hds Hrest.
  pose proof (socket_read_frame 5 (max_path_len ld + 5) ns) as Hfr.
  rewrite child_handle_client_eq, Hread. rewrite Hread in Hfr.
  destruct Hfr as (_ & Hw & Ho). split; [|done].
  assert (request_path (lit "GET " ++ ds ++ rest) = None) as ->.
  { unfold request_path.
    rewrite (proj2 (strncmp_GET _)) by done.
    change (drop 4 (lit "GET " ++ ds ++ rest)) with (ds ++ rest).
    rewrite c_str_app.
    2:{ intros HN. apply NUL_not_delimiter.
        by apply (proj1 (Forall_forall _ _) Hds). }
    unfold strtok_r. rewrite skip_delims_app by done.
    destruct rest as [|c rest']; [done|]. simpl.
    destruct (decide (c = NUL)); [done|].
    assert (c ∉ delimiters) as Hc
      by (intros Hc; apply Hrest; by apply list_elem_of_further).
    cbn [skip_delims]. rewrite (bool_decide_eq_false_2 (c ∈ delimiters)) by done.
    cbn [upto_delim]. rewrite (bool_decide_eq_false_2 (c ∈ delimiters)) by done.
    rewrite bool_decide_eq_false_2; [done|].
    intros Hs. apply Hrest. simpl in Hs. simpl. rewrite Hs. apply list_elem_of_here. }
  by rewrite bool_decide_eq_true_2.
Qed.

Lemma X4_weird_path_rejected_witness :
  exists ns1,
    socket_read 5 (max_path_len (mkLoopData 1 1 (lit "/404.html") 20) + 5)
      (client [RxData "G" (lit "ET "); RxData TAB (lit "index.html "); RxClose])
    = (Ret (lit "GET " ++ [TAB] ++ lit "index.html "), ns1) /\
    child_handle_client {| h_entries := ∅; h_cap := None |}
      (mkLoopData 1 1 (lit "/404.html") 20)
      (client [RxData "G" (lit "ET "); RxData TAB (lit "index.html "); RxClose])
    = (Exit EXIT_WEIRD_REQUEST_PATH, ns1) /\
    wire ns1 = [] /\ is_open ns1 = true.
Proof.
  eexists. split; [vm_compute; reflexivity|].
  apply (X4_weird_path_rejected {| h_entries := ∅; h_cap := None |}
           (mkLoopData 1 1 (lit "/404.html") 20)
           (client [RxData "G" (lit "ET "); RxData TAB (lit "index.html "); RxClose])
           _ [TAB] (lit "index.html ")).
  - vm_compute. reflexivity.
  - constructor; [|constructor]. do 3 apply list_elem_of_further. apply list_elem_of_here.
  - apply (bool_decide_unpack _). vm_compute. exact I.
Defined.

(** X5: when the requested path misses the table and the configured
    not-found route is in it, the handler answers with the status line
    [HTTP/1.1 404 NOT FOUND], the size and the bytes of the blob stored
    under the not-found route, closes the connection and returns: the
    child ends with [EXIT_OK]. *)
Theorem X5_notfound_route_served t ld ns in_buf ns1 p d :
  socket_read 5 (max_path_len ld + 5) ns = (Ret in_buf, ns1) ->
  request_path in_buf = Some p ->
  h_entries t !! p = None ->
  h_entries t !! notfound_route ld = Some d ->
  (blob_get_size d <= length (blob_get_data d))%nat ->
  tx_accepts (strlen (response_header (lit "404 NOT FOUND") (blob_get_size d))
              + Nat.max 1 (blob_get_size d)) (tx ns) = true ->
  exists ns',
    child_handle_client t ld ns = (Ret (), ns') /\
    wire ns' = wire ns ++ lit "HTTP/1.1 404 NOT FOUND" ++ [CR; LF] ++
               lit "Content-Length: " ++ fmt_zu (blob_get_size d) ++ [CR; LF; CR; LF] ++
               take (blob_get_size d) (blob_get_data d) /\
    is_open ns' = false /\
    accept_next_connection t ld (Forked ns) = (Ret (), Some (EXIT_OK, ns')).
Proof.
  intros Hread Hp Hmiss Hnf Hd Htx.
  pose proof (socket_read_frame 5 (max_path_len ld + 5) ns) as Hfr.
  rewrite Hread in Hfr. destruct Hfr as (Htx1 & Hw1 & _).
  assert (exists ns', child_handle_client t ld ns = (Ret (), ns') /\
            wire ns' = wire ns ++ response (lit "404 NOT FOUND") d /\ is_open ns' = false)
    as (ns' & Hc & Hw & Ho).
  { rewrite child_handle_client_eq, Hread, Hp. cbn zeta. rewrite Hmiss, Hnf.
    unfold respond. cbn zeta.
    pose proof (response_header_length (lit "404 NOT FOUND") (blob_get_size d)) as Hhdr.
    destruct (socket_send_spec (response_header (lit "404 NOT FOUND") (blob_get_size d))
                (strlen (response_header (lit "404 NOT FOUND") (blob_get_size d))) ns1
                (strlen (response_header (lit "404 NOT FOUND") (blob_get_size d))
                 + Nat.max 1 (blob_get_size d)))
      as (ns2 & -> & Hw2 & Htx2 & _ & _); [done | by rewrite Htx1 | lia |].
    destruct (socket_send_spec (blob_get_data d) (blob_get_size d) ns2
                (strlen (response_header (lit "404 NOT FOUND") (blob_get_size d))
                 + Nat.max 1 (blob_get_size d)
                 - Nat.max 1 (strlen (response_header (lit "404 NOT FOUND") (blob_get_size d)))))
      as (ns3 & -> & Hw3 & _ & _ & _); [done | exact Htx2 | lia |].
    exists (close ns3). split; [done|]. split; [|done].
    cbn [close wire]. rewrite Hw3, Hw2, Hw1.
    rewrite (take_ge (response_header _ _)) by done.
    unfold response. by rewrite <- app_assoc. }
  exists ns'. split; [done|]. split; [|split; [done|]].
  - rewrite Hw. unfold response, response_header. by rewrite <- !app_assoc.
  - unfold accept_next_connection. by rewrite Hc.
Qed.

Lemma X5_notfound_route_served_witness :
  exists st,
    scan_web_root None (lit "www") www = Ret st /\
    exists ns',
      child_handle_client (table st) (mkLoopData 1 1 (lit "/a b.txt") (max_path_len_out st))
        (client [RxData "G" (lit "ET /nothing "); RxClose])
      = (Ret (), ns') /\
      wire ns' = wire (client [RxData "G" (lit "ET /nothing "); RxClose]) ++
                 lit "HTTP/1.1 404 NOT FOUND" ++ [CR; LF] ++
                 lit "Content-Length: " ++
                 fmt_zu (blob_get_size (Some {| b_length := 6; b_data := lit "spaced" |})) ++
                 [CR; LF; CR; LF] ++
                 take (blob_get_size (Some {| b_length := 6; b_data := lit "spaced" |}))
                   (blob_get_data (Some {| b_length := 6; b_data := lit "spaced" |})) /\
      is_open ns' = false /\
      accept_next_connection (table st)
        (mkLoopData 1 1 (lit "/a b.txt") (max_path_len_out st))
        (Forked (client [RxData "G" (lit "ET /nothing "); RxClose]))
      = (Ret (), Some (EXIT_OK, ns')).
Proof.
  let v := eval vm_compute in (scan_web_root None (lit "www") www) in
  match v with Ret ?s => exists s end.
  split; [vm_compute; reflexivity|].
  apply (X5_notfound_route_served _ _ _ (lit "GET /nothing ")
           {| rx := [RxClose]; tx := replicate 100 (TxTake 1000); wire := [];
              is_open := true |}
           (lit "/nothing")).
  - vm_compute. reflexivity.
  - vm_compute. reflexivity.
  - vm_compute. reflexivity.
  - vm_compute. reflexivity.
  - simpl. lia.
  - vm_compute. reflexivity.
Defined.

(** [socket_send] neither reads nor closes. *)
Lemma socket_send_loop_frame message message_size n : forall sent s,
  (message_size - sent)%nat = n ->
  rx (snd (socket_send_loop message message_size sent s)) = rx s /\
  is_open (snd (socket_send_loop message message_size sent s)) = is_open s.
Proof.
  induction n as [n IH] using lt_wf_ind. intros sent s Hn.
  rewrite socket_send_loop_eq. unfold send.
  destruct (tx s) as [|[m| |] tx']; [done| |done..].
  set (bytes := length (take m (take (message_size - sent) (drop sent message)))).
  destruct (decide (bytes = 0%nat)); [done|].
  destruct (decide (sent + bytes < message_size)%nat) as [Hlt|]; [|done].
  edestruct (IH (message_size - (sent + bytes))%nat) as [-> ->];
    [lia | reflexivity | done].
Qed.

Lemma socket_send_frame message message_size s :
  rx (snd (socket_send message message_size s)) = rx s /\
  is_open (snd (socket_send message message_size s)) = is_open s.
Proof.
  unfold socket_send.
  pose proof (socket_send_loop_frame message message_size _ 0%nat s eq_refl) as H.
  destruct (socket_send_loop message message_size 0 s) as [[sent|e|] s1]; [|done..].
  by case_decide.
Qed.

(** What the handler sends, by the entry it has found. *)
Lemma child_handle_client_sends t ld ns :
  blobs_sized t ->
  exists out,
    wire (snd (child_handle_client t ld ns)) = wire ns ++ out /\
    ((out = [] /\ fst (child_handle_client t ld ns) <> Ret ()) \/
     (out `prefix_of` fallback_err_response /\
      fst (child_handle_client t ld ns) <> Ret ()) \/
     (exists status d,
        (status = lit "200 OK" /\ (exists p, h_entries t !! p = Some d) \/
         status = lit "404 NOT FOUND" /\ h_entries t !! notfound_route ld = Some d) /\
        send_result (response status d) out (fst (child_handle_client t ld ns)) /\
        is_open (snd (child_handle_client t ld ns))
        = match fst (child_handle_client t ld ns) with
          | Ret _ => false
          | _ => is_open ns
          end)).
Proof.
  intros Hsized. rewrite child_handle_client_eq.
  pose proof (socket_read_frame 5 (max_path_len ld + 5) ns) as Hfr.
  destruct (socket_read 5 (max_path_len ld + 5) ns) as [[in_buf|e|] ns1]; [| |done].
  2:{ destruct Hfr as (_ & Hw & _). exists []. cbn [fst snd]. rewrite app_nil_r.
      split; [done|]. left. split; done. }
  destruct Hfr as (_ & Hw & Hopen).
  destruct (request_path in_buf) as [p|].
  2:{ exists []. cbn [fst snd]. rewrite app_nil_r.
      split; [done|]. left. split; done. }
  destruct (h_entries t !! p) as [d|] eqn:Hp.
  { destruct (send_response (lit "200 OK") d ns1 (Hsized _ _ Hp)) as (out & Hw2 & Hr & Ho).
    exists out. rewrite Hw2, Hw. split; [done|].
    right. right. exists (lit "200 OK"), d.
    split; [left; split; [done | by exists p]|]. split; [done|]. by rewrite Ho, Hopen. }
  destruct (h_entries t !! notfound_route ld) as [d|] eqn:Hnf.
  { destruct (send_response (lit "404 NOT FOUND") d ns1 (Hsized _ _ Hnf))
      as (out & Hw2 & Hr & Ho).
    exists out. rewrite Hw2, Hw. split; [done|].
    right. right. exists (lit "404 NOT FOUND"), d.
    split; [by right|]. split; [done|]. by rewrite Ho, Hopen. }
  destruct (socket_send_result fallback_err_response (strlen fallback_err_response) ns1
              ltac:(done)) as (out & Hw2 & _ & _ & Hr).
  rewrite firstn_all in Hr.
  assert (out `prefix_of` fallback_err_response) as Hpre
    by (by destruct Hr as [[_ ->]|[_ ?]]).
  exists out.
  destruct (socket_send fallback_err_response _ ns1) as [[[]|e|] ns2]; cbn [fst snd] in *.
  - cbn [close wire]. rewrite Hw2, Hw. split; [done|].
    right. left. split; done.
  - rewrite Hw2, Hw. split; [done|]. right. left. split; done.
  - rewrite Hw2, Hw. split; [done|]. right. left. split; done.
Qed.

(** X6: the handler never sends anything but the first bytes of one of
    three responses: the fixed fallback 404, the not-found route's entry
    with the status 404, or an entry of the table with the status 200,
    each with the size and the bytes of the entry's blob.  When it
    returns it has sent one of the latter two in full and closed the
    connection. *)
Theorem X6_handler_sends_only_responses t ld ns :
  blobs_sized t ->
  exists out,
    wire (snd (child_handle_client t ld ns)) = wire ns ++ out /\
    (out `prefix_of` fallback_err_response \/
     (exists d, h_entries t !! notfound_route ld = Some d /\
        out `prefix_of` response (lit "404 NOT FOUND") d) \/
     (exists p d, h_entries t !! p = Some d /\
        out `prefix_of` response (lit "200 OK") d)) /\
    (fst (child_handle_client t ld ns) = Ret () ->
     is_open (snd (child_handle_client t ld ns)) = false /\
     ((exists d, h_entries t !! notfound_route ld = Some d /\
         out = response (lit "404 NOT FOUND") d) \/
      (exists p d, h_entries t !! p = Some d /\ out = response (lit "200 OK") d))).
Proof.
  intros Hsized.
  destruct (child_handle_client_sends t ld ns Hsized) as (out & Hw & Hout).
  exists out. split; [done|].
  destruct Hout as [[-> He]|[[Hpre He]|(status & d & Hst & Hr & Ho)]].
  - split; [left; apply prefix_nil|]. done.
  - split; [by left|]. done.
  - assert (out `prefix_of` response status d) as Hpre
      by (by destruct Hr as [[_ ->]|[_ ?]]).
    destruct Hst as [[-> [p Hp]]|[-> Hnf]].
    + split; [right; right; by exists p, d|]. intros Hret. rewrite Hret in Ho.
      split; [done|]. right. exists p, d. split; [done|].
      destruct Hr as [[_ ->]|[[He|[He|He]] _]]; [done|congruence..].
    + split; [right; left; by exists d|]. intros Hret. rewrite Hret in Ho.
      split; [done|]. left. exists d. split; [done|].
      destruct Hr as [[_ ->]|[[He|[He|He]] _]]; [done|congruence..].
Qed.

(** The blobs of a scan that returns hold as many bytes as they say. *)
Lemma scan_blobs_sized hcap path root st :
  scan_web_root hcap path root = Ret st -> blobs_sized (table st).
Proof.
  intros (_ & -> & Hfull)%scan_web_root_Ret k d Hk.
  apply foldl_record_lookup in Hk as [Hk|(p & f & Hin & _ & ->)].
  - cbn [table h_entries] in Hk. by rewrite lookup_empty in Hk.
  - cbn [blob_get_size blob_get_data].
    rewrite blob_of_full; [done|].
    by apply (proj1 (Forall_forall _ _) Hfull (p, f)).
Qed.

Lemma X6_handler_sends_only_responses_witness :
  exists st,
    scan_web_root None (lit "www") www = Ret st /\
    blobs_sized (table st) /\
    let r := child_handle_client (table st)
               (mkLoopData 1 1 (lit "/404.html") (max_path_len_out st))
               {| rx := [RxData "G" (lit "ET /dir "); RxClose];
                  tx := [TxTake 20; TxTake 0]; wire := []; is_open := true |} in
    exists out,
      wire (snd r) = [] ++ out /\
      (out `prefix_of` fallback_err_response \/
       (exists d, h_entries (table st) !! lit "/404.html" = Some d /\
          out `prefix_of` response (lit "404 NOT FOUND") d) \/
       (exists p d, h_entries (table st) !! p = Some d /\
          out `prefix_of` response (lit "200 OK") d)) /\
      (fst r = Ret () ->
       is_open (snd r) = false /\
       ((exists d, h_entries (table st) !! lit "/404.html" = Some d /\
           out = response (lit "404 NOT FOUND") d) \/
        (exists p d, h_entries (table st) !! p = Some d /\
           out = response (lit "200 OK") d))).
Proof.
  let v := eval vm_compute in (scan_web_root None (lit "www") www) in
  match v with Ret ?s => exists s end.
  split; [vm_compute; reflexivity|].
  split.
  - apply (scan_blobs_sized None (lit "www") www). vm_compute. reflexivity.
  - apply (X6_handler_sends_only_responses _
             (mkLoopData 1 1 (lit "/404.html") _)
             {| rx := [RxData "G" (lit "ET /dir "); RxClose];
                tx := [TxTake 20; TxTake 0]; wire := []; is_open := true |}).
    apply (scan_blobs_sized None (lit "www") www). vm_compute. reflexivity.
Defined.

(** X7: the exits of the handler.  It exits only with a code of the
    connection: a failed or short read (then it has closed the
    connection), a request that is not a GET or has no proper path, a
    failed or short send (then the connection is left to the exit of the
    process), or the not-found route missing.  A handler that exits
    before the lookup has sent nothing, and one that exits with
    [EXIT_NOTFOUND_NOT_FOUND] has sent the fallback response in full and
    closed the connection. *)
Theorem X7_handler_exits t ld ns e ns' :
  child_handle_client t ld ns = (Exit e, ns') ->
  e ∈ connection_exits /\
  (e ∈ [EXIT_SOCKET_READ_FAILED; EXIT_SOCKET_WEIRD_RX_LENGTH] ->
   is_open ns' = false /\ wire ns' = wire ns) /\
  (e ∈ [EXIT_NON_GET_REQUEST; EXIT_WEIRD_REQUEST_PATH] ->
   is_open ns' = is_open ns /\ wire ns' = wire ns) /\
  (e ∈ [EXIT_SOCKET_SEND_FAILED; EXIT_SOCKET_WEIRD_TX_LENGTH] ->
   is_open ns' = is_open ns) /\
  (e = EXIT_NOTFOUND_NOT_FOUND ->
   is_open ns' = false /\ wire ns' = wire ns ++ fallback_err_response).
Proof.
  rewrite child_handle_client_eq.
  pose proof (socket_read_frame 5 (max_path_len ld + 5) ns) as Hfr.
  assert (forall (x : tHTTPError) (l : list tHTTPError),
            x ∈ l -> bool_decide (x ∈ l) = true) as Hin
    by (intros; by apply bool_decide_eq_true_2).
  destruct (socket_read 5 (max_path_len ld + 5) ns) as [[in_buf|e1|] ns1]; [| |done].
  2:{ destruct Hfr as (_ & Hw & Ho & He). intros [= -> ->].
      destruct He as [-> | ->];
        (split; [apply (bool_decide_unpack _); vm_compute; exact I|]);
        repeat split; try done;
        (intros; exfalso; match goal with
                  | Hx : _ ∈ _ |- _ => apply Hin in Hx; vm_compute in Hx; discriminate Hx
                  end). }
  destruct Hfr as (_ & Hw & Ho).
  destruct (request_path in_buf) as [p|].
  2:{ intros [= <- ->].
      case_bool_decide;
        (split; [apply (bool_decide_unpack _); vm_compute; exact I|]);
        repeat split; try done;
        (intros; exfalso; match goal with
                  | Hx : _ ∈ _ |- _ => apply Hin in Hx; vm_compute in Hx; discriminate Hx
                  end). }
  assert (forall status (d : option Blob),
    respond status d ns1 = (Exit e, ns') ->
    (e = EXIT_SOCKET_SEND_FAILED \/ e = EXIT_SOCKET_WEIRD_TX_LENGTH) /\
    is_open ns' = is_open ns) as Hresp.
  { intros status d H. split; [by eapply respond_exits|].
    unfold respond in H. cbn zeta in H.
    pose proof (socket_send_frame (response_header status (blob_get_size d))
                  (strlen (response_header status (blob_get_size d))) ns1) as [_ Ho1].
    destruct (socket_send (response_header _ _) _ ns1) as [[[]|e1|] ns2]; cbn [snd] in Ho1;
      [| |done].
    - pose proof (socket_send_frame (blob_get_data d) (blob_get_size d) ns2) as [_ Ho2].
      destruct (socket_send (blob_get_data d) _ ns2) as [[[]|e2|] ns3]; [done| |done].
      cbn [snd] in Ho2. injection H as _ <-. congruence.
    - injection H as _ <-. congruence. }
  assert ((e = EXIT_SOCKET_SEND_FAILED \/ e = EXIT_SOCKET_WEIRD_TX_LENGTH) /\
          is_open ns' = is_open ns \/
          e = EXIT_NOTFOUND_NOT_FOUND /\ is_open ns' = false /\
          wire ns' = wire ns ++ fallback_err_response ->
          e ∈ connection_exits /\
          (e ∈ [EXIT_SOCKET_READ_FAILED; EXIT_SOCKET_WEIRD_RX_LENGTH] ->
           is_open ns' = false /\ wire ns' = wire ns) /\
          (e ∈ [EXIT_NON_GET_REQUEST; EXIT_WEIRD_REQUEST_PATH] ->
           is_open ns' = is_open ns /\ wire ns' = wire ns) /\
          (e ∈ [EXIT_SOCKET_SEND_FAILED; EXIT_SOCKET_WEIRD_TX_LENGTH] ->
           is_open ns' = is_open ns) /\
          (e = EXIT_NOTFOUND_NOT_FOUND ->
           is_open ns' = false /\ wire ns' = wire ns ++ fallback_err_response)) as Hfin.
  { intros [[[-> | ->] Hop]|(-> & Hop & Hwf)];
      (split; [apply (bool_decide_unpack _); vm_compute; exact I|]);
      repeat split; try done;
        (intros; exfalso; match goal with
                  | Hx : _ ∈ _ |- _ => apply Hin in Hx; vm_compute in Hx; discriminate Hx
                  end). }
  destruct (h_entries t !! p) as [d|]; [intros H; apply Hfin; left; by eapply Hresp|].
  destruct (h_entries t !! notfound_route ld) as [d|];
    [intros H; apply Hfin; left; by eapply Hresp|].
  destruct (socket_send_result fallback_err_response (strlen fallback_err_response) ns1
              ltac:(done)) as (out & Hw2 & _ & Ho2 & Hr).
  rewrite firstn_all in Hr.
  destruct (socket_send fallback_err_response _ ns1) as [[[]|e2|] ns2] eqn:Hs;
    cbn [fst snd] in *; [| |done]; intros [= <- <-]; apply Hfin.
  - right. destruct Hr as [[_ ->]|[[?|[?|?]] _]]; [|done..].
    cbn [close is_open wire]. by rewrite Hw2, Hw.
  - left. split; [by eapply socket_send_exits | congruence].
Qed.

Lemma X7_handler_exits_witness :
  exists ns',
    child_handle_client {| h_entries := ∅; h_cap := None |}
      (mkLoopData 1 1 (lit "/404.html") 10)
      {| rx := [RxData "G" (lit "ET /dir "); RxClose];
         tx := [TxTake 20; TxError]; wire := []; is_open := true |}
    = (Exit EXIT_SOCKET_SEND_FAILED, ns') /\
    EXIT_SOCKET_SEND_FAILED ∈ connection_exits /\
    is_open ns' = true.
Proof.
  eexists. split; [vm_compute; reflexivity|].
  destruct (X7_handler_exits {| h_entries := ∅; h_cap := None |}
              (mkLoopData 1 1 (lit "/404.html") 10)
              {| rx := [RxData "G" (lit "ET /dir "); RxClose];
                 tx := [TxTake 20; TxError]; wire := []; is_open := true |}
              EXIT_SOCKET_SEND_FAILED
              {| rx := [RxClose]; tx := []; wire := lit "HTTP/1.1 404 NOT FOU";
                 is_open := true |})
    as (Hin & _ & _ & Hop & _).
  - vm_compute. reflexivity.
  - split; [exact Hin|]. apply Hop. apply list_elem_of_here.
Defined.

(** ** The listener *)

(** A child that exits does so with a code of the connection. *)
Lemma child_status t ld ns e ns' :
  child_handle_client t ld ns = (Exit e, ns') -> e ∈ connection_exits.
Proof.
  intros Hc. rewrite child_handle_client_eq in Hc.
  pose proof (socket_read_frame 5 (max_path_len ld + 5) ns) as Hfr.
  assert (forall x : tHTTPError, bool_decide (x ∈ connection_exits) = true ->
            x ∈ connection_exits) as Hin by (intros x; apply bool_decide_eq_true_1).
  destruct (socket_read 5 (max_path_len ld + 5) ns) as [[in_buf|e1|] ns1]; [| |done].
  2:{ destruct Hfr as (_ & _ & _ & [-> | ->]); injection Hc as <- _; by apply Hin. }
  destruct (request_path in_buf) as [p|].
  2:{ injection Hc as <- _. case_bool_decide; by apply Hin. }
  destruct (h_entries t !! p) as [d|];
    [apply respond_exits in Hc as [-> | ->]; by apply Hin|].
  destruct (h_entries t !! notfound_route ld) as [d|];
    [apply respond_exits in Hc as [-> | ->]; by apply Hin|].
  destruct (socket_send fallback_err_response _ ns1) as [[[]|e2|] ns2] eqn:Hs; [| |done].
  - injection Hc as <- _. by apply Hin.
  - injection Hc as <- _. apply socket_send_exits in Hs as [-> | ->]; by apply Hin.
Qed.

(** [socket_send] uses up the transport from its head, and is killed
    only by a SIGPIPE that the transport holds. *)
Lemma socket_send_loop_tx message message_size n : forall sent s,
  (message_size - sent)%nat = n ->
  tx (snd (socket_send_loop message message_size sent s)) `suffix_of` tx s /\
  (fst (socket_send_loop message message_size sent s) = Killed -> TxSigpipe ∈ tx s).
Proof.
  induction n as [n IH] using lt_wf_ind. intros sent s Hn.
  rewrite socket_send_loop_eq. unfold send.
  destruct (tx s) as [|[m| |] tx'] eqn:Htx; cbn [fst snd tx].
  - by rewrite Htx.
  - set (bytes := length (take m (take (message_size - sent) (drop sent message)))).
    destruct (decide (bytes = 0%nat)); [split; [by apply suffix_cons_r | done]|].
    destruct (decide (sent + bytes < message_size)%nat) as [Hlt|];
      [|split; [by apply suffix_cons_r | done]].
    destruct (IH (message_size - (sent + bytes))%nat ltac:(lia) (sent + bytes)%nat
                {| rx := rx s; tx := tx';
                   wire := wire s ++ take m (take (message_size - sent) (drop sent message));
                   is_open := is_open s |} eq_refl) as [Hs Hk].
    cbn [tx] in Hs, Hk. split; [by apply suffix_cons_r|].
    intros H. apply list_elem_of_further. by apply Hk.
  - split; [by apply suffix_cons_r | done].
  - split; [by apply suffix_cons_r|]. intros _. apply list_elem_of_here.
Qed.

Lemma socket_send_tx message message_size s :
  tx (snd (socket_send message message_size s)) `suffix_of` tx s /\
  (fst (socket_send message message_size s) = Killed -> TxSigpipe ∈ tx s).
Proof.
  unfold socket_send.
  pose proof (socket_send_loop_tx message message_size _ 0%nat s eq_refl) as [Hs Hk].
  destruct (socket_send_loop message message_size 0 s) as [[sent|e|] s1];
    cbn [fst snd] in *; [|by split; auto..].
  by case_decide.
Qed.

(** A child is killed only by a SIGPIPE of its connection. *)
Lemma child_handle_client_Killed t ld ns :
  fst (child_handle_client t ld ns) = Killed -> TxSigpipe ∈ tx ns.
Proof.
  rewrite child_handle_client_eq.
  pose proof (socket_read_frame 5 (max_path_len ld + 5) ns) as Hfr.
  destruct (socket_read 5 (max_path_len ld + 5) ns) as [[in_buf|e|] ns1]; [|done..].
  destruct Hfr as (<- & _ & _).
  assert (forall status (d : option Blob),
            fst (respond status d ns1) = Killed -> TxSigpipe ∈ tx ns1) as Hresp.
  { intros status d. unfold respond. cbn zeta.
    pose proof (socket_send_tx (response_header status (blob_get_size d))
                  (strlen (response_header status (blob_get_size d))) ns1) as [Hs1 Hk1].
    destruct (socket_send (response_header _ _) _ ns1) as [[[]|e1|] ns2];
      cbn [fst snd] in *; [|done|by intros _; apply Hk1].
    pose proof (socket_send_tx (blob_get_data d) (blob_get_size d) ns2) as [_ Hk2].
    destruct (socket_send (blob_get_data d) _ ns2) as [[[]|e2|] ns3];
      cbn [fst snd] in *; [done..|].
    intros _. destruct Hs1 as [pre ->]. apply elem_of_app. right. by apply Hk2. }
  destruct (request_path in_buf) as [p|]; [|done].
  destruct (h_entries t !! p) as [d|]; [apply Hresp|].
  destruct (h_entries t !! notfound_route ld) as [d|]; [apply Hresp|].
  pose proof (socket_send_tx fallback_err_response (strlen fallback_err_response) ns1)
    as [_ Hk].
  destruct (socket_send fallback_err_response _ ns1) as [[[]|e2|] ns2];
    cbn [fst snd] in *; [done..|]. intros _. by apply Hk.
Qed.

(** X8: the listener's loop, where [setsockopt] and [asprintf] succeed
    in the children.  A failure of [accept] does not stop it; only a
    failure of [fork] does, with [EXIT_FORK_FAILED].  It forks one child
    for each connection accepted before that.  A child is killed by
    SIGPIPE only when it sends on a connection whose peer has closed it,
    and then leaves no exit status; every other child ends by [exit],
    with [EXIT_OK] or one of the codes of the connection, never with a
    code of the start-up or of the listener. *)
Theorem X8_listener_loop t ld evs :
  (fst (accept_loop t ld evs) = Ret () /\ rounds_before_fork_failure evs = evs \/
   fst (accept_loop t ld evs) = Exit EXIT_FORK_FAILED /\
   exists ns evs', evs = rounds_before_fork_failure evs ++ ForkFails ns :: evs') /\
  (length (snd (accept_loop t ld evs))
   + length (filter (fun ev => sigpipe_kills t ld ev = true)
               (rounds_before_fork_failure evs))
   = length (filter (fun ev => forks ev = true) (rounds_before_fork_failure evs)))%nat /\
  Forall (fun child => fst child = EXIT_OK \/ fst child ∈ connection_exits)
    (snd (accept_loop t ld evs)) /\
  Forall (fun ev => sigpipe_kills t ld ev = true ->
            exists ns, ev = Forked ns /\ TxSigpipe ∈ tx ns)
    (rounds_before_fork_failure evs).
Proof.
  induction evs as [|ev evs IH]; [by repeat split; auto|].
  destruct IH as (Hr & Hlen & Hch & Hk). cbn [accept_loop rounds_before_fork_failure].
  destruct ev as [|ns|ns]; cbn [accept_next_connection fork_fails diag_fatal_perror diag_fatal].
  - destruct (accept_loop t ld evs) as [r children]. cbn [fst snd option_list app] in *.
    rewrite !filter_cons_False by done.
    split; [|split; [done|split; [done|by constructor]]].
    destruct Hr as [[-> ->]|[-> (ns & evs' & Hev)]]; [by left | right].
    split; [done|]. exists ns, evs'. cbn [app]. by rewrite <- Hev.
  - cbn [fst snd option_list]. split; [|by repeat split].
    right. split; [done|]. by exists ns, evs.
  - destruct (accept_loop t ld evs) as [r children]. cbn [fst snd] in *.
    rewrite (filter_cons_True (fun ev => forks ev = true)) by done.
    split; [|split; [|split]].
    + destruct Hr as [[-> ->]|[-> (ns' & evs' & Hev)]]; [by left | right].
      split; [done|]. exists ns', evs'. cbn [app]. by rewrite <- Hev.
    + destruct (child_handle_client t ld ns) as [[[]|e|] ns'] eqn:Hc.
      * rewrite filter_cons_False by (cbn [sigpipe_kills]; by rewrite Hc).
        simpl. lia.
      * rewrite filter_cons_False by (cbn [sigpipe_kills]; by rewrite Hc).
        simpl. lia.
      * rewrite filter_cons_True by (cbn [sigpipe_kills]; by rewrite Hc).
        simpl. lia.
    + destruct (child_handle_client t ld ns) as [[[]|e|] ns'] eqn:Hc;
        cbn [option_list app]; [| |done].
      * constructor; [by left | done].
      * constructor; [right; by eapply child_status | done].
    + constructor; [|done]. cbn [sigpipe_kills]. intros H. exists ns. split; [done|].
      apply (child_handle_client_Killed t ld).
      by destruct (child_handle_client t ld ns) as [[[]|e|] ns'].
Qed.

(** ** The walk and the table *)

(** The insertions into a table with room for [n] entries return when
    the routes, those of the table and those of the files, are no more
    than [n], and exit when they are more. *)
Lemma enter_files_capacity b n files : forall st,
  h_cap (table st) = Some n ->
  (size (h_entries (table st)) <= n)%nat ->
  let routes : gset cstring :=
    dom (h_entries (table st))
    ∪ list_to_set (map (fun pf => route_of b (fst pf)) files) in
  ((size routes <= n)%nat ->
   exists st', enter_files b st files = Ret st' /\ dom (h_entries (table st')) = routes) /\
  ((n < size routes)%nat -> enter_files b st files = Exit EXIT_HSEARCH_TABLE_FULL).
Proof.
  induction files as [|pf files IH]; intros st Hcap Hsize; cbn zeta.
  - cbn [map list_to_set]. rewrite (right_id_L ∅ (∪)), size_dom.
    split; [by exists st | lia].
  - cbn [map list_to_set]. rewrite enter_files_cons.
    set (r := route_of b (fst pf)).
    set (L := list_to_set (map (fun pf => route_of b (fst pf)) files) : gset cstring).
    destruct (h_entries (table st) !! r) as [d|] eqn:Hl.
    + rewrite bool_decide_eq_false_2 by done. cbn [andb].
      assert (table (record_route b st pf) = table st) as Ht
        by (unfold record_route; cbn [table]; fold r; by rewrite Hl).
      assert (dom (h_entries (table st)) ∪ ({[r]} ∪ L) = dom (h_entries (table st)) ∪ L)
        as ->.
      { rewrite (assoc_L (∪)), (comm_L (∪) (dom _) {[r]}).
        rewrite (subseteq_union_1_L {[r]}); [done|].
        apply singleton_subseteq_l. by apply elem_of_dom_2 in Hl. }
      specialize (IH (record_route b st pf)). rewrite Ht in IH. by apply IH.
    + rewrite bool_decide_eq_true_2 by done. cbn [andb].
      apply not_elem_of_dom in Hl.
      unfold h_full. rewrite Hcap. case_bool_decide as Hfull.
      * split; [|done]. intros Hle. exfalso.
        assert (size (dom (h_entries (table st)) ∪ {[r]}) <= n)%nat as Hle'.
        { etrans; [|exact Hle]. apply subseteq_size, union_mono_l, union_subseteq_l. }
        rewrite size_union, size_singleton, size_dom in Hle'
          by (by apply disjoint_singleton_r). lia.
      * assert (h_entries (table (record_route b st pf))
                = <[r := Some (blob_of (snd pf))]> (h_entries (table st))) as He.
        { unfold record_route. cbn [table]. fold r.
          by rewrite (proj1 (not_elem_of_dom _ _) Hl). }
        assert (h_cap (table (record_route b st pf)) = Some n) as Hc.
        { unfold record_route. cbn [table]. fold r.
          by rewrite (proj1 (not_elem_of_dom _ _) Hl). }
        assert (dom (h_entries (table st)) ∪ ({[r]} ∪ L)
                = dom (h_entries (table (record_route b st pf))) ∪ L) as ->.
        { by rewrite He, dom_insert_L, (assoc_L (∪)), (comm_L (∪) (dom _) {[r]}). }
        apply IH; [done|]. rewrite He, map_size_insert_None; [lia|].
        by apply not_elem_of_dom.
Qed.

(** X9: on a platform whose hash table holds [n] entries, the scan of a
    hierarchy that is scannable returns when its files have at most [n]
    routes, with exactly these routes in the table, and exits with
    [EXIT_HSEARCH_TABLE_FULL] when they have more: a web root with more
    routes than the table holds is not served. *)
Theorem X9_scan_stops_at_capacity n path root :
  path <> [] ->
  scannable (fts_root_name path) (follow_root root) ->
  let routes : gset cstring :=
    list_to_set (map (fun pf => route_of (strlen path) (fst pf))
                   (routed_files path (fts_root_name path) (follow_root root))) in
  ((size routes <= n)%nat ->
   exists st, scan_web_root (Some n) path root = Ret st /\
              dom (h_entries (table st)) = routes) /\
  ((n < size routes)%nat ->
   scan_web_root (Some n) path root = Exit EXIT_HSEARCH_TABLE_FULL).
Proof.
  intros Hp Hsc routes. rewrite scan_enter_files by done.
  pose proof (enter_files_capacity (strlen path) n
                (routed_files path (fts_root_name path) (follow_root root))
                {| table := {| h_entries := ∅; h_cap := Some n |}; max_path_len_out := 0 |}
                eq_refl) as H.
  cbn [table h_entries] in H. rewrite map_size_empty, dom_empty_L, (left_id_L ∅ (∪)) in H.
  apply H. lia.
Qed.

Lemma X9_scan_stops_at_capacity_witness :
  (exists st, scan_web_root (Some 3%nat) (lit "www") www = Ret st /\
     dom (h_entries (table st))
     = list_to_set (map (fun pf => route_of 3 (fst pf))
                      (routed_files (lit "www") (lit "www") www))) /\
  scan_web_root (Some 2%nat) (lit "www") www = Exit EXIT_HSEARCH_TABLE_FULL.
Proof.
  split.
  - apply (X9_scan_stops_at_capacity 3 (lit "www") www ltac:(discriminate) www_scannable).
    vm_compute. lia.
  - apply (X9_scan_stops_at_capacity 2 (lit "www") www ltac:(discriminate) www_scannable).
    vm_compute. lia.
Defined.

(** What one insertion does to the routes of the table and to the
    longest length. *)
Lemma record_route_dom b st pf r :
  r ∈ dom (h_entries (table (record_route b st pf))) <->
  r = route_of b (fst pf) \/ r ∈ dom (h_entries (table st)).
Proof.
  unfold record_route. cbn [table].
  destruct (h_entries (table st) !! route_of b (fst pf)) as [d|] eqn:Hl.
  - split; [by right|]. intros [->|H]; [|done]. by apply elem_of_dom.
  - cbn [h_entries]. rewrite dom_insert, elem_of_union, elem_of_singleton. done.
Qed.

Lemma foldl_record_dom b files : forall st r,
  r ∈ dom (h_entries (table (foldl (record_route b) st files))) <->
  r ∈ dom (h_entries (table st)) \/ exists p f, (p, f) ∈ files /\ r = route_of b p.
Proof.
  induction files as [|pf files IH]; intros st r.
  - simpl. split; [by left|]. intros [H|(p & f & H & _)]; [done|].
    by apply elem_of_nil in H.
  - simpl. rewrite IH, record_route_dom. split.
    + intros [[->|H]|(p & f & Hin & ->)].
      * right. exists (fst pf), (snd pf). split; [|done].
        destruct pf. apply list_elem_of_here.
      * by left.
      * right. exists p, f. split; [by apply list_elem_of_further | done].
    + intros [H|(p & f & Hin & ->)]; [left; by right|].
      apply elem_of_cons in Hin as [<-|Hin]; [left; by left|].
      right. by exists p, f.
Qed.

(** X10: the routes of the table of a scan that returns are exactly the
    routes of the regular files below the root that have no dotted name
    on their path: each such file has its route in the table, and the
    table has no other route. *)
Theorem X10_table_routes hcap path root st :
  scan_web_root hcap path root = Ret st ->
  forall r,
    r ∈ dom (h_entries (table st)) <->
    exists pos f,
      routed (fts_root_name path) (follow_root root) pos f /\
      r = route_of (strlen path) (fts_path_at path pos).
Proof.
  intros (_ & -> & _)%scan_web_root_Ret r.
  rewrite foldl_record_dom. cbn [table h_entries]. rewrite dom_empty. split.
  - intros [H|(p & f & Hin & ->)]; [by apply elem_of_empty in H|].
    apply files_routed in Hin as (pos & Hr & ->). by exists pos, f.
  - intros (pos & f & Hr & ->). right.
    exists (fts_path_at path pos), f. split; [|done]. by apply routed_in_files.
Qed.

Lemma X10_table_routes_witness :
  exists st,
    scan_web_root None (lit "www") www = Ret st /\
    (lit "/dir" ∈ dom (h_entries (table st)) <->
     exists pos f,
       routed (fts_root_name (lit "www")) (follow_root www) pos f /\
       lit "/dir" = route_of (strlen (lit "www")) (fts_path_at (lit "www") pos)).
Proof.
  let v := eval vm_compute in (scan_web_root None (lit "www") www) in
  match v with Ret ?s => exists s end.
  split; [vm_compute; reflexivity|].
  apply (X10_table_routes None (lit "www") www). vm_compute. reflexivity.
Defined.

(** The longest length is the length of a route of the table, and no
    route of the table is longer. *)
Lemma foldl_record_longest b files : forall st,
  ((forall r, r ∈ dom (h_entries (table st)) ->
      Z.of_nat (strlen r) <= max_path_len_out st) /\
   (h_entries (table st) = ∅ /\ max_path_len_out st = 0 \/
    exists r, r ∈ dom (h_entries (table st)) /\
              Z.of_nat (strlen r) = max_path_len_out st)) ->
  let st' := foldl (record_route b) st files in
  (forall r, r ∈ dom (h_entries (table st')) ->
     Z.of_nat (strlen r) <= max_path_len_out st') /\
  (h_entries (table st') = ∅ /\ max_path_len_out st' = 0 \/
   exists r, r ∈ dom (h_entries (table st')) /\
             Z.of_nat (strlen r) = max_path_len_out st').
Proof.
  induction files as [|pf files IH]; intros st Hst; [done|].
  cbn zeta. simpl. apply IH. destruct Hst as [Hle Hmax]. split.
  - intros r [->|Hr]%record_route_dom; cbn [record_route max_path_len_out]; [lia|].
    specialize (Hle r Hr). lia.
  - right.
    destruct (Z.le_gt_cases (max_path_len_out st)
                (Z.of_nat (strlen (route_of b (fst pf))))) as [Hc|Hc].
    + exists (route_of b (fst pf)). split; [apply record_route_dom; by left|].
      cbn [record_route max_path_len_out]. lia.
    + destruct Hmax as [[_ H0]|(r & Hr & Hlen)]; [lia|].
      exists r. split; [apply record_route_dom; by right|].
      cbn [record_route max_path_len_out]. lia.
Qed.

(** X11: the length that a scan hands to the handlers is the length of
    the longest route of its table: no route is longer, and unless the
    table is empty (the length is then 0) some route has this length. *)
Theorem X11_longest_route hcap path root st :
  scan_web_root hcap path root = Ret st ->
  (forall r, r ∈ dom (h_entries (table st)) ->
     Z.of_nat (strlen r) <= max_path_len_out st) /\
  (h_entries (table st) = ∅ /\ max_path_len_out st = 0 \/
   exists r, r ∈ dom (h_entries (table st)) /\
             Z.of_nat (strlen r) = max_path_len_out st).
Proof.
  intros (_ & -> & _)%scan_web_root_Ret.
  apply foldl_record_longest. cbn [table h_entries max_path_len_out]. split.
  - intros r H. rewrite dom_empty in H. by apply elem_of_empty in H.
  - by left.
Qed.

Lemma X11_longest_route_witness :
  exists st,
    scan_web_root None (lit "www") www = Ret st /\
    (forall r, r ∈ dom (h_entries (table st)) ->
       Z.of_nat (strlen r) <= max_path_len_out st) /\
    (h_entries (table st) = ∅ /\ max_path_len_out st = 0 \/
     exists r, r ∈ dom (h_entries (table st)) /\
               Z.of_nat (strlen r) = max_path_len_out st).
Proof.
  let v := eval vm_compute in (scan_web_root None (lit "www") www) in
  match v with Ret ?s => exists s end.
  split; [vm_compute; reflexivity|].
  apply (X11_longest_route None (lit "www") www). vm_compute. reflexivity.
Defined.

(** ** When the scan returns *)

Lemma foldl_record_cap b files : forall st,
  h_cap (table (foldl (record_route b) st files)) = h_cap (table st).
Proof.
  induction files as [|pf files IH]; intros st; [done|].
  simpl. rewrite IH. unfold record_route. cbn [table].
  by destruct (h_entries (table st) !! _).
Qed.

(** On a platform whose table grows on demand, the walk returns exactly
    on the hierarchies that are scannable. *)
Lemma walk_scannable b n : forall path name st,
  h_cap (table st) = None ->
  scannable name n <->
  exists st', fts_walk (scan_body b) scan_options false path name n st = Ret st'.
Proof.
  induction n as [f|r es IHes|t IH| | |] using node_induction;
    intros path name st Hcap;
    try (split; [done | by intros [st' Hst']]).
  - cbn [fts_walk scannable]. unfold visit.
    destruct (dotted name) eqn:Hdot.
    + rewrite scan_body_F_dotted by done. split; [by eexists | by left].
    + rewrite scan_body_F by done. unfold h_full. rewrite Hcap, andb_false_r.
      unfold reads_in_full. destruct (f_openable f).
      * case_bool_decide.
        -- split; [by eexists | by right].
        -- split; [by intros [|[_ ?]] | by intros [st' Hst']].
      * split; [by intros [|[? _]] | by intros [st' Hst']].
  - rewrite scannable_dir, fts_walk_dir, scan_body_D. cbn [mbind outcome_bind snd fst].
    destruct (dotted name) eqn:Hdot.
    + unfold visit. rewrite scan_body_DP. split; [by eexists | by left].
    + destruct r.
      2:{ split; [by intros [|[? _]] | by intros [st' Hst']]. }
      assert (scannable_entries es <->
              exists st', walk_entries (scan_body b) scan_options path es st = Ret st')
        as Hes.
      { clear Hdot name. revert st Hcap.
        induction IHes as [|e es IHe _ IH]; intros st Hcap.
        - simpl. split; [by eexists | done].
        - cbn [scannable_entries walk_entries]. rewrite scan_options_logical.
          rewrite (IHe (fts_child_path path (fst e)) (fst e) st Hcap). split.
          + intros [[s1 H1] Hrest]. rewrite H1. cbn [mbind outcome_bind].
            apply IH; [|done]. apply walk_Ret in H1 as [-> _].
            by rewrite foldl_record_cap.
          + intros [st' H]. apply bind_Ret in H as (s1 & H1 & H2).
            split; [by eexists|]. apply (IH s1); [|by eexists].
            apply walk_Ret in H1 as [-> _]. by rewrite foldl_record_cap. }
      rewrite Hes. split.
      * intros [|[_ [s1 H1]]]; [done|]. rewrite H1. cbn [mbind outcome_bind].
        unfold visit. rewrite scan_body_DP. by eexists.
      * intros [st' H]. apply bind_Ret in H as (s1 & H1 & _). right. split; [done|].
        by eexists.
Qed.

(** X12: on a platform whose table grows on demand, the scan of a root
    path that is not empty returns exactly when the hierarchy is
    scannable: the root path names a directory or a regular file (perhaps
    through links), and below it every directory met under undotted names
    can be read and has only directories and regular files as entries,
    each regular file with an undotted name being opened and read in
    full. *)
Theorem X12_scan_returns_iff_scannable path root :
  path <> [] ->
  scannable (fts_root_name path) (follow_root root) <->
  exists st, scan_web_root None path root = Ret st.
Proof.
  intros Hp. unfold scan_web_root, fts_open, hcreate, fts_read_all.
  rewrite decide_False by done.
  change (Z.lor (Z.lor FTS_PHYSICAL FTS_COMFOLLOW) FTS_XDEV) with scan_options.
  rewrite scan_options_comfollow, fts_walk_follow.
  destruct (follow_root root) as [f|r es|t| |] eqn:Hr;
    try (by apply walk_scannable);
    split; try done; by intros [st' Hst'].
Qed.

Lemma X12_scan_returns_iff_scannable_witness :
  scannable (fts_root_name (lit "www")) (follow_root www) <->
  exists st, scan_web_root None (lit "www") www = Ret st.
Proof.
  apply (X12_scan_returns_iff_scannable (lit "www") www). discriminate.
Defined.

(** ** Roots at the edge *)

Lemma after_last_slash_end q : after_last_slash (q ++ [slash]) = Some [].
Proof.
  induction q as [|c q IH]; [done|]. cbn [app after_last_slash]. by rewrite IH.
Qed.

(** X13: a root path in which the text after the last slash begins with
    a dot ([.], [..], [www/.site]) and which names a directory or a
    regular file is itself passed over as a dotted entry: the scan
    returns at once with an empty table and the longest length 0,
    whatever lies below, and no request is then answered from the table.
    The name looked at is that of the root entry of fts: a root path that
    ends in a slash ([.site/], [./]) has the empty name after its last
    slash and is not passed over this way. *)
Theorem X13_dotted_root_serves_nothing hcap path root :
  path <> [] ->
  dotted (fts_root_name path) = true ->
  match follow_root root with NReg _ | NDir _ _ => True | _ => False end ->
  scan_web_root hcap path root
  = Ret {| table := {| h_entries := ∅; h_cap := hcap |}; max_path_len_out := 0 |} /\
  (forall p, fst (hsearch (mkENTRY p None) FIND {| h_entries := ∅; h_cap := hcap |}) = None) /\
  (forall q, path <> q ++ [slash]) /\
  (forall q, dotted (fts_root_name (q ++ [slash])) = false).
Proof.
  intros Hp Hdot Hroot.
  assert (forall q, dotted (fts_root_name (q ++ [slash])) = false) as Hend.
  { intros q. unfold fts_root_name. rewrite after_last_slash_end.
    by destruct (decide (q ++ [slash] = [slash])) as [->|]. }
  split; [|split; [|split; [|done]]].
  - unfold scan_web_root, fts_open, hcreate, fts_read_all.
    rewrite decide_False by done.
    change (Z.lor (Z.lor FTS_PHYSICAL FTS_COMFOLLOW) FTS_XDEV) with scan_options.
    rewrite scan_options_comfollow, fts_walk_follow.
    destruct (follow_root root) as [f|r es|t| |]; try done; by apply walk_dotted.
  - intros p. rewrite hsearch_FIND. cbn [h_entries]. by rewrite lookup_empty.
  - intros q ->. by rewrite Hend in Hdot.
Qed.

Lemma X13_dotted_root_serves_nothing_witness :
  scan_web_root None (lit "./.") www
  = Ret {| table := {| h_entries := ∅; h_cap := None |}; max_path_len_out := 0 |} /\
  dotted (fts_root_name (lit ".site/")) = false.
Proof.
  destruct (X13_dotted_root_serves_nothing None (lit "./.") www) as (Hscan & _ & _ & Hend).
  - discriminate.
  - reflexivity.
  - exact I.
  - split; [exact Hscan|]. apply (Hend (lit ".site")).
Defined.

(** X14: a root path that names a regular file (undotted, read in full)
    gives a table with one route, the empty string, for the file: nothing
    is left of the file's path once the root path is cut off.  No request
    asks for this route, since a requested path begins with a slash. *)
Theorem X14_file_root hcap path root f :
  path <> [] ->
  follow_root root = NReg f ->
  dotted (fts_root_name path) = false ->
  reads_in_full f ->
  hcap <> Some 0%nat ->
  scan_web_root hcap path root
  = Ret {| table := {| h_entries := {[ [] := Some (blob_of f) ]}; h_cap := hcap |};
           max_path_len_out := 0 |} /\
  forall in_buf p, request_path in_buf = Some p ->
    (h_entries {| h_entries := {[ [] := Some (blob_of f) ]}; h_cap := hcap |} !! p
     = None).
Proof.
  intros Hp Hroot Hdot [Hopen Hsize] Hcap. split.
  - unfold scan_web_root, fts_open, hcreate, fts_read_all.
    rewrite decide_False by done.
    change (Z.lor (Z.lor FTS_PHYSICAL FTS_COMFOLLOW) FTS_XDEV) with scan_options.
    rewrite scan_options_comfollow, fts_walk_follow, Hroot.
    cbn [fts_walk]. unfold visit. rewrite scan_body_F by done.
    rewrite Hopen, bool_decide_eq_true_2 by done.
    assert (route_of (strlen path) path = []) as Hroute.
    { unfold route_of, strlen. rewrite drop_all. done. }
    rewrite Hroute. cbn [table h_entries]. rewrite lookup_empty.
    assert (h_full {| h_entries := ∅; h_cap := hcap |} = false) as ->.
    { unfold h_full. cbn [h_cap h_entries]. destruct hcap as [[|n]|]; [done| |done].
      rewrite map_size_empty. apply bool_decide_eq_false_2. lia. }
    cbn [mbind outcome_bind mret outcome_ret fst andb bool_decide].
    rewrite bool_decide_eq_true_2 by done. cbn [andb mbind outcome_bind fst].
    unfold record_route. cbn [fst snd table h_entries h_cap max_path_len_out].
    rewrite Hroute, lookup_empty. rewrite insert_empty. done.
  - intros in_buf p (_ & _ & _ & Hlen)%request_path_Some. cbn [h_entries].
    apply lookup_singleton_ne. intros <-. simpl in Hlen. lia.
Qed.

Lemma X14_file_root_witness :
  scan_web_root None (lit "www/index.html") (text_file "<h1>hi</h1>")
  = Ret {| table := {| h_entries :=
                         {[ [] := Some (blob_of (mkFile 11 true (lit "<h1>hi</h1>") false)) ]};
                       h_cap := None |};
           max_path_len_out := 0 |} /\
  forall in_buf p, request_path in_buf = Some p ->
    (h_entries {| h_entries :=
                    {[ [] := Some (blob_of (mkFile 11 true (lit "<h1>hi</h1>") false)) ]};
                  h_cap := None |} !! p
     = None).
Proof.
  apply (X14_file_root None (lit "www/index.html") (text_file "<h1>hi</h1>")
           (mkFile 11 true (lit "<h1>hi</h1>") false)).
  - discriminate.
  - reflexivity.
  - reflexivity.
  - split; [reflexivity | simpl; lia].
  - discriminate.
Defined.

(** ** The environment *)

(** [read_digits] on the decimal digits of a number. *)
Lemma read_digits_uint d : forall acc : nat,
  read_digits (Z.of_nat acc) (lit (NilEmpty.string_of_uint d))
  = (Z.of_nat (Nat.of_uint_acc d acc), []).
Proof.
  induction d as [|d IH|d IH|d IH|d IH|d IH|d IH|d IH|d IH|d IH|d IH]; intros acc;
    [done|..];
    cbn [NilEmpty.string_of_uint lit list_ascii_of_string read_digits Nat.of_uint_acc];
    fold (lit (NilEmpty.string_of_uint d));
    match goal with
    | |- context [digit_value ?c] =>
        let v := eval vm_compute in (digit_value c) in change (digit_value c) with v
    end;
    rewrite <- IH; f_equal; rewrite Nat.tail_mul_spec; lia.
Qed.

(** A string that begins with a digit is converted from its start. *)
Lemma strtoll_digit c s d :
  digit_value c = Some d ->
  strtoll (c :: s) = (let '(v, ep) := read_digits 0 (c :: s) in Some (v, ep)).
Proof.
  intros Hd. unfold strtoll.
  destruct c as [[] [] [] [] [] [] [] []]; vm_compute in Hd; try discriminate Hd;
    reflexivity.
Qed.

Lemma strtoll_fmt_zu n : strtoll (fmt_zu n) = Some (Z.of_nat n, []).
Proof.
  unfold fmt_zu.
  pose proof (read_digits_uint (Nat.to_uint n) 0) as Hr.
  change (Nat.of_uint_acc (Nat.to_uint n) 0) with (Nat.of_uint (Nat.to_uint n)) in Hr.
  rewrite DecimalNat.Unsigned.of_to in Hr. change (Z.of_nat 0) with 0 in Hr.
  assert (Nat.to_uint n <> Decimal.Nil) as Hnil.
  { rewrite <- (DecimalNat.Unsigned.of_to n), DecimalNat.Unsigned.to_of.
    apply DecimalFacts.unorm_nonnil. }
  destruct (Nat.to_uint n) as [|d|d|d|d|d|d|d|d|d|d]; [done|..];
    cbn [NilEmpty.string_of_uint lit list_ascii_of_string] in Hr |- *;
    (erewrite strtoll_digit by reflexivity); by rewrite Hr.
Qed.

(** X15: [get_env_integer] returns the default, unchecked, when the
    variable is not set; when it is set, it returns the number that the
    whole value spells, which then lies within the bounds, and in every
    other case the process exits with [EXIT_INVALID_NUMERIC_ENV_VAR]. *)
Theorem X15_get_env_integer_range default_val env_name min max env :
  match get_env_integer default_val env_name min max env with
  | Ret v =>
      getenv env env_name = None /\ v = default_val \/
      exists env_value,
        getenv env env_name = Some env_value /\
        strtoll env_value = Some (v, []) /\ min <= v <= max
  | Exit e =>
      e = EXIT_INVALID_NUMERIC_ENV_VAR /\
      exists env_value,
        getenv env env_name = Some env_value /\
        forall v, min <= v <= max -> strtoll env_value = Some (v, []) -> False
  | Killed => False
  end.
Proof.
  unfold get_env_integer.
  destruct (getenv env env_name) as [env_value|]; [|by left].
  unfold strtonum.
  destruct (max <? min) eqn:Hb.
  { apply Z.ltb_lt in Hb. split; [done|]. exists env_value. split; [done|]. lia. }
  apply Z.ltb_ge in Hb.
  destruct (strtoll env_value) as [[ll ep]|] eqn:Hs.
  2:{ split; [done|]. exists env_value. split; [done|]. rewrite Hs. done. }
  case_bool_decide as Hep; cbn [negb].
  2:{ split; [done|]. exists env_value. split; [done|]. rewrite Hs.
      intros v _ [= _ ?]. done. }
  subst ep. destruct (ll <? min) eqn:Hlo.
  { apply Z.ltb_lt in Hlo. split; [done|]. exists env_value. split; [done|].
    rewrite Hs. intros v Hv [= <-]. lia. }
  apply Z.ltb_ge in Hlo. destruct (max <? ll) eqn:Hhi.
  { apply Z.ltb_lt in Hhi. split; [done|]. exists env_value. split; [done|].
    rewrite Hs. intros v Hv [= <-]. lia. }
  apply Z.ltb_ge in Hhi. right. exists env_value. split; [done|]. split; [done | lia].
Qed.

(** X16: a variable set to the decimal digits of a natural number (as
    [%zu] prints it) is read back as that number when it lies within the
    bounds, and exits otherwise. *)
Theorem X16_get_env_integer_decimal default_val env_name min max env n :
  getenv env env_name = Some (fmt_zu n) ->
  get_env_integer default_val env_name min max env =
  if decide (min <= Z.of_nat n <= max) then Ret (Z.of_nat n)
  else Exit EXIT_INVALID_NUMERIC_ENV_VAR.
Proof.
  intros Hget. unfold get_env_integer. rewrite Hget.
  unfold strtonum. rewrite strtoll_fmt_zu. cbn [negb bool_decide].
  rewrite bool_decide_eq_true_2 by done. cbn [negb].
  destruct (max <? min) eqn:Hb.
  { apply Z.ltb_lt in Hb. rewrite decide_False by lia. done. }
  apply Z.ltb_ge in Hb.
  destruct (Z.of_nat n <? min) eqn:Hlo.
  { apply Z.ltb_lt in Hlo. rewrite decide_False by lia. done. }
  apply Z.ltb_ge in Hlo.
  destruct (max <? Z.of_nat n) eqn:Hhi.
  { apply Z.ltb_lt in Hhi. rewrite decide_False by lia. done. }
  apply Z.ltb_ge in Hhi. rewrite decide_True by lia. done.
Qed.

Lemma X16_get_env_integer_decimal_witness :
  get_env_integer 80 (lit "TH_CFG_LISTEN_PORT") 0 65535
    (fun name => if decide (name = lit "TH_CFG_LISTEN_PORT") then Some (fmt_zu 443)
                 else None)
  = if decide (0 <= Z.of_nat 443 <= 65535) then Ret (Z.of_nat 443)
    else Exit EXIT_INVALID_NUMERIC_ENV_VAR.
Proof.
  apply (X16_get_env_integer_decimal 80 (lit "TH_CFG_LISTEN_PORT") 0 65535
           (fun name => if decide (name = lit "TH_CFG_LISTEN_PORT")
                        then Some (fmt_zu 443) else None) 443).
  reflexivity.
Defined.

(** [strtoll] by the head of the string after the white space. *)
Lemma strtoll_eq numstr :
  strtoll numstr =
  let s := skip_space numstr in
  let s2 := if bool_decide (head s = Some "-"%char \/ head s = Some "+"%char)
            then tail s else s in
  match head s2 ≫= digit_value with
  | Some _ =>
      let '(v, ep) := read_digits 0 s2 in
      Some (if bool_decide (head s = Some "-"%char) then - v else v, ep)
  | None => None
  end.
Proof.
  unfold strtoll. destruct (skip_space numstr) as [|c s']; [done|].
  destruct c as [[] [] [] [] [] [] [] []]; try reflexivity;
    destruct s'; reflexivity.
Qed.

Lemma skip_space_suffix s : skip_space s `suffix_of` s.
Proof.
  induction s as [|c s IH]; [done|]. simpl.
  destruct (isspace c); [by apply suffix_cons_r | done].
Qed.

(** Digits read to the end of the string: the string ends in a digit. *)
Lemma read_digits_all s : forall acc v,
  read_digits acc s = (v, []) ->
  s = [] \/ exists c d, last s = Some c /\ digit_value c = Some d.
Proof.
  induction s as [|c s IH]; intros acc v H; [by left|]. right.
  simpl in H. destruct (digit_value c) as [d|] eqn:Hd; [|done].
  apply IH in H as [->|(c' & d' & Hl & Hd')].
  - by exists c, d.
  - exists c', d'. split; [|done]. rewrite last_cons, Hl. done.
Qed.

Lemma strtoll_last numstr v :
  strtoll numstr = Some (v, []) ->
  exists c d, last numstr = Some c /\ digit_value c = Some d.
Proof.
  rewrite strtoll_eq. cbn zeta.
  destruct (skip_space_suffix numstr) as [k Hk].
  set (s := skip_space numstr) in *.
  set (s2 := if bool_decide (head s = Some "-"%char \/ head s = Some "+"%char)
             then tail s else s).
  assert (s2 `suffix_of` numstr) as [k2 Hk2].
  { unfold s2. case_bool_decide; [|by exists k].
    destruct s as [|c s']; [by exists k|]. exists (k ++ [c]).
    by rewrite Hk, <- app_assoc. }
  destruct (head s2 ≫= digit_value) as [d0|] eqn:Hhd; [|done].
  destruct (read_digits 0 s2) as [v0 ep] eqn:Hrd. intros [= _ ->].
  apply read_digits_all in Hrd as [Hnil|(c & d & Hl & Hd)].
  - rewrite Hnil in Hhd. done.
  - exists c, d. split; [|done]. rewrite Hk2, last_app, Hl. done.
Qed.

(** X17: a variable whose value is empty or ends in a character that is
    not a digit (a trailing space, a unit, a newline) is not read as a
    number: the process exits with [EXIT_INVALID_NUMERIC_ENV_VAR],
    whatever the value begins with. *)
Theorem X17_get_env_integer_rejects default_val env_name min max env env_value :
  getenv env env_name = Some env_value ->
  (forall c, last env_value = Some c -> digit_value c = None) ->
  get_env_integer default_val env_name min max env = Exit EXIT_INVALID_NUMERIC_ENV_VAR.
Proof.
  intros Hget Hlast. unfold get_env_integer, strtonum. rewrite Hget.
  destruct (max <? min); [done|].
  destruct (strtoll env_value) as [[ll ep]|] eqn:Hs; [|done].
  case_bool_decide as Hep; [|done]. subst ep.
  apply strtoll_last in Hs as (c & d & Hl & Hd).
  rewrite (Hlast c Hl) in Hd. done.
Qed.

Lemma X17_get_env_integer_rejects_witness :
  get_env_integer 1 (lit "TH_CFG_RX_TIMEOUT") 1 65535
    (fun name => if decide (name = lit "TH_CFG_RX_TIMEOUT") then Some (lit "30s") else None)
  = Exit EXIT_INVALID_NUMERIC_ENV_VAR.
Proof.
  apply (X17_get_env_integer_rejects 1 (lit "TH_CFG_RX_TIMEOUT") 1 65535
           (fun name => if decide (name = lit "TH_CFG_RX_TIMEOUT")
                        then Some (lit "30s") else None) (lit "30s")).
  - reflexivity.
  - intros c [= <-]. reflexivity.
Defined.

(** ** Start-up *)

(** The walk exits only where the body does. *)
Lemma visit_exit {St} (body : FTSENT -> St -> outcome (St * fts_instr_t))
    info path name n s e :
  visit body info path name n s = Exit e -> exists p s0, body p s0 = Exit e.
Proof.
  unfold visit. destruct (body _ s) as [r|e0|] eqn:Hb; [done| |done].
  intros [= <-]. eauto.
Qed.

Lemma fts_walk_exit {St} (body : FTSENT -> St -> outcome (St * fts_instr_t)) options e :
  forall n follow path name s,
    fts_walk body options follow path name n s = Exit e ->
    exists p s0, body p s0 = Exit e.
Proof.
  induction n as [f|r es IHes|t IH| | |] using node_induction;
    intros follow path name s Hw.
  - by eapply visit_exit.
  - rewrite fts_walk_dir in Hw.
    destruct (body _ s) as [r0|e0|] eqn:Hb; [|injection Hw as <-; eauto|done].
    cbn [mbind outcome_bind] in Hw.
    destruct (snd r0); [|by eapply visit_exit].
    destruct r; [|by eapply visit_exit].
    destruct (walk_entries body options path es (fst r0)) as [s1|e1|] eqn:Hes; [| |done].
    + by eapply visit_exit.
    + injection Hw as <-. clear Hb. generalize dependent (fst r0).
      induction IHes as [|e' es IHe _ IH]; intros s0 Hes; [done|].
      simpl in Hes.
      destruct (fts_walk body options _ _ _ _ s0) as [s2|e2|] eqn:H1; [| |done].
      * by eapply IH.
      * injection Hes as <-. by eapply IHe.
  - simpl in Hw. destruct follow; [by eapply IH | by eapply visit_exit].
  - simpl in Hw. destruct follow; by eapply visit_exit.
  - by eapply visit_exit.
  - by eapply visit_exit.
Qed.

Lemma scan_body_exits b p st e :
  scan_body b p st = Exit e -> e ∈ scan_exits.
Proof.
  assert (forall x : tHTTPError, bool_decide (x ∈ scan_exits) = true -> x ∈ scan_exits)
    as Hin by (intros x; apply bool_decide_eq_true_1).
  destruct p as [info path name sp n]. unfold scan_body. cbn [fts_info].
  destruct info; try (intros [= <-]; by apply Hin).
  - by case_decide.
  - cbn [fts_statp fts_name fts_path fts_accpath].
    destruct (negb (S_ISREG sp)); [intros [= <-]; by apply Hin|].
    case_decide; [done|].
    destruct (fopen n) as [f|]; [|intros [= <-]; by apply Hin].
    cbn [blob_new]. destruct (fread _ f) as [num_read blob].
    destruct (negb _); [destruct (_ && _); intros [= <-]; by apply Hin|].
    destruct (hsearch _ ENTER (table st)) as [[en|] t']; [done|].
    intros [= <-]. by apply Hin.
Qed.

Lemma scan_web_root_exits hcap path root e :
  scan_web_root hcap path root = Exit e -> e ∈ scan_exits.
Proof.
  unfold scan_web_root, fts_open, hcreate, fts_read_all.
  case_decide.
  - intros [= <-]. apply list_elem_of_here.
  - intros (p & s0 & Hb)%fts_walk_exit. by eapply scan_body_exits.
Qed.



Lemma accept_loop_exit t ld evs e :
  fst (accept_loop t ld evs) = Exit e -> e = EXIT_FORK_FAILED.
Proof.
  induction evs as [|ev evs IH]; [done|].
  cbn [accept_loop]. destruct ev as [|ns|ns]; cbn [accept_next_connection].
  - destruct (accept_loop t ld evs) as [r children]. exact IH.
  - by intros [= <-].
  - destruct (accept_loop t ld evs) as [r children]. exact IH.
Qed.

Lemma get_env_integer_exit default_val env_name min max env e :
  get_env_integer default_val env_name min max env = Exit e ->
  e = EXIT_INVALID_NUMERIC_ENV_VAR.
Proof.
  unfold get_env_integer. destruct (getenv env env_name); [|done].
  destruct (strtonum _ min max) as [v [err|]]; [|done]. by intros [= <-].
Qed.

Lemma startup_exits hcap sys e :
  startup hcap sys = Exit e -> e ∈ listener_exits /\ e <> EXIT_FORK_FAILED.
Proof.
  assert (forall x : tHTTPError,
            bool_decide (x ∈ listener_exits) = true /\ x <> EXIT_FORK_FAILED ->
            x ∈ listener_exits /\ x <> EXIT_FORK_FAILED) as Hin.
  { intros x [H ?]. split; [|done]. by apply bool_decide_eq_true_1 in H. }
  unfold startup, security_sanity_check.
  destruct (sys_uid sys =? 0); [intros [= <-]; by apply Hin|].
  cbn [mbind outcome_bind].
  destruct (get_env_integer 16 _ 1 _ (sys_env sys)) as [backlog|e1|] eqn:H1;
    [|apply get_env_integer_exit in H1 as ->; intros [= <-]; by apply Hin|done].
  cbn [mbind outcome_bind].
  destruct (get_env_integer 80 _ 0 65535 (sys_env sys)) as [port|e1|] eqn:H2;
    [|apply get_env_integer_exit in H2 as ->; intros [= <-]; by apply Hin|done].
  cbn [mbind outcome_bind].
  destruct (get_env_integer 1 (lit "TH_CFG_RX_TIMEOUT") 1 65535 (sys_env sys))
    as [rxt|e1|] eqn:H3;
    [|apply get_env_integer_exit in H3 as ->; intros [= <-]; by apply Hin|done].
  cbn [mbind outcome_bind].
  destruct (get_env_integer 1 (lit "TH_CFG_TX_TIMEOUT") 1 65535 (sys_env sys))
    as [txt|e1|] eqn:H4;
    [|apply get_env_integer_exit in H4 as ->; intros [= <-]; by apply Hin|done].
  cbn [mbind outcome_bind]. cbn zeta.
  destruct (scan_web_root hcap _ _) as [st|e1|] eqn:H5; [| |done].
  2:{ intros [= <-]. apply scan_web_root_exits in H5. split.
      - unfold listener_exits. apply elem_of_app. right. apply elem_of_app. by left.
      - intros ->. apply (bool_decide_eq_true_2 _) in H5. vm_compute in H5. done. }
  cbn [mbind outcome_bind]. unfold socket_server_setup, security_enter_sandbox.
  destruct (sys_socket sys); [|intros [= <-]; by apply Hin].
  destruct (sys_bind sys); [|intros [= <-]; by apply Hin].
  destruct (sys_listen sys); [|intros [= <-]; by apply Hin].
  cbn [negb mbind outcome_bind].
  destruct (sys_sandbox sys); [done | intros [= <-]; by apply Hin].
Qed.

(** X19: the exits of the listener.  The process that listens exits only
    with a code of the start-up (root user, a number of the environment,
    the scan, the socket, the sandbox) or, from its loop, with
    [EXIT_FORK_FAILED]; never with a code of a connection.  When the
    start-up exits, no child has been forked. *)
Theorem X19_listener_exits hcap sys evs e :
  fst (main_process hcap sys evs) = Exit e ->
  e ∈ listener_exits /\
  (e ∈ connection_exits -> False) /\
  (e = EXIT_FORK_FAILED \/ snd (main_process hcap sys evs) = []).
Proof.
  unfold main_process. intros H.
  assert (e ∈ listener_exits /\
          (e = EXIT_FORK_FAILED \/
           snd match startup hcap sys with
               | Ret (t, loop_data) => accept_loop t loop_data evs
               | Exit e => (Exit e, [])
               | Killed => (Killed, [])
               end = [])) as [Hin Hch].
  { destruct (startup hcap sys) as [[t ld]|e0|] eqn:Hs; [| |done].
    - apply accept_loop_exit in H as ->. split; [|by left].
      apply (bool_decide_unpack _). vm_compute. exact I.
    - injection H as ->. apply startup_exits in Hs as [? _]. split; [done | by right]. }
  split; [done|]. split; [|done].
  intros Hc. apply (bool_decide_eq_true_2 _) in Hin. apply (bool_decide_eq_true_2 _) in Hc.
  destruct e; vm_compute in Hin, Hc; discriminate.
Qed.

Lemma X19_listener_exits_witness :
  EXIT_DONT_USE_ROOT ∈ listener_exits /\
  (EXIT_DONT_USE_ROOT ∈ connection_exits -> False) /\
  (EXIT_DONT_USE_ROOT = EXIT_FORK_FAILED \/
   snd (main_process None
          {| sys_uid := 0; sys_env := sys_env host;
             sys_socket := true; sys_bind := true; sys_listen := true;
             sys_sandbox := true; sys_fs := sys_fs host |}
          [Forked (client [RxData "G" (lit "ET / "); RxClose])]) = []).
Proof.
  apply (X19_listener_exits None
           {| sys_uid := 0; sys_env := sys_env host;
              sys_socket := true; sys_bind := true; sys_listen := true;
              sys_sandbox := true; sys_fs := sys_fs host |}
           [Forked (client [RxData "G" (lit "ET / "); RxClose])] EXIT_DONT_USE_ROOT).
  reflexivity.
Defined.

(** ** The request cut at the buffer *)

(** The token at the start of a buffer cut at [m] bytes is the token of
    the whole, cut at [m]. *)
Lemma token_take l : forall m,
  upto_delim delimiters (c_str (take m l)) = take m (upto_delim delimiters (c_str l)).
Proof.
  induction l as [|c l IH]; intros [|m]; try done.
  cbn [take c_str]. destruct (decide (c = NUL)); [done|].
    cbn [upto_delim]. case_bool_decide; [done|]. cbn [take]. by rewrite IH.
Qed.

Lemma request_path_slash x :
  request_path (lit "GET /" ++ x) = Some (slash :: upto_delim delimiters (c_str x)).
Proof.
  unfold request_path. rewrite (proj2 (strncmp_GET _)) by done.
  change (drop 4 (lit "GET /" ++ x)) with (slash :: x).
  cbn [c_str]. rewrite decide_False by done.
  unfold strtok_r. cbn [skip_delims].
  assert (slash ∉ delimiters) as Hs.
  { intros H. apply (bool_decide_eq_true_2 _) in H. vm_compute in H. done. }
  rewrite (bool_decide_eq_false_2 (slash ∈ delimiters)) by done.
  cbn [upto_delim]. rewrite (bool_decide_eq_false_2 (slash ∈ delimiters)) by done.
  by rewrite bool_decide_eq_true_2.
Qed.

(** X21: cutting the request at the size of the receive buffer does not
    change what is found in the table.  For a request that begins with
    [GET /] and a table whose routes are no longer than [max_path_len],
    the path isolated in the first [max_path_len + 5] bytes finds the
    entry that the path of the whole request finds: a path that is cut
    is longer than every route. *)
Theorem X21_truncation_keeps_lookup t (max_path_len : nat) stream :
  (forall k, is_Some (h_entries t !! k) -> (strlen k <= max_path_len)%nat) ->
  take 5 stream = lit "GET /" ->
  request_path (take (max_path_len + 5) stream) ≫= (fun p => h_entries t !! p)
  = request_path stream ≫= (fun p => h_entries t !! p).
Proof.
  intros Hlen Hget.
  rewrite <- (take_drop 5 stream), Hget.
  rewrite (Nat.add_comm max_path_len 5), (take_app_add' (lit "GET /")) by done.
  rewrite !request_path_slash, token_take. cbn [mbind option_bind].
  set (tok := upto_delim delimiters (c_str (drop 5 stream))).
  destruct (decide (length tok <= max_path_len)%nat) as [Hle|Hgt].
  - by rewrite take_ge.
  - assert (forall p, (max_path_len < strlen p)%nat -> h_entries t !! p = None) as Hnone.
    { intros p Hp. destruct (h_entries t !! p) eqn:Hl; [|done].
      specialize (Hlen p ltac:(by rewrite Hl)). lia. }
    rewrite !Hnone; [done | |]; unfold strlen; cbn [length]; [lia|].
    rewrite length_take. lia.
Qed.

Lemma X21_truncation_keeps_lookup_witness :
  request_path (take (4 + 5) (lit "GET /dir/index.html HTTP/1.1"))
    ≫= (fun p => h_entries {| h_entries := {[ lit "/dir" := None ]}; h_cap := None |} !! p)
  = request_path (lit "GET /dir/index.html HTTP/1.1")
    ≫= (fun p => h_entries {| h_entries := {[ lit "/dir" := None ]}; h_cap := None |} !! p).
Proof.
  apply (X21_truncation_keeps_lookup
           {| h_entries := {[ lit "/dir" := None ]}; h_cap := None |} 4
           (lit "GET /dir/index.html HTTP/1.1")).
  - intros k [d Hk]. cbn [h_entries] in Hk.
    apply lookup_singleton_Some in Hk as [<- _]. simpl. lia.
  - reflexivity.
Defined.

(** ** What the server discloses *)

(** X22: a handler that serves from the table of a scan sends nothing
    but the first bytes of the fallback 404 or of a response, with the
    status 200 or 404, whose size and body are those of a regular file
    below the web root with no dotted name on its path: no byte of a
    dotted file, of a file below a dotted directory or of anything
    outside the web root goes out, whatever the request. *)
Theorem X22_served_bytes hcap path root st ld ns :
  scan_web_root hcap path root = Ret st ->
  exists out,
    wire (snd (child_handle_client (table st) ld ns)) = wire ns ++ out /\
    (out `prefix_of` fallback_err_response \/
     exists pos f status,
       routed (fts_root_name path) (follow_root root) pos f /\
       status ∈ [lit "200 OK"; lit "404 NOT FOUND"] /\
       out `prefix_of`
         response_header status (st_size f) ++ take (st_size f) (f_bytes f)).
Proof.
  intros Hscan.
  destruct (child_handle_client_sends (table st) ld ns (scan_blobs_sized _ _ _ _ Hscan))
    as (out & Hw & Hout).
  exists out. split; [done|].
  destruct Hout as [[-> _]|[[Hpre _]|(status & d & Hst & Hr & _)]];
    [left; apply prefix_nil | by left | right].
  assert (out `prefix_of` response status d) as Hpre
    by (by destruct Hr as [[_ ->]|[_ ?]]).
  assert (status ∈ [lit "200 OK"; lit "404 NOT FOUND"] /\
          exists k, h_entries (table st) !! k = Some d) as [Hstatus [k Hk]].
  { destruct Hst as [[-> [p Hp]]|[-> Hnf]].
    - split; [apply list_elem_of_here | by exists p].
    - split; [apply list_elem_of_further, list_elem_of_here | by eexists]. }
  apply scan_web_root_Ret in Hscan as (_ & -> & Hfull).
  apply foldl_record_lookup in Hk as [Hk|(p & f & Hin & _ & ->)].
  { cbn [table h_entries] in Hk. by rewrite lookup_empty in Hk. }
  pose proof (proj1 (Forall_forall _ _) Hfull (p, f) Hin) as [_ Hsize].
  apply files_routed in Hin as (pos & Hrt & _).
  exists pos, f, status. split; [done|]. split; [done|].
  unfold response in Hpre. cbn [blob_get_size blob_get_data blob_of b_length b_data] in Hpre.
  rewrite take_take, Nat.min_id in Hpre. done.
Qed.

Lemma X22_served_bytes_witness :
  exists st,
    scan_web_root None (lit "www") www = Ret st /\
    exists out,
      wire (snd (child_handle_client (table st)
                   (mkLoopData 1 1 (lit "/404.html") (max_path_len_out st))
                   (client [RxData "G" (lit "ET /.git/config "); RxClose])))
      = wire (client [RxData "G" (lit "ET /.git/config "); RxClose]) ++ out /\
      (out `prefix_of` fallback_err_response \/
       exists pos f status,
         routed (fts_root_name (lit "www")) (follow_root www) pos f /\
         status ∈ [lit "200 OK"; lit "404 NOT FOUND"] /\
         out `prefix_of`
           response_header status (st_size f) ++ take (st_size f) (f_bytes f)).
Proof.
  let v := eval vm_compute in (scan_web_root None (lit "www") www) in
  match v with Ret ?s => exists s end.
  split; [vm_compute; reflexivity|].
  apply (X22_served_bytes None (lit "www") www). vm_compute. reflexivity.
Defined.

(** ** Exit statuses *)

(** X23: the exit statuses tell the failures apart: no two codes of
    [enum tHTTPError] have the same status, only [EXIT_OK] has the status
    0, and every status is within 0..27, so none is changed by the eight
    bits that a parent gets from [wait]. *)
Theorem X23_exit_codes_distinct e1 e2 :
  (exit_code e1 = exit_code e2 <-> e1 = e2) /\
  (exit_code e1 = 0 <-> e1 = EXIT_OK) /\
  0 <= exit_code e1 <= 27.
Proof.
  split; [|split].
  - split; [|by intros ->]. destruct e1, e2; (done || (intros H; discriminate H)).
  - split; [|by intros ->]. destruct e1; (done || (intros H; discriminate H)).
  - destruct e1; simpl; lia.
Qed.

(** ** A peer that waits *)

(** While the peer has delivered less than the buffer holds and has not
    closed, the loop keeps reading, until a [read] fails. *)
Lemma socket_read_loop_silent max_size n : forall received in_buf s,
  Z.to_nat (max_size - received) = n ->
  snd (rx_stream (rx s)) = false ->
  received + Z.of_nat (length (fst (rx_stream (rx s)))) < max_size ->
  exists s1, socket_read_loop max_size received in_buf s
             = (Exit EXIT_SOCKET_READ_FAILED, s1).
Proof.
  induction n as [n IH] using lt_wf_ind. intros received in_buf s Hn Hopen Hshort.
  rewrite socket_read_loop_eq.
  destruct (read (max_size - received) s) as [[bytes|] s1] eqn:Hread; [|by eexists].
  apply read_Some in Hread as (Hcount & Hfst & Hsnd & Hclose & _).
  rewrite Hfst, length_app in Hshort. rewrite Hsnd in Hopen.
  destruct (decide (length bytes = 0%nat)) as [H0|H0].
  { apply length_zero_iff_nil in H0. specialize (Hclose H0 ltac:(lia)).
    destruct (rx s1) as [|[c bs| |] rest]; simplify_eq/=. }
  rewrite decide_True by lia.
  apply (IH (Z.to_nat (max_size - (received + Z.of_nat (length bytes))))); [lia|done..|lia].
Qed.

(** X24: a peer that sends fewer bytes than the receive buffer holds
    ([max_path_len + 5]) and then waits for the answer without closing
    its side gets none: the handler keeps reading until the read fails
    (the receive timeout, or an error), and exits with
    [EXIT_SOCKET_READ_FAILED] having sent nothing, even when the bytes
    received are a complete request for a route of the table. *)
Theorem X24_silent_peer_unanswered t ld ns :
  snd (rx_stream (rx ns)) = false ->
  Z.of_nat (length (fst (rx_stream (rx ns)))) < max_path_len ld + 5 ->
  exists ns',
    child_handle_client t ld ns = (Exit EXIT_SOCKET_READ_FAILED, ns') /\
    wire ns' = wire ns /\ is_open ns' = false.
Proof.
  intros Hopen Hshort.
  destruct (socket_read_loop_silent (max_path_len ld + 5) _ 0 [] ns eq_refl Hopen
              ltac:(lia)) as [ns' Hl].
  pose proof (socket_read_frame 5 (max_path_len ld + 5) ns) as Hfr.
  rewrite child_handle_client_eq. unfold socket_read in *. rewrite Hl in *.
  destruct Hfr as (_ & Hw & Ho & _). by exists ns'.
Qed.

Lemma X24_silent_peer_unanswered_witness :
  exists st,
    scan_web_root None (lit "www") www = Ret st /\
    exists ns',
      child_handle_client (table st)
        (mkLoopData 1 1 (lit "/404.html") (max_path_len_out st))
        (client [RxData "G" (lit "ET /dir"); RxData CR [LF]])
      = (Exit EXIT_SOCKET_READ_FAILED, ns') /\
      wire ns' = wire (client [RxData "G" (lit "ET /dir"); RxData CR [LF]]) /\
      is_open ns' = false.
Proof.
  let v := eval vm_compute in (scan_web_root None (lit "www") www) in
  match v with Ret ?s => exists s end.
  split; [vm_compute; reflexivity|].
  apply X24_silent_peer_unanswered.
  - reflexivity.
  - vm_compute. reflexivity.
Defined.
